(** * The Sick LMS 2xx toolbox: the MATLAB bridge and the two example programs

    A shallow embedding of [matlab/interfaces/lms/lmsmex.cc] and of the
    [main] functions of [lms_simple_app] and [lms_set_variant], and the
    properties of the registry of sessions, of the teardown paths and of the
    scan loops that the design document states about them.

    The driver class [SickLMS] itself (SickLMS.hh, SickLMS.cc,
    SickException.hh) is not among the sources at hand: the code below calls
    it through the interface [SickDriver], and every property is proved for
    an arbitrary driver behind that interface. *)

From Stdlib Require Import QArith.
From stdpp Require Import gmap strings list fin_maps.

(** ** Enumerations and conversions of the driver *)

(** Modelled from the spec: the baud rates {9600, 19200, 38400, 500000} and the
    sentinel of a failed conversion (SickLMS.hh declares the enumeration). *)
Inductive sick_lms_baud_t :=
| SICK_BAUD_9600
| SICK_BAUD_19200
| SICK_BAUD_38400
| SICK_BAUD_500K
| SICK_BAUD_UNKNOWN.

(** Modelled from the spec: the fields of view {100, 180} degrees and the
    sentinel. *)
Inductive sick_lms_scan_angle_t :=
| SICK_SCAN_ANGLE_100
| SICK_SCAN_ANGLE_180
| SICK_SCAN_ANGLE_UNKNOWN.

(** Modelled from the spec: the angular steps {0.25, 0.50, 1.00} degrees and
    the sentinel. *)
Inductive sick_lms_scan_resolution_t :=
| SICK_SCAN_RESOLUTION_25
| SICK_SCAN_RESOLUTION_50
| SICK_SCAN_RESOLUTION_100
| SICK_SCAN_RESOLUTION_UNKNOWN.

(** Modelled from the spec: the unit system a device reports. *)
Inductive sick_lms_measuring_units_t :=
| SICK_MEASURING_UNITS_CM
| SICK_MEASURING_UNITS_MM
| SICK_MEASURING_UNITS_UNKNOWN.

(** Modelled from the spec: which quantity the scan replies carry. The bridge
    only tells [SICK_MS_MODE_REFLECTIVITY] from the rest. *)
Inductive sick_lms_measuring_mode_t :=
| SICK_MS_MODE_RANGE
| SICK_MS_MODE_REFLECTIVITY
| SICK_MS_MODE_RANGE_REFLECTIVITY
| SICK_MS_MODE_UNKNOWN.

(** Modelled from the spec: the exception classes of SickException.hh. The
    first four derive from [SickException]; [StdException] stands for any
    exception that does not. *)
Inductive sick_exception :=
| SickTimeoutException
| SickIOException
| SickConfigException
| SickErrorException
| StdException.

Definition is_SickException (e : sick_exception) : bool :=
  match e with StdException => false | _ => true end.

#[global] Instance sick_lms_baud_eq_dec : EqDecision sick_lms_baud_t.
Proof. solve_decision. Defined.
#[global] Instance sick_lms_scan_angle_eq_dec : EqDecision sick_lms_scan_angle_t.
Proof. solve_decision. Defined.
#[global] Instance sick_lms_scan_resolution_eq_dec :
  EqDecision sick_lms_scan_resolution_t.
Proof. solve_decision. Defined.
#[global] Instance sick_lms_measuring_units_eq_dec :
  EqDecision sick_lms_measuring_units_t.
Proof. solve_decision. Defined.
#[global] Instance sick_lms_measuring_mode_eq_dec :
  EqDecision sick_lms_measuring_mode_t.
Proof. solve_decision. Defined.
#[global] Instance sick_exception_eq_dec : EqDecision sick_exception.
Proof. solve_decision. Defined.

(** Modelled from the spec: [SickLMS::IntToSickBaud], a pure conversion that
    answers the sentinel for every integer outside the set. *)
Definition IntToSickBaud (baud : Z) : sick_lms_baud_t :=
  if (baud =? 9600)%Z then SICK_BAUD_9600
  else if (baud =? 19200)%Z then SICK_BAUD_19200
  else if (baud =? 38400)%Z then SICK_BAUD_38400
  else if (baud =? 500000)%Z then SICK_BAUD_500K
  else SICK_BAUD_UNKNOWN.

(** Modelled from the spec: [SickLMS::StringToSickBaud]. *)
Definition StringToSickBaud (baud : string) : sick_lms_baud_t :=
  if String.eqb baud "9600" then SICK_BAUD_9600
  else if String.eqb baud "19200" then SICK_BAUD_19200
  else if String.eqb baud "38400" then SICK_BAUD_38400
  else if String.eqb baud "500000" then SICK_BAUD_500K
  else SICK_BAUD_UNKNOWN.

(** Modelled from the spec: [SickLMS::IntToSickScanAngle]. *)
Definition IntToSickScanAngle (angle : Z) : sick_lms_scan_angle_t :=
  if (angle =? 100)%Z then SICK_SCAN_ANGLE_100
  else if (angle =? 180)%Z then SICK_SCAN_ANGLE_180
  else SICK_SCAN_ANGLE_UNKNOWN.

(** Modelled from the spec: [SickLMS::DoubleToSickScanResolution]. A C double
    is a rational here: the values the bridge computes with (0.25, 0.5, 1,
    100, 180 and small multiples) are dyadic and exact in binary floating
    point. *)
Definition DoubleToSickScanResolution (res : Q) : sick_lms_scan_resolution_t :=
  if Qeq_bool res (1 # 4) then SICK_SCAN_RESOLUTION_25
  else if Qeq_bool res (1 # 2) then SICK_SCAN_RESOLUTION_50
  else if Qeq_bool res 1 then SICK_SCAN_RESOLUTION_100
  else SICK_SCAN_RESOLUTION_UNKNOWN.

(** The C cast [(int) d] of a double: truncation toward zero. *)
Definition cast_int (d : Q) : Z := Z.quot (Qnum d) (Z.pos (Qden d)).

(** ** The driver interface *)

(** What a call of a driver method leaves behind: it returns or it throws. *)
Inductive outcome (R : Type) :=
| Returns (r : R)
| Throws (e : sick_exception).
Arguments Returns {R} r.
Arguments Throws {R} e.

(** A method acts on the private members of its object and on the world
    outside the process (the serial line and the device behind it). *)
Definition method (P W R : Type) : Type := P → W → outcome R * P * W.

(** The public interface of class [SickLMS] as the three programs use it.
    The device path is kept outside the private part (see [SickLMS] below):
    it is the identity of a session and no method changes it. *)
Class SickDriver := {
  sick_private : Type;
  sick_world : Type;
  SickLMS_ctor : string → sick_private;
  SickLMS_dtor : sick_private → sick_world → sick_world;
  IsInitialized : sick_private → bool;
  IsSickLMSFast : sick_private → bool;
  GetSickMeasuringUnits : sick_private → sick_lms_measuring_units_t;
  GetSickMeasuringMode : sick_private → sick_lms_measuring_mode_t;
  GetSickScanAngle : sick_private → Q;
  GetSickScanResolution : sick_private → Q;
  GetSickStatusAsString : sick_private → string;
  GetSickSoftwareVersionAsString : sick_private → string;
  Initialize : sick_lms_baud_t → method sick_private sick_world unit;
  Uninitialize : method sick_private sick_world unit;
  SetSickVariant :
    sick_lms_scan_angle_t → sick_lms_scan_resolution_t →
    method sick_private sick_world unit;
  (* GetSickScan(values, num_values) *)
  GetSickScan : method sick_private sick_world (list N);
  (* GetSickScan(pri_values, sec_values, num_pri_values, num_sec_values) *)
  GetSickScan2 : method sick_private sick_world (list N * list N);
}.

(** ** The MATLAB bridge: [lmsmex.cc] *)

Declare Scope mex_scope.
Delimit Scope mex_scope with mex.

Section Bridge.
Context `{drv : SickDriver}.

(** A [SickLMS] object on the free store. [GetSickDevicePath] answers the
    path its constructor was given. *)
Record SickLMS := mkSickLMS {
  GetSickDevicePath : string;
  sick_members : sick_private;
}.

(** [new SickLMS(path)]. *)
Definition new_SickLMS (path : string) : SickLMS :=
  mkSickLMS path (SickLMS_ctor path).

(** Addresses of objects on the free store. *)
Definition loc : Type := positive.

(** A right-hand-side argument of the MEX call, by the two ways the bridge
    reads one: [mx_string] is the text [mxGetString] would copy out of it
    ([None] when it holds no text) and [mx_double] is the double found at
    [mxGetPr]. *)
Record mxArray := mkMx {
  mx_string : option string;
  mx_double : Q;
}.

Definition mxStr (s : string) : mxArray := mkMx (Some s) 0.
Definition mxNum (d : Q) : mxArray := mkMx None d.

(** Macros of lmsmex.cc, lines 29-32. *)
Definition ARG_BUFF_LENGTH : nat := 256.
Definition MAX_NUM_LMS_DEVICES : nat := 4.

(** A character buffer read as a C string ends at its first NUL. *)
Fixpoint c_str (s : string) : string :=
  match s with
  | EmptyString => EmptyString
  | String c s' =>
      if Ascii.eqb c Ascii.zero then EmptyString else String c (c_str s')
  end.

(** [mxGetString(arr, buf, sizeof(buf)) != 0] is the failure [None]: the
    array holds no text, or the text and its terminator do not fit the
    buffer. Otherwise the buffer read as a C string. *)
Definition mxGetString (arr : mxArray) : option string :=
  match mx_string arr with
  | Some s => if String.length s <? ARG_BUFF_LENGTH then Some (c_str s) else None
  | None => None
  end.

(** [tolower] and [strcasecmp(a, b) == 0]. *)
Definition tolower (c : Ascii.ascii) : Ascii.ascii :=
  let n := Ascii.nat_of_ascii c in
  if (65 <=? n) && (n <=? 90) then Ascii.ascii_of_nat (n + 32) else c.

Fixpoint strcasecmp_eq (a b : string) : bool :=
  match a, b with
  | EmptyString, EmptyString => true
  | String x a', String y b' =>
      Ascii.eqb (tolower x) (tolower y) && strcasecmp_eq a' b'
  | _, _ => false
  end.

(** The commands of the dispatcher, to tell their messages apart. *)
Inductive command := CmdInit | CmdClear | CmdVariant | CmdGrab | CmdInfo.

(** The texts handed to [mexErrMsgTxt], one constructor per text. *)
Inductive mex_error :=
| ErrUsage                          (* l. 97 *)
| ErrReadCommand                    (* l. 102 *)
| ErrUnrecognizedCommand            (* l. 150 *)
| ErrNumInputArgs (c : command)     (* l. 181, 298, 361, 485, 649 *)
| ErrNumOutputArgs                  (* l. 186, 303, 366, 490, 495, 654 *)
| ErrReadArgument                   (* l. 192, 330, 393, 522, 681 *)
| ErrMaxDevices                     (* l. 197 *)
| ErrInvalidBaud                    (* l. 220 *)
| ErrIO                             (* l. 247 *)
| ErrOccurred                       (* l. 253, 447, 561 *)
| ErrNoDevice                       (* l. 308, 371, 500, 659 *)
| ErrMultipleDevices                (* l. 319, 382, 511, 670 *)
| ErrNoDeviceAtPath                 (* l. 338, 401, 530, 689 *)
| ErrNotInitialized                 (* l. 345, 408, 537, 696 *)
| ErrVariantNotSupported            (* l. 413 *)
| ErrInvalidScanAngle               (* l. 420 *)
| ErrInvalidScanResolution          (* l. 427 *)
| ErrConfig.                        (* l. 441 *)

(** What the bridge does that can be seen from outside, in order. *)
Inductive event :=
| EvNew (l : loc) (path : string)            (* new SickLMS(path) *)
| EvDelete (l : loc)                         (* delete *)
| EvInitialize (l : loc) (baud : sick_lms_baud_t)
| EvUninitialize (l : loc)
| EvSetSickVariant (l : loc)
    (angle : sick_lms_scan_angle_t) (res : sick_lms_scan_resolution_t)
| EvGetSickScan (l : loc)
| EvWarnReinit (path : string)               (* mexWarnMsgTxt, l. 209 *)
| EvWarnCleanup                              (* mexWarnMsgTxt, l. 723 *)
| EvPrintInitializing (path : string)        (* mexPrintf, l. 229 *)
| EvPrintInitialized (baud : sick_lms_baud_t) (* mexPrintf, l. 231 *)
| EvPrintAttempt (angle : Z) (res : Q)       (* mexPrintf, l. 433 *)
| EvPrintVariantSet                          (* mexPrintf, l. 435 *)
| EvPrintText (s : string).                  (* mexPrintf, l. 700, 701 *)

(** The state of the process the MEX file is loaded in: the global
    [sick_lms_map] (a [None] value is a NULL pointer), the live [SickLMS]
    objects, the world outside, and the events so far (the latest last). *)
Record mex_state := mkState {
  sick_lms_map : gmap string (option loc);
  heap : gmap loc SickLMS;
  world : sick_world;
  log : list event;
}.

(** How a piece of the bridge ends: it runs to its end, [mexErrMsgTxt] hands
    control back to MATLAB, or a NULL or dangling pointer (or an argument that
    is not there) is dereferenced and the behaviour is undefined. *)
Inductive mex_result (A : Type) :=
| Done (a : A) (st : mex_state)
| MexErr (e : mex_error) (st : mex_state)
| Crash (st : mex_state).
Arguments Done {A} a st.
Arguments MexErr {A} e st.
Arguments Crash {A} st.

Definition M (A : Type) : Type := mex_state → mex_result A.

Definition ret {A} (a : A) : M A := λ st, Done a st.

Definition bind {A B} (m : M A) (k : A → M B) : M B :=
  λ st,
    match m st with
    | Done a st' => k a st'
    | MexErr e st' => MexErr e st'
    | Crash st' => Crash st'
    end.

Notation "x <- y ;; z" := (bind y (λ x, z))
  (at level 20, y at level 99, z at level 200, only parsing) : mex_scope.
Notation "x ;; z" := (bind x (λ _, z))
  (at level 100, z at level 200, only parsing, right associativity) : mex_scope.
Local Open Scope mex_scope.

Definition mexErrMsgTxt {A} (e : mex_error) : M A := λ st, MexErr e st.

Definition undefined {A} : M A := λ st, Crash st.

Definition emit (e : event) : M unit :=
  λ st, Done tt (mkState (sick_lms_map st) (heap st) (world st) (log st ++ [e])).

Definition state_of {A} (r : mex_result A) : mex_state :=
  match r with Done _ st | MexErr _ st | Crash st => st end.

(** [prhs[i]]; reading past [nrhs] is undefined. *)
Definition prhs_at (prhs : list mxArray) (i : nat) : M mxArray :=
  match prhs !! i with
  | Some a => ret a
  | None => undefined
  end.

(** *** The map *)

(** [sick_lms_map.size()]. *)
Definition map_size : M nat := λ st, Done (size (sick_lms_map st)) st.

(** [sick_lms_map[path]]: [operator[]] of [std::map] enters a NULL pointer
    under a key that is not there yet. *)
Definition map_index (path : string) : M (option loc) :=
  λ st,
    match sick_lms_map st !! path with
    | Some p => Done p st
    | None =>
        Done None
          (mkState (<[path := None]> (sick_lms_map st)) (heap st) (world st)
             (log st))
    end.

(** [sick_lms_map[path] = p]. *)
Definition map_assign (path : string) (p : option loc) : M unit :=
  λ st,
    Done tt
      (mkState (<[path := p]> (sick_lms_map st)) (heap st) (world st) (log st)).

(** [sick_lms_map.erase(path)]. *)
Definition map_erase (path : string) : M unit :=
  λ st,
    Done tt
      (mkState (delete path (sick_lms_map st)) (heap st) (world st) (log st)).

(** The least of a list of keys in the order of [std::string]. *)
Fixpoint least (ks : list string) : option string :=
  match ks with
  | [] => None
  | k :: ks' =>
      match least ks' with
      | Some k' => Some (if String.ltb k' k then k' else k)
      | None => Some k
      end
  end.

(** [sick_lms_map.begin()]: the entry of the least key; on an empty map it is
    [end()], which must not be dereferenced. *)
Definition map_begin : M (string * option loc) :=
  λ st,
    match least (map_to_list (sick_lms_map st)).*1 with
    | Some k =>
        match sick_lms_map st !! k with
        | Some p => Done (k, p) st
        | None => Crash st
        end
    | None => Crash st
    end.

(** [p->...]: the object behind a pointer. *)
Definition deref (p : option loc) : M SickLMS :=
  λ st,
    match p with
    | Some l =>
        match heap st !! l with
        | Some obj => Done obj st
        | None => Crash st
        end
    | None => Crash st
    end.

(** [p->get()] for a member function that only reads. *)
Definition getter {R} (p : option loc) (get : sick_private → R) : M R :=
  obj <- deref p ;; ret (get (sick_members obj)).

(** [p->m(...)] for a member function that talks to the device, inside a
    [try] block: the event [ev] is recorded, the object and the world move
    on, and the outcome is handed to the handlers. *)
Definition invoke {R} (p : option loc) (ev : loc → event)
    (m : method sick_private sick_world R) : M (outcome R) :=
  λ st,
    match p with
    | Some l =>
        match heap st !! l with
        | Some obj =>
            let '(r, members, w) := m (sick_members obj) (world st) in
            Done r
              (mkState (sick_lms_map st)
                 (<[l := mkSickLMS (GetSickDevicePath obj) members]> (heap st))
                 w (log st ++ [ev l]))
        | None => Crash st
        end
    | None => Crash st
    end.

(** [sick_lms_map[path]->get()]. *)
Definition sick_get {R} (path : string) (get : sick_private → R) : M R :=
  p <- map_index path ;; getter p get.

(** [sick_lms_map[path]->m(...)] inside a [try] block. *)
Definition sick_call {R} (path : string) (ev : loc → event)
    (m : method sick_private sick_world R) : M (outcome R) :=
  p <- map_index path ;; invoke p ev m.

(** [new SickLMS(path)] at an address not in use. *)
Definition new (path : string) : M (option loc) :=
  λ st,
    let l := fresh (dom (heap st)) in
    Done (Some l)
      (mkState (sick_lms_map st) (<[l := new_SickLMS path]> (heap st))
         (world st) (log st ++ [EvNew l path])).

(** [sick_lms_map[path] = new SickLMS(path)], line 226. *)
Definition sick_new (path : string) : M unit :=
  p <- new path ;; map_assign path p.

(** [delete p]: nothing for NULL, the destructor and the release of the
    object otherwise. *)
Definition delete_obj (p : option loc) : M unit :=
  λ st,
    match p with
    | Some l =>
        match heap st !! l with
        | Some obj =>
            Done tt
              (mkState (sick_lms_map st) (delete l (heap st))
                 (SickLMS_dtor (sick_members obj) (world st))
                 (log st ++ [EvDelete l]))
        | None => Crash st
        end
    | None => Done tt st
    end.

(** [delete sick_lms_map[path]], line 728. *)
Definition sick_delete (path : string) : M unit :=
  p <- map_index path ;; delete_obj p.

(** [sickInMap], lines 706-708. *)
Definition sickInMap (sick_dev_path : string) : M bool :=
  λ st, Done (bool_decide (is_Some (sick_lms_map st !! sick_dev_path))) st.

(** [cleanup], lines 711-733. *)
Definition cleanup (sick_dev_path : string) : M unit :=
  p <- map_index sick_dev_path ;;
  match p with
  | None => ret tt
  | Some _ =>
      initialized <- sick_get sick_dev_path IsInitialized ;;
      (if initialized then
         r <- sick_call sick_dev_path EvUninitialize Uninitialize ;;
         match r with
         | Returns _ => ret tt
         | Throws _ => emit EvWarnCleanup
         end
       else ret tt) ;;
      sick_delete sick_dev_path ;;
      map_erase sick_dev_path
  end.

(** [mexExit], lines 736-743. The loop runs while the map is not empty; [fuel]
    bounds the number of rounds and [None] says it did not suffice. *)
Fixpoint mexExit (fuel : nat) (st : mex_state) : option (mex_result unit) :=
  if bool_decide (sick_lms_map st = ∅) then Some (Done tt st)
  else
    match fuel with
    | O => None
    | S fuel' =>
        match (b <- map_begin ;; cleanup b.1) st with
        | Done _ st' => mexExit fuel' st'
        | r => Some r
        end
    end.

(** [initSick], lines 156-288: the struct handed back on success. The MEX
    allocators ([mxCreateStructArray] and the like) end the MEX call
    themselves when they run out of memory and [mexAtExit] always answers 0,
    so the checks on them (l. 258-283) never fire and are left out. *)
Record init_struct := mkInit {
  init_path : string;
  init_lms_fast : bool;
  init_units_mm : bool;
  init_meas_mode : sick_lms_measuring_mode_t;
}.

Definition initSick (nlhs : nat) (prhs : list mxArray) : M init_struct :=
  let nrhs := length prhs in
  if negb (nrhs =? 3) then mexErrMsgTxt (ErrNumInputArgs CmdInit) else
  if 1 <? nlhs then mexErrMsgTxt ErrNumOutputArgs else
  a1 <- prhs_at prhs 1 ;;
  match mxGetString a1 with
  | None => mexErrMsgTxt ErrReadArgument
  | Some arg_buffer =>
      sz <- map_size ;;
      if sz =? MAX_NUM_LMS_DEVICES then mexErrMsgTxt ErrMaxDevices else
      let sick_dev_path := arg_buffer in
      present <- sickInMap sick_dev_path ;;
      (if present then
         initialized <- sick_get sick_dev_path IsInitialized ;;
         (if initialized then emit (EvWarnReinit sick_dev_path) else ret tt) ;;
         cleanup sick_dev_path
       else ret tt) ;;
      a2 <- prhs_at prhs 2 ;;
      let sick_baud := IntToSickBaud (cast_int (mx_double a2)) in
      if decide (sick_baud = SICK_BAUD_UNKNOWN) then mexErrMsgTxt ErrInvalidBaud
      else
        (* try *)
        sick_new sick_dev_path ;;
        emit (EvPrintInitializing sick_dev_path) ;;
        r <- sick_call sick_dev_path (λ l, EvInitialize l sick_baud)
               (Initialize sick_baud) ;;
        match r with
        | Returns _ =>
            emit (EvPrintInitialized sick_baud) ;;
            lms_fast <- sick_get sick_dev_path IsSickLMSFast ;;
            units <- sick_get sick_dev_path GetSickMeasuringUnits ;;
            meas_mode <- sick_get sick_dev_path GetSickMeasuringMode ;;
            ret (mkInit sick_dev_path lms_fast
                   (bool_decide (units = SICK_MEASURING_UNITS_MM)) meas_mode)
        | Throws SickIOException =>
            cleanup sick_dev_path ;; mexErrMsgTxt ErrIO
        | Throws _ =>
            cleanup sick_dev_path ;; mexErrMsgTxt ErrOccurred
        end
  end.

(** The block that settles [sick_dev_path], written out four times in the
    source: with [n = 1] in [clearSick] (l. 311-341), [grabSickVals]
    (l. 503-533) and [printSickInfo] (l. 662-692), with [n = 3] in
    [setSickVariant] (l. 374-404). With [n] arguments the only session is
    taken; with [n + 1] the last one names the path; otherwise the path stays
    the empty string it was constructed as. *)
Definition device_path_arg (n : nat) (prhs : list mxArray) : M string :=
  let nrhs := length prhs in
  sick_dev_path <-
    (if nrhs =? n then
       sz <- map_size ;;
       if sz =? 1 then
         b <- map_begin ;;
         obj <- deref b.2 ;;
         ret (GetSickDevicePath obj)
       else mexErrMsgTxt ErrMultipleDevices
     else ret EmptyString) ;;
  if nrhs =? S n then
    a <- prhs_at prhs n ;;
    match mxGetString a with
    | None => mexErrMsgTxt ErrReadArgument
    | Some arg_buffer =>
        let sick_dev_path := arg_buffer in
        present <- sickInMap sick_dev_path ;;
        if present then ret sick_dev_path
        else mexErrMsgTxt ErrNoDeviceAtPath
    end
  else ret sick_dev_path.

(** [clearSick], lines 291-351. *)
Definition clearSick (nlhs : nat) (prhs : list mxArray) : M unit :=
  let nrhs := length prhs in
  if 2 <? nrhs then mexErrMsgTxt (ErrNumInputArgs CmdClear) else
  if 0 <? nlhs then mexErrMsgTxt ErrNumOutputArgs else
  sz <- map_size ;;
  if sz =? 0 then mexErrMsgTxt ErrNoDevice else
  sick_dev_path <- device_path_arg 1 prhs ;;
  initialized <- sick_get sick_dev_path IsInitialized ;;
  if negb initialized then mexErrMsgTxt ErrNotInitialized else
  cleanup sick_dev_path.

(** [setSickVariant], lines 354-450. *)
Definition setSickVariant (nlhs : nat) (prhs : list mxArray) : M unit :=
  let nrhs := length prhs in
  if 4 <? nrhs then mexErrMsgTxt (ErrNumInputArgs CmdVariant) else
  if 0 <? nlhs then mexErrMsgTxt ErrNumOutputArgs else
  sz <- map_size ;;
  if sz =? 0 then mexErrMsgTxt ErrNoDevice else
  sick_dev_path <- device_path_arg 3 prhs ;;
  initialized <- sick_get sick_dev_path IsInitialized ;;
  if negb initialized then mexErrMsgTxt ErrNotInitialized else
  lms_fast <- sick_get sick_dev_path IsSickLMSFast ;;
  if lms_fast then mexErrMsgTxt ErrVariantNotSupported else
  a1 <- prhs_at prhs 1 ;;
  let scan_angle := cast_int (mx_double a1) in
  let sick_scan_angle := IntToSickScanAngle scan_angle in
  if decide (sick_scan_angle = SICK_SCAN_ANGLE_UNKNOWN)
  then mexErrMsgTxt ErrInvalidScanAngle else
  a2 <- prhs_at prhs 2 ;;
  let scan_resolution := mx_double a2 in
  let sick_scan_resolution := DoubleToSickScanResolution scan_resolution in
  if decide (sick_scan_resolution = SICK_SCAN_RESOLUTION_UNKNOWN)
  then mexErrMsgTxt ErrInvalidScanResolution else
  (* try *)
  emit (EvPrintAttempt scan_angle scan_resolution) ;;
  r <- sick_call sick_dev_path
         (λ l, EvSetSickVariant l sick_scan_angle sick_scan_resolution)
         (SetSickVariant sick_scan_angle sick_scan_resolution) ;;
  match r with
  | Returns _ => emit EvPrintVariantSet
  | Throws SickConfigException => mexErrMsgTxt ErrConfig
  | Throws _ => cleanup sick_dev_path ;; mexErrMsgTxt ErrOccurred
  end.

(** [grabSickVals], lines 453-639: the struct handed back on success; a field
    that is never set stays [None]. *)
Record grab_struct := mkGrab {
  grab_res : Q;
  grab_fov : Q;
  grab_range : option (list Q);
  grab_reflect : option (list Q);
  grab_bearing : list Q;
}.

(** An [unsigned int] stored into a double. *)
Definition double_of_uint (v : N) : Q := inject_Z (Z.of_N v).

(** The loop of lines 629-631 over [i = 0 .. num_pri_values - 1]. *)
Definition bearings (scan_fov scan_res : Q) (num_pri_values : nat) : list Q :=
  map (λ i : nat, ((180 - scan_fov) / 2 + inject_Z (Z.of_nat i) * scan_res)%Q)
    (seq 0 num_pri_values).

Definition grabSickVals (nlhs : nat) (prhs : list mxArray) : M grab_struct :=
  let nrhs := length prhs in
  (* std::string sick_dev_path; is empty until line 508 or 526 *)
  if 2 <? nrhs then mexErrMsgTxt (ErrNumInputArgs CmdGrab) else
  (* l. 489 *)
  refuse <-
    (if 2 <? nlhs then
       sick_get EmptyString IsSickLMSFast
     else ret false) ;;
  if (refuse : bool) then mexErrMsgTxt ErrNumOutputArgs else
  (* l. 494 *)
  refuse <-
    (if 1 <? nlhs then
       sick_get EmptyString IsSickLMSFast
     else ret false) ;;
  if (refuse : bool) then mexErrMsgTxt ErrNumOutputArgs else
  sz <- map_size ;;
  if sz =? 0 then mexErrMsgTxt ErrNoDevice else
  sick_dev_path <- device_path_arg 1 prhs ;;
  initialized <- sick_get sick_dev_path IsInitialized ;;
  if negb initialized then mexErrMsgTxt ErrNotInitialized else
  (* try *)
  lms_fast <- sick_get sick_dev_path IsSickLMSFast ;;
  r <-
    (if lms_fast then
       sick_call sick_dev_path EvGetSickScan GetSickScan2
     else
       r <- sick_call sick_dev_path EvGetSickScan GetSickScan ;;
       ret match r with
           | Returns pri_values => Returns (pri_values, [])
           | Throws e => Throws e
           end) ;;
  match r with
  | Throws _ => cleanup sick_dev_path ;; mexErrMsgTxt ErrOccurred
  | Returns (pri_values, sec_values) =>
      measuring_mode <- sick_get sick_dev_path GetSickMeasuringMode ;;
      scan_res <- sick_get sick_dev_path GetSickScanResolution ;;
      scan_fov <- sick_get sick_dev_path GetSickScanAngle ;;
      (* after the try block *)
      let mx_pri_array := map double_of_uint pri_values in
      let mx_sec_array := map double_of_uint sec_values in
      let mx_ang_array := bearings scan_fov scan_res (length pri_values) in
      lms_fast <- sick_get sick_dev_path IsSickLMSFast ;;
      if lms_fast then
        ret (mkGrab scan_res scan_fov (Some mx_pri_array) (Some mx_sec_array)
               mx_ang_array)
      else if decide (measuring_mode = SICK_MS_MODE_REFLECTIVITY) then
        ret (mkGrab scan_res scan_fov None (Some mx_pri_array) mx_ang_array)
      else
        ret (mkGrab scan_res scan_fov (Some mx_pri_array) None mx_ang_array)
  end.

(** [printSickInfo], lines 642-703. *)
Definition printSickInfo (nlhs : nat) (prhs : list mxArray) : M unit :=
  let nrhs := length prhs in
  if 2 <? nrhs then mexErrMsgTxt (ErrNumInputArgs CmdInfo) else
  if 0 <? nlhs then mexErrMsgTxt ErrNumOutputArgs else
  sz <- map_size ;;
  if sz =? 0 then mexErrMsgTxt ErrNoDevice else
  sick_dev_path <- device_path_arg 1 prhs ;;
  initialized <- sick_get sick_dev_path IsInitialized ;;
  if negb initialized then mexErrMsgTxt ErrNotInitialized else
  status <- sick_get sick_dev_path GetSickStatusAsString ;;
  emit (EvPrintText status) ;;
  version <- sick_get sick_dev_path GetSickSoftwareVersionAsString ;;
  emit (EvPrintText version).

(** [mexFunction], lines 90-153: what is left in [plhs[0]] ([None] is NULL). *)
Inductive mx_output :=
| OutInit (s : init_struct)
| OutGrab (g : grab_struct).

Definition mexFunction (nlhs : nat) (prhs : list mxArray)
  : M (option mx_output) :=
  let nrhs := length prhs in
  if nrhs =? 0 then mexErrMsgTxt ErrUsage else
  a0 <- prhs_at prhs 0 ;;
  match mxGetString a0 with
  | None => mexErrMsgTxt ErrReadCommand
  | Some cmd_buffer =>
      if strcasecmp_eq cmd_buffer "init" then
        s <- initSick nlhs prhs ;; ret (Some (OutInit s))
      else if strcasecmp_eq cmd_buffer "clear" then
        clearSick nlhs prhs ;; ret None
      else if strcasecmp_eq cmd_buffer "variant" then
        setSickVariant nlhs prhs ;; ret None
      else if strcasecmp_eq cmd_buffer "grab" then
        g <- grabSickVals nlhs prhs ;; ret (Some (OutGrab g))
      else if strcasecmp_eq cmd_buffer "info" then
        printSickInfo nlhs prhs ;; ret None
      else mexErrMsgTxt ErrUnrecognizedCommand
  end.

(** *** The life of the process *)

(** The MEX file is loaded with an empty map. *)
Definition initial_state (w : sick_world) : mex_state := mkState ∅ ∅ w [].

(** MATLAB calls [mexFunction] again and again, each call one pair
    [(nlhs, prhs)]; after a crash there is no process left. *)
Fixpoint run (calls : list (nat * list mxArray)) (st : mex_state)
  : option mex_state :=
  match calls with
  | [] => Some st
  | (nlhs, prhs) :: calls' =>
      match mexFunction nlhs prhs st with
      | Done _ st' | MexErr _ st' => run calls' st'
      | Crash _ => None
      end
  end.

Definition reachable (st : mex_state) : Prop :=
  ∃ w calls, run calls (initial_state w) = Some st.

End Bridge.

Arguments Done {drv A} a st.
Arguments MexErr {drv A} e st.
Arguments Crash {drv A} st.

Notation "x <- y ;; z" := (bind y (λ x, z))
  (at level 20, y at level 99, z at level 200, only parsing) : mex_scope.
Notation "x ;; z" := (bind x (λ _, z))
  (at level 100, z at level 200, only parsing, right associativity) : mex_scope.

(** ** The example programs: [lms_simple_app] and [lms_set_variant] *)

Section Examples.
Context `{drv : SickDriver}.

(** What a run of an example does that can be seen from outside: the calls
    into the driver and the lines written to [cout] and [cerr]. *)
Inductive app_event :=
| AppInitialize (baud : sick_lms_baud_t)
| AppUninitialize
| AppSetSickVariant
    (angle : sick_lms_scan_angle_t) (res : sick_lms_scan_resolution_t)
| AppGetSickScan
| CoutUsage
| CerrInvalidBaud
| CoutSettingVariant
| CoutAcquiring
| CoutNumValues (num_values : nat)
| CerrWhat (e : sick_exception)
| CerrErrorOccurred
| CoutDone.

(** The local object [sick_lms], the world and the output so far. *)
Record app_state := mkApp {
  sick_lms : sick_private;
  app_world : sick_world;
  app_log : list app_event;
}.

(** A statement inside a [try] block: it completes or leaves by an
    exception. *)
Definition App (R : Type) : Type := app_state → outcome R * app_state.

Definition app_ret {R} (r : R) : App R := λ st, (Returns r, st).

Definition app_bind {R S} (m : App R) (k : R → App S) : App S :=
  λ st,
    match m st with
    | (Returns r, st') => k r st'
    | (Throws e, st') => (Throws e, st')
    end.

Declare Scope app_scope.
Delimit Scope app_scope with app.
Notation "x <- y ;; z" := (app_bind y (λ x, z))
  (at level 20, y at level 99, z at level 200, only parsing) : app_scope.
Notation "x ;; z" := (app_bind x (λ _, z))
  (at level 100, z at level 200, only parsing, right associativity) : app_scope.
Local Open Scope app_scope.

Definition say (e : app_event) : App unit :=
  λ st, (Returns tt, mkApp (sick_lms st) (app_world st) (app_log st ++ [e])).

(** [sick_lms.m(...)]. *)
Definition app_invoke {R} (ev : app_event)
    (m : method sick_private sick_world R) : App R :=
  λ st,
    let '(r, members, w) := m (sick_lms st) (app_world st) in
    (r, mkApp members w (app_log st ++ [ev])).

(** The [for] loops over [i < 10] with [n] rounds to go: lms_simple_app
    l. 68-87 and lms_set_variant l. 118-140 ([announce = false], the handler
    [catch(...) { throw; }]) and lms_set_variant l. 83-106
    ([announce = true], the handler [catch(SickException &)] that writes
    [what()] and rethrows, any other exception leaving unhandled). *)
Fixpoint scan_loop (announce : bool) (n : nat) : App unit :=
  match n with
  | O => app_ret tt
  | S n' =>
      λ st,
        match app_invoke AppGetSickScan GetSickScan st with
        | (Returns values, st') =>
            (say (CoutNumValues (length values)) ;; scan_loop announce n') st'
        | (Throws SickTimeoutException, st') =>
            (say (CerrWhat SickTimeoutException) ;; scan_loop announce n') st'
        | (Throws e, st') =>
            if announce && is_SickException e
            then (say (CerrWhat e) ;; (λ st, (Throws e, st))) st'
            else (Throws e, st')
        end
  end.

(** The test of lines 33 (lms_simple_app) and 34 (lms_set_variant). *)
Definition usage_wanted (argv : list string) : bool :=
  let argc := length argv in
  (negb (argc =? 2) && negb (argc =? 3))
  || ((argc =? 2) && strcasecmp_eq (nth 1 argv EmptyString) "--help").

(** The end of [main]: the exit code, what was written, and the world after
    the destructor of [sick_lms]. *)
Definition leave (code : Z) (st : app_state) : Z * list app_event * sick_world :=
  (code, app_log st, SickLMS_dtor (sick_lms st) (app_world st)).

(** The outer [try] with its handler [catch(...)] and the lines after it. *)
Definition guarded (body : App unit) (st : app_state)
  : Z * list app_event * sick_world :=
  match body st with
  | (Returns _, st') => leave 0 (snd (say CoutDone st'))
  | (Throws _, st') => leave (-1) (snd (say CerrErrorOccurred st'))
  end.

(** [main] of lms_simple_app, lines 23-106. *)
Definition lms_simple_app_main (argv : list string) (w : sick_world)
  : Z * list app_event * sick_world :=
  let argc := length argv in
  if usage_wanted argv then ((-1)%Z, [CoutUsage], w) else
  let device_str := nth 1 argv EmptyString in
  let desired_baud :=
    if argc =? 3 then StringToSickBaud (nth 2 argv EmptyString)
    else SICK_BAUD_38400 in
  if (argc =? 3) && bool_decide (desired_baud = SICK_BAUD_UNKNOWN)
  then ((-1)%Z, [CerrInvalidBaud], w) else
  guarded
    (app_invoke (AppInitialize desired_baud) (Initialize desired_baud) ;;
     scan_loop false 10 ;;
     app_invoke AppUninitialize Uninitialize)
    (mkApp (SickLMS_ctor device_str) w []).

(** [main] of lms_set_variant, lines 28-160. *)
Definition lms_set_variant_main (argv : list string) (w : sick_world)
  : Z * list app_event * sick_world :=
  let argc := length argv in
  if usage_wanted argv then ((-1)%Z, [CoutUsage], w) else
  let device_str := nth 1 argv EmptyString in
  let desired_baud :=
    if argc =? 3 then StringToSickBaud (nth 2 argv EmptyString)
    else SICK_BAUD_38400 in
  if (argc =? 3) && bool_decide (desired_baud = SICK_BAUD_UNKNOWN)
  then ((-1)%Z, [CerrInvalidBaud], w) else
  guarded
    (app_invoke (AppInitialize desired_baud) (Initialize desired_baud) ;;
     say CoutSettingVariant ;;
     app_invoke (AppSetSickVariant SICK_SCAN_ANGLE_100 SICK_SCAN_RESOLUTION_25)
       (SetSickVariant SICK_SCAN_ANGLE_100 SICK_SCAN_RESOLUTION_25) ;;
     say CoutAcquiring ;;
     scan_loop true 10 ;;
     say CoutSettingVariant ;;
     app_invoke (AppSetSickVariant SICK_SCAN_ANGLE_180 SICK_SCAN_RESOLUTION_50)
       (SetSickVariant SICK_SCAN_ANGLE_180 SICK_SCAN_RESOLUTION_50) ;;
     say CoutAcquiring ;;
     scan_loop false 10 ;;
     app_invoke AppUninitialize Uninitialize)
    (mkApp (SickLMS_ctor device_str) w []).

End Examples.

(** Counting the events of a run of an example. *)
Fixpoint count (f : app_event → bool) (evs : list app_event) : nat :=
  match evs with
  | [] => 0
  | e :: evs' => (if f e then 1 else 0) + count f evs'
  end.

Definition is_scan (e : app_event) : bool :=
  match e with AppGetSickScan => true | _ => false end.

Definition is_timeout_report (e : app_event) : bool :=
  match e with CerrWhat SickTimeoutException => true | _ => false end.

Definition is_values_report (e : app_event) : bool :=
  match e with CoutNumValues _ => true | _ => false end.

Definition is_sentinel_initialize (e : app_event) : bool :=
  match e with AppInitialize SICK_BAUD_UNKNOWN => true | _ => false end.

Definition is_driver_call (e : app_event) : bool :=
  match e with
  | AppInitialize _ | AppUninitialize | AppSetSickVariant _ _ | AppGetSickScan =>
      true
  | _ => false
  end.

(** A statement that adds nothing to the count of [f]. *)
Definition keeps `{drv : SickDriver} {R} (f : app_event → bool) (m : App R)
  : Prop :=
  ∀ st, count f (app_log (m st).2) = count f (app_log st).

(** ** A simulated device

    A driver to run the programs against: [/dev/ttyUSB1] is an LMS Fast, the
    unit at [/dev/ttyUSB2] does not answer the stop command of
    [Uninitialize], nothing answers at [/dev/null], and every unit lets its
    third and seventh scan request time out. The world counts the requests
    that went out on the wire. *)

Record sim_lms := mkSim {
  sim_path : string;
  sim_initialized : bool;
  sim_angle : Q;
  sim_resolution : Q;
  sim_scans : nat;
}.

Definition sim_fast (s : sim_lms) : bool := String.eqb (sim_path s) "/dev/ttyUSB1".

Definition sim_Initialize (baud : sick_lms_baud_t) : method sim_lms nat unit :=
  λ s w,
    if String.eqb (sim_path s) "/dev/null" then (Throws SickIOException, s, S w)
    else
      (Returns tt,
       mkSim (sim_path s) true (sim_angle s) (sim_resolution s) (sim_scans s),
       S w).

Definition sim_Uninitialize : method sim_lms nat unit :=
  λ s w,
    if String.eqb (sim_path s) "/dev/ttyUSB2" then (Throws SickIOException, s, S w)
    else
      (Returns tt,
       mkSim (sim_path s) false (sim_angle s) (sim_resolution s) (sim_scans s),
       S w).

Definition sim_angle_of (a : sick_lms_scan_angle_t) : Q :=
  match a with SICK_SCAN_ANGLE_100 => 100 | _ => 180 end.

Definition sim_resolution_of (r : sick_lms_scan_resolution_t) : Q :=
  match r with
  | SICK_SCAN_RESOLUTION_25 => 1 # 4
  | SICK_SCAN_RESOLUTION_50 => 1 # 2
  | _ => 1
  end.

Definition sim_SetSickVariant (a : sick_lms_scan_angle_t)
    (r : sick_lms_scan_resolution_t) : method sim_lms nat unit :=
  λ s w,
    if negb (sim_initialized s) || sim_fast s then (Throws SickConfigException, s, w)
    else
      (Returns tt,
       mkSim (sim_path s) true (sim_angle_of a) (sim_resolution_of r) (sim_scans s),
       S w).

(** The number of samples of a scan: [fov / resolution + 1]. *)
Definition sim_num_values (s : sim_lms) : nat :=
  S (Z.to_nat (cast_int (sim_angle s / sim_resolution s))).

Definition sim_scan {R} (values : sim_lms → R) : method sim_lms nat R :=
  λ s w,
    let s' :=
      mkSim (sim_path s) (sim_initialized s) (sim_angle s) (sim_resolution s)
        (S (sim_scans s)) in
    if negb (sim_initialized s) then (Throws SickConfigException, s, w)
    else if (sim_scans s =? 2) || (sim_scans s =? 6)
    then (Throws SickTimeoutException, s', S w)
    else (Returns (values s), s', S w).

Definition sim_driver : SickDriver := {|
  sick_private := sim_lms;
  sick_world := nat;
  SickLMS_ctor := λ path, mkSim path false 180 (1 # 2) 0;
  SickLMS_dtor := λ s w, if sim_initialized s then S w else w;
  IsInitialized := sim_initialized;
  IsSickLMSFast := sim_fast;
  GetSickMeasuringUnits := λ _, SICK_MEASURING_UNITS_MM;
  GetSickMeasuringMode :=
    λ s, if sim_fast s then SICK_MS_MODE_RANGE_REFLECTIVITY else SICK_MS_MODE_RANGE;
  GetSickScanAngle := sim_angle;
  GetSickScanResolution := sim_resolution;
  GetSickStatusAsString := λ _, "status";
  GetSickSoftwareVersionAsString := λ _, "version";
  Initialize := sim_Initialize;
  Uninitialize := sim_Uninitialize;
  SetSickVariant := sim_SetSickVariant;
  GetSickScan := sim_scan (λ s, repeat 1000%N (sim_num_values s));
  GetSickScan2 :=
    sim_scan (λ s, (repeat 1000%N (sim_num_values s),
                    repeat 7%N (sim_num_values s)));
|}.


(** ** What the properties are stated with *)

Section Invariants.
Context `{drv : SickDriver}.
Local Open Scope mex_scope.

(** The sessions alive after a run of events, each address with the path
    its object was constructed with. *)
Definition live_step (h : gmap loc string) (e : event) : gmap loc string :=
  match e with
  | EvNew l path => <[l := path]> h
  | EvDelete l => delete l h
  | _ => h
  end.

Definition live (evs : list event) : gmap loc string := foldl live_step ∅ evs.

(** No two live sessions on one device path. *)
Definition one_per_path (h : gmap loc string) : Prop :=
  ∀ l1 l2 path, h !! l1 = Some path → h !! l2 = Some path → l1 = l2.

(** The invariant of the registry between two calls of [mexFunction]: every
    entry points at a live session constructed with the entry's key, every
    live session is owned by the entry of its path, the ceiling holds, the
    events so far account for exactly the live sessions, never two of them
    were alive on one path, and [Initialize] was never handed the
    sentinel. *)
Record registry_ok (st : mex_state) : Prop := {
  reg_entry :
    ∀ k p, sick_lms_map st !! k = Some p →
      ∃ l obj, p = Some l ∧ heap st !! l = Some obj ∧ GetSickDevicePath obj = k;
  reg_owned :
    ∀ l obj, heap st !! l = Some obj →
      sick_lms_map st !! GetSickDevicePath obj = Some (Some l);
  reg_bound : size (sick_lms_map st) ≤ MAX_NUM_LMS_DEVICES;
  reg_log : live (log st) = GetSickDevicePath <$> heap st;
  reg_trace : ∀ pre, pre `prefix_of` log st → one_per_path (live pre);
  reg_baud : ∀ l, EvInitialize l SICK_BAUD_UNKNOWN ∉ log st;
}.

(** The entry of [path] points at a live session. *)
Definition registered (path : string) (st : mex_state) : Prop :=
  ∃ l obj, sick_lms_map st !! path = Some (Some l) ∧ heap st !! l = Some obj.

(** Events that neither create nor release a session nor hand the sentinel
    to [Initialize]. *)
Definition quiet (e : event) : bool :=
  match e with
  | EvNew _ _ | EvDelete _ | EvInitialize _ SICK_BAUD_UNKNOWN => false
  | _ => true
  end.

(** What [cleanup] writes for the session at [l], and the state it leaves. *)
Definition teardown_events (l : loc) (obj : SickLMS) (w : sick_world)
  : list event :=
  (if IsInitialized (sick_members obj) then
     EvUninitialize l ::
     match (Uninitialize (sick_members obj) w).1.1 with
     | Returns _ => []
     | Throws _ => [EvWarnCleanup]
     end
   else []) ++ [EvDelete l].

Definition torn_down (path : string) (l : loc) (obj : SickLMS)
    (st : mex_state) : mex_state :=
  let after :=
    if IsInitialized (sick_members obj)
    then Uninitialize (sick_members obj) (world st)
    else (Returns tt, sick_members obj, world st) in
  mkState (delete path (sick_lms_map st)) (delete l (heap st))
    (SickLMS_dtor after.1.2 after.2)
    (log st ++ teardown_events l obj (world st)).

(** The state [emit e] leaves. *)
Definition logged (e : event) (st : mex_state) : mex_state :=
  mkState (sick_lms_map st) (heap st) (world st) (log st ++ [e]).

(** The state a call of the method [m] on the session at [l] leaves. *)
Definition called {R} (l : loc) (obj : SickLMS) (ev : loc → event)
    (m : method sick_private sick_world R) (st : mex_state) : mex_state :=
  let after := m (sick_members obj) (world st) in
  mkState (sick_lms_map st)
    (<[l := mkSickLMS (GetSickDevicePath obj) after.1.2]> (heap st))
    after.2 (log st ++ [ev l]).

(** The state [sick_lms_map[path] = new SickLMS(path)] leaves. *)
Definition installed (path : string) (st : mex_state) : mex_state :=
  let l := fresh (dom (heap st)) in
  mkState (<[path := Some l]> (sick_lms_map st))
    (<[l := new_SickLMS path]> (heap st)) (world st)
    (log st ++ [EvNew l path]).

(** Partial correctness of a piece of the bridge: from a state in [P] it ends
    in [Q], or leaves through [mexErrMsgTxt] in [E]; nothing is promised of
    undefined behaviour. *)
Definition triple {A} (P : mex_state → Prop) (m : M A)
    (Q : A → mex_state → Prop) (E : mex_error → mex_state → Prop) : Prop :=
  ∀ st, P st →
    match m st with
    | Done a st' => Q a st'
    | MexErr e st' => E e st'
    | Crash _ => True
    end.

(** The addresses released and the addresses uninitialised in a run of
    events, in order. *)
Definition deleted (evs : list event) : list loc :=
  omap (λ e, match e with EvDelete l => Some l | _ => None end) evs.

Definition uninitialized (evs : list event) : list loc :=
  omap (λ e, match e with EvUninitialize l => Some l | _ => None end) evs.

Definition created (evs : list event) : list loc :=
  omap (λ e, match e with EvNew l _ => Some l | _ => None end) evs.

Definition initialized_with (evs : list event) : list sick_lms_baud_t :=
  omap (λ e, match e with EvInitialize _ b => Some b | _ => None end) evs.

(** A piece of the bridge that never leaves through [mexErrMsgTxt]. *)
Definition no_err {A} (m : M A) : Prop :=
  ∀ st, match m st with MexErr _ _ => False | _ => True end.

(** The name a command is dispatched by. *)
Definition command_name (c : command) : string :=
  match c with
  | CmdInit => "init"
  | CmdClear => "clear"
  | CmdVariant => "variant"
  | CmdGrab => "grab"
  | CmdInfo => "info"
  end.

(** What [mexFunction] does once it has read the name of [c]. *)
Definition handler (c : command) (nlhs : nat) (prhs : list mxArray)
  : M (option mx_output) :=
  match c with
  | CmdInit => s <- initSick nlhs prhs ;; ret (Some (OutInit s))
  | CmdClear => clearSick nlhs prhs ;; ret None
  | CmdVariant => setSickVariant nlhs prhs ;; ret None
  | CmdGrab => g <- grabSickVals nlhs prhs ;; ret (Some (OutGrab g))
  | CmdInfo => printSickInfo nlhs prhs ;; ret None
  end.

(** The arguments of a command that takes a device path last and may leave
    it out: what stands between its name and the path. *)
Definition args_before_path (c : command) (args : list mxArray) : Prop :=
  match c with
  | CmdClear | CmdGrab | CmdInfo => args = []
  | CmdVariant => length args = 2
  | CmdInit => False
  end.

(** The numbers of outputs a command can be called with: [grab] hands back
    one struct, the others of these nothing. *)
Definition outputs_accepted (c : command) (nlhs : nat) : Prop :=
  match c with
  | CmdGrab => nlhs ≤ 1
  | _ => nlhs = 0
  end.

(** A call of [init] with its three inputs, at most one output and a
    readable path [k]. *)
Definition init_args (nlhs : nat) (prhs : list mxArray) (k : string) : Prop :=
  length prhs = 3 ∧ nlhs ≤ 1 ∧
  ∃ a, prhs !! 1 = Some a ∧ mxGetString a = Some k.

(** The primary values in a struct of [grab]: the field [range], or
    [reflect] when the device measures reflectivity only. *)
Definition grab_primary (g : grab_struct) : list Q :=
  match grab_range g with
  | Some values => values
  | None => default [] (grab_reflect g)
  end.

(** The addresses of the live sessions, and of those of them that are
    initialised. *)
Definition sessions (st : mex_state) : list loc := (map_to_list (heap st)).*1.

Definition initialized_sessions (st : mex_state) : list loc :=
  (filter (λ lo, IsInitialized (sick_members lo.2) = true)
     (map_to_list (heap st))).*1.

(** The calls that put bytes on the serial line. *)
Definition talks (e : event) : bool :=
  match e with
  | EvInitialize _ _ | EvUninitialize _ | EvSetSickVariant _ _ _
  | EvGetSickScan _ => true
  | _ => false
  end.

End Invariants.

(** ** Runs against the simulated device *)

Definition sim_init (path : string) (baud : Q) : nat * list mxArray :=
  (1, [mxStr "init"; mxStr path; mxNum baud]).

(** The state after some calls, from a world in which nothing was sent. *)
Definition sim_after (calls : list (nat * list mxArray))
  : mex_state (drv := sim_driver) :=
  default (initial_state (drv := sim_driver) 0)
    (run (drv := sim_driver) calls (initial_state (drv := sim_driver) 0)).

Definition sim_calls_one : list (nat * list mxArray) :=
  [sim_init "/dev/ttyUSB0" 38400].

Definition sim_calls_fast : list (nat * list mxArray) :=
  [sim_init "/dev/ttyUSB1" 38400].

Definition sim_calls_three : list (nat * list mxArray) :=
  [sim_init "/dev/ttyUSB0" 38400; sim_init "/dev/ttyUSB1" 9600;
   sim_init "/dev/ttyUSB2" 500000].

Definition sim_calls_four : list (nat * list mxArray) :=
  sim_calls_three ++ [sim_init "/dev/ttyUSB3" 19200].

(** What a piece handed back, when it ran to its end. *)
Definition done_value {drv : SickDriver} {A} (r : mex_result A) : option A :=
  match r with
  | Done a _ => Some a
  | _ => None
  end.

(** A [grab] on the only session of the simulated registry. *)
Definition sim_grab : mex_result (drv := sim_driver) grab_struct :=
  grabSickVals (drv := sim_driver) 1 [mxStr "grab"] (sim_after sim_calls_one).

Definition sim_grab_struct : grab_struct :=
  default (mkGrab 0 0 None None []) (done_value sim_grab).

(** The examples run on the simulated device. *)
Definition sim_simple_run : Z * list app_event * nat :=
  lms_simple_app_main (drv := sim_driver) ["lms_simple_app"; "/dev/ttyUSB0"] 0.

Definition sim_variant_run : Z * list app_event * nat :=
  lms_set_variant_main (drv := sim_driver)
    ["lms_set_variant"; "/dev/ttyUSB0"; "9600"] 0.

(** ** What the further properties are stated with *)

Section Notions.
Context `{drv : SickDriver}.

(** The errors raised after the registry or a session was touched: the
    others are raised by the tests on the arguments and on the registry. *)
Definition late_error (e : mex_error) : bool :=
  match e with
  | ErrInvalidBaud | ErrIO | ErrOccurred | ErrConfig => true
  | _ => false
  end.

(** How a call whose path would be argument number [n] comes to the session
    of [k]: it leaves the path out while one session is registered, or it
    names [k]. *)
Definition resolves (n : nat) (prhs : list mxArray) (k : string)
    (st : mex_state) : Prop :=
  (length prhs = n ∧ size (sick_lms_map st) = 1) ∨
  (length prhs = S n ∧ ∃ a, prhs !! n = Some a ∧ mxGetString a = Some k).

(** The message [initSick] and the scan of a [grab] leave with when the
    driver threw [e]. *)
Definition init_error (e : sick_exception) : mex_error :=
  match e with
  | SickIOException => ErrIO
  | _ => ErrOccurred
  end.

(** The scan of a [grab], lines 543-548: both arrays of values from an LMS
    Fast, the primary one from any other unit. *)
Definition grab_scan (members : sick_private) (w : sick_world)
  : outcome (list N * list N) * sick_private * sick_world :=
  if IsSickLMSFast members then GetSickScan2 members w
  else
    let '(r, members', w') := GetSickScan members w in
    (match r with
     | Returns pri_values => Returns (pri_values, [])
     | Throws e => Throws e
     end, members', w').

(** The struct of a [grab], lines 563-636, from what the session answered. *)
Definition grab_result (lms_fast : bool)
    (measuring_mode : sick_lms_measuring_mode_t) (scan_res scan_fov : Q)
    (pri_values sec_values : list N) : grab_struct :=
  let mx_pri_array := map double_of_uint pri_values in
  let mx_sec_array := map double_of_uint sec_values in
  let mx_ang_array := bearings scan_fov scan_res (length pri_values) in
  if lms_fast then
    mkGrab scan_res scan_fov (Some mx_pri_array) (Some mx_sec_array) mx_ang_array
  else if decide (measuring_mode = SICK_MS_MODE_REFLECTIVITY) then
    mkGrab scan_res scan_fov None (Some mx_pri_array) mx_ang_array
  else
    mkGrab scan_res scan_fov (Some mx_pri_array) None mx_ang_array.

(** The calls into the driver among the events of an example, in order. *)
Definition driver_calls (evs : list app_event) : list app_event :=
  List.filter is_driver_call evs.

(** The baud rate an example asks for: lines 27 and 45-51 of lms_simple_app,
    31 and 46-52 of lms_set_variant. *)
Definition desired_baud (argv : list string) : sick_lms_baud_t :=
  if length argv =? 3 then StringToSickBaud (nth 2 argv EmptyString)
  else SICK_BAUD_38400.

(** Total correctness of a piece of the bridge: from a state in [P] it ends
    in [Q] or leaves through [mexErrMsgTxt] in [E], and nothing undefined
    happens on the way. *)
Definition total {A} (P : mex_state → Prop) (m : M A)
    (Q : A → mex_state → Prop) (E : mex_error → mex_state → Prop) : Prop :=
  ∀ st, P st →
    match m st with
    | Done a st' => Q a st'
    | MexErr e st' => E e st'
    | Crash _ => False
    end.

(** The calls that keep clear of the two places where a handler follows
    [sick_lms_map[sick_dev_path]] with the path still empty: a [grab] is
    asked for at most one output, and a [variant] comes with its two
    values. *)
Definition sound_call (nlhs : nat) (prhs : list mxArray) : Prop :=
  match prhs with
  | [] => True
  | a :: _ =>
      match mxGetString a with
      | Some w =>
          (strcasecmp_eq w "grab" = true → nlhs ≤ 1) ∧
          (strcasecmp_eq w "variant" = true → 3 ≤ length prhs)
      | None => True
      end
  end.


Definition set_variant_calls (baud : sick_lms_baud_t) : list app_event :=
  AppInitialize baud ::
  AppSetSickVariant SICK_SCAN_ANGLE_100 SICK_SCAN_RESOLUTION_25 ::
  repeat AppGetSickScan 10 ++
  AppSetSickVariant SICK_SCAN_ANGLE_180 SICK_SCAN_RESOLUTION_50 ::
  repeat AppGetSickScan 10 ++ [AppUninitialize].

(** A statement that, entered with the calls [c] behind it, takes none of
    them back, stays within the plan [plan] however it ends, and has the
    calls [c'] behind it when it completes. *)
Definition runs_calls {R} (plan c c' : list app_event) (m : App R) : Prop :=
  ∀ st, driver_calls (app_log st) = c →
    c `prefix_of` driver_calls (app_log (m st).2) ∧
    driver_calls (app_log (m st).2) `prefix_of` plan ∧
    ∀ r, (m st).1 = Returns r → driver_calls (app_log (m st).2) = c'.

End Notions.

Section BridgeLemmas.
Context `{drv : SickDriver}.
Local Open Scope mex_scope.
Implicit Types (st : mex_state) (k path : string) (l : loc) (obj : SickLMS).

Lemma map_index_present st k p :
  sick_lms_map st !! k = Some p → map_index k st = Done p st.
Proof. intros H. unfold map_index. by rewrite H. Qed.

Lemma sick_get_registered {R} st k l obj (get : sick_private → R) :
  sick_lms_map st !! k = Some (Some l) → heap st !! l = Some obj →
  sick_get k get st = Done (get (sick_members obj)) st.
Proof.
  intros Hk Hl. unfold sick_get, bind, getter, bind, deref, ret.
  rewrite (map_index_present _ _ _ Hk). by rewrite Hl.
Qed.

Lemma sick_call_registered {R} st k l obj ev
    (m : method sick_private sick_world R) :
  sick_lms_map st !! k = Some (Some l) → heap st !! l = Some obj →
  sick_call k ev m st =
    Done (m (sick_members obj) (world st)).1.1 (called l obj ev m st).
Proof.
  intros Hk Hl. unfold sick_call, bind, invoke, called.
  rewrite (map_index_present _ _ _ Hk), Hl.
  by destruct (m (sick_members obj) (world st)) as [[r members] w].
Qed.

Lemma cleanup_registered st k l obj :
  sick_lms_map st !! k = Some (Some l) → heap st !! l = Some obj →
  cleanup k st = Done tt (torn_down k l obj st).
Proof.
  intros Hk Hl. unfold cleanup. unfold bind at 1.
  rewrite (map_index_present _ _ _ Hk). unfold bind at 1.
  rewrite (sick_get_registered _ _ _ _ _ Hk Hl).
  unfold torn_down, teardown_events.
  destruct (IsInitialized (sick_members obj)).
  - cbv beta iota. unfold bind at 1. unfold bind at 1.
    rewrite (sick_call_registered _ _ _ _ _ _ Hk Hl). unfold called.
    destruct (Uninitialize (sick_members obj) (world st)) as [[r members] w].
    destruct r; cbn; unfold sick_delete, bind, map_index, delete_obj, map_erase;
      cbn; rewrite Hk; cbn; rewrite lookup_insert_eq; cbn;
      rewrite delete_insert_eq, <- !app_assoc; reflexivity.
  - unfold bind, ret, sick_delete, bind, map_index, delete_obj, map_erase.
    cbn. rewrite Hk, Hl. cbn. reflexivity.
Qed.

(** *** Runs of events *)

Lemma live_app a b : live (a ++ b) = foldl live_step (live a) b.
Proof. unfold live. apply foldl_app. Qed.

Lemma prefix_app_cases {A} (pre a b : list A) :
  pre `prefix_of` a ++ b →
  pre `prefix_of` a ∨ ∃ b', pre = a ++ b' ∧ b' `prefix_of` b.
Proof.
  revert pre. induction a as [|x a IH]; intros pre [r Hr]; simpl in *.
  - right. exists pre. split; [done | by exists r].
  - destruct pre as [|y pre]; [left; apply prefix_nil |].
    simpl in Hr. injection Hr as -> Hr.
    destruct (IH pre) as [Hp | (b' & -> & Hb')]; [by exists r | |].
    + left. by apply prefix_cons.
    + right. by exists b'.
Qed.

Lemma created_app a b : created (a ++ b) = created a ++ created b.
Proof. unfold created. apply omap_app. Qed.

Lemma created_prefix pre evs :
  pre `prefix_of` evs → created evs = [] → created pre = [].
Proof.
  intros [r ->]. rewrite created_app. intros H.
  by apply app_eq_nil in H as [? _].
Qed.

Lemma one_per_path_delete h l : one_per_path h → one_per_path (delete l h).
Proof.
  intros H l1 l2 path H1 H2.
  apply lookup_delete_Some in H1 as [_ H1].
  apply lookup_delete_Some in H2 as [_ H2]. eauto.
Qed.

Lemma one_per_path_no_new h evs :
  created evs = [] → one_per_path h → one_per_path (foldl live_step h evs).
Proof.
  revert h. induction evs as [|e evs IH]; intros h Hc Hh; [done |].
  simpl. destruct e; simpl in Hc; try discriminate; apply IH; try done.
  by apply one_per_path_delete.
Qed.

Lemma trace_extend logv evs :
  (∀ pre, pre `prefix_of` logv → one_per_path (live pre)) →
  created evs = [] →
  ∀ pre, pre `prefix_of` logv ++ evs → one_per_path (live pre).
Proof.
  intros Hlog Hc pre Hpre.
  destruct (prefix_app_cases _ _ _ Hpre) as [Hp | (b' & -> & Hb')]; [eauto |].
  rewrite live_app. apply one_per_path_no_new; [by eapply created_prefix |].
  by apply Hlog.
Qed.

Lemma trace_snoc logv e :
  (∀ pre, pre `prefix_of` logv → one_per_path (live pre)) →
  one_per_path (live (logv ++ [e])) →
  ∀ pre, pre `prefix_of` logv ++ [e] → one_per_path (live pre).
Proof.
  intros Hlog He pre Hpre.
  destruct (prefix_app_cases _ _ _ Hpre) as [Hp | (b' & -> & Hb')]; [eauto |].
  destruct Hb' as [r Hr]. destruct b' as [|x b'].
  - rewrite app_nil_r. by apply Hlog.
  - injection Hr as <- Hr. symmetry in Hr.
    apply app_eq_nil in Hr as [-> _]. done.
Qed.

Lemma live_no_change logv evs :
  created evs = [] → deleted evs = [] → live (logv ++ evs) = live logv.
Proof.
  rewrite live_app. generalize (live logv).
  induction evs as [|e evs IH]; intros h Hc Hd; [done |].
  simpl. destruct e; simpl in Hc, Hd; try discriminate; by apply IH.
Qed.

Lemma teardown_events_created l obj w : created (teardown_events l obj w) = [].
Proof.
  unfold teardown_events.
  destruct (IsInitialized _); [| done].
  by destruct (Uninitialize _ _).1.1.
Qed.

Lemma teardown_events_deleted l obj w : deleted (teardown_events l obj w) = [l].
Proof.
  unfold teardown_events.
  destruct (IsInitialized _); [| done].
  by destruct (Uninitialize _ _).1.1.
Qed.

Lemma teardown_events_uninitialized l obj w :
  uninitialized (teardown_events l obj w) =
    if IsInitialized (sick_members obj) then [l] else [].
Proof.
  unfold teardown_events.
  destruct (IsInitialized _); [| done].
  by destruct (Uninitialize _ _).1.1.
Qed.

Lemma teardown_events_initialized_with l obj w :
  initialized_with (teardown_events l obj w) = [].
Proof.
  unfold teardown_events.
  destruct (IsInitialized _); [| done].
  by destruct (Uninitialize _ _).1.1.
Qed.

Lemma live_teardown logv l obj w :
  live (logv ++ teardown_events l obj w) = delete l (live logv).
Proof.
  rewrite live_app. unfold teardown_events.
  destruct (IsInitialized _); [| done].
  by destruct (Uninitialize _ _).1.1.
Qed.

Lemma not_initialized_with logv b :
  b ∉ initialized_with logv ↔ ∀ l, EvInitialize l b ∉ logv.
Proof.
  unfold initialized_with. split.
  - intros H l Hin. apply H. apply list_elem_of_omap.
    by exists (EvInitialize l b).
  - intros H Hin. apply list_elem_of_omap in Hin as (e & He & Hb).
    destruct e; try discriminate. injection Hb as ->. by eapply H.
Qed.

Lemma initialized_with_app a b :
  initialized_with (a ++ b) = initialized_with a ++ initialized_with b.
Proof. unfold initialized_with. apply omap_app. Qed.

(** *** The invariant along the steps of the bridge *)

Lemma one_per_path_heap st :
  (∀ l obj, heap st !! l = Some obj →
     sick_lms_map st !! GetSickDevicePath obj = Some (Some l)) →
  one_per_path (GetSickDevicePath <$> heap st).
Proof.
  intros Hown l1 l2 path H1 H2.
  apply lookup_fmap_Some in H1 as (o1 & <- & H1).
  apply lookup_fmap_Some in H2 as (o2 & Hp & H2).
  apply Hown in H1. apply Hown in H2. rewrite Hp in H2. congruence.
Qed.

Lemma registry_ok_initial w : registry_ok (initial_state w).
Proof.
  split; simpl.
  - intros k p H. by rewrite lookup_empty in H.
  - intros l obj H. by rewrite lookup_empty in H.
  - rewrite map_size_empty. unfold MAX_NUM_LMS_DEVICES. lia.
  - by rewrite fmap_empty.
  - intros pre Hp. apply prefix_nil_inv in Hp as ->.
    intros l1 l2 path H. unfold live in H. simpl in H.
    by rewrite lookup_empty in H.
  - intros l H. by apply elem_of_nil in H.
Qed.

Lemma registry_ok_logged st e :
  registry_ok st → quiet e = true → registry_ok (logged e st).
Proof.
  intros [He Ho Hb Hl Ht Hs] Hq. split; simpl; try done.
  - rewrite live_no_change; [done | |]; by destruct e.
  - apply trace_extend; [done |]. by destruct e.
  - intros l Hin. apply elem_of_app in Hin as [Hin | Hin]; [by eapply Hs |].
    apply list_elem_of_singleton in Hin as <-. done.
Qed.

Lemma registry_ok_called {R} st k l obj ev
    (m : method sick_private sick_world R) :
  registry_ok st →
  sick_lms_map st !! k = Some (Some l) → heap st !! l = Some obj →
  quiet (ev l) = true →
  registry_ok (called l obj ev m st).
Proof.
  intros [He Ho Hb Hl Ht Hs] Hk Hobj Hq. split; simpl; try done.
  - intros k' p Hk'. destruct (He _ _ Hk') as (l' & obj' & -> & Hl' & Hp).
    destruct (decide (l' = l)) as [-> | Hne].
    + exists l. eexists. rewrite lookup_insert_eq. split; [done |].
      split; [done |]. simpl. congruence.
    + exists l', obj'. by rewrite lookup_insert_ne.
  - intros l' obj' Hl'. apply lookup_insert_Some in Hl' as [[<- <-] | [Hne Hl']].
    + simpl. by apply Ho.
    + by apply Ho.
  - rewrite live_no_change; [| by destruct (ev l) | by destruct (ev l)].
    rewrite fmap_insert. simpl. rewrite insert_id; [done |].
    by rewrite lookup_fmap, Hobj.
  - apply trace_extend; [done |]. by destruct (ev l).
  - intros l' Hin. apply elem_of_app in Hin as [Hin | Hin]; [by eapply Hs |].
    apply list_elem_of_singleton in Hin. rewrite <- Hin in Hq. done.
Qed.

Lemma registry_ok_torn_down st k l obj :
  registry_ok st →
  sick_lms_map st !! k = Some (Some l) → heap st !! l = Some obj →
  registry_ok (torn_down k l obj st).
Proof.
  intros [He Ho Hb Hl Ht Hs] Hk Hobj.
  assert (GetSickDevicePath obj = k) as Hpath.
  { apply Ho in Hobj. destruct (He _ _ Hk) as (l' & obj' & [= <-] & Hl' & Hp).
    destruct (He _ _ Hobj) as (l'' & obj'' & [= <-] & Hl'' & Hp'). congruence. }
  split; simpl.
  - intros k' p Hk'. apply lookup_delete_Some in Hk' as [Hne Hk'].
    destruct (He _ _ Hk') as (l' & obj' & -> & Hl' & Hp).
    exists l', obj'. split; [done |]. split; [| done].
    rewrite lookup_delete_ne; [done |]. intros <-.
    rewrite Hobj in Hl'. congruence.
  - intros l' obj' Hl'. apply lookup_delete_Some in Hl' as [Hne Hl'].
    rewrite lookup_delete_ne; [by apply Ho |].
    intros Heq. apply Ho in Hl'. rewrite <- Heq, Hk in Hl'. congruence.
  - rewrite map_size_delete, Hk. lia.
  - rewrite live_teardown, Hl. by rewrite fmap_delete.
  - apply trace_extend; [done |]. apply teardown_events_created.
  - apply not_initialized_with. rewrite initialized_with_app.
    rewrite teardown_events_initialized_with, app_nil_r.
    by apply not_initialized_with.
Qed.

Lemma registry_ok_installed st k :
  registry_ok st → sick_lms_map st !! k = None →
  size (sick_lms_map st) < MAX_NUM_LMS_DEVICES →
  registry_ok (installed k st).
Proof.
  intros [He Ho Hb Hl Ht Hs] Hk Hsz.
  assert (heap st !! fresh (dom (heap st)) = None) as Hfresh.
  { apply not_elem_of_dom. apply is_fresh. }
  assert (live (log st ++ [EvNew (fresh (dom (heap st))) k]) =
          GetSickDevicePath <$> <[fresh (dom (heap st)) := new_SickLMS k]> (heap st))
    as Hlive.
  { rewrite live_app. simpl. rewrite Hl. by rewrite fmap_insert. }
  split; simpl.
  - intros k' p Hk'. apply lookup_insert_Some in Hk' as [[<- <-] | [Hne Hk']].
    + eexists _, _. split; [done |]. rewrite lookup_insert_eq. done.
    + destruct (He _ _ Hk') as (l' & obj' & -> & Hl' & Hp).
      exists l', obj'. split; [done |]. split; [| done].
      rewrite lookup_insert_ne; [done |]. intros <-. congruence.
  - intros l' obj' Hl'. apply lookup_insert_Some in Hl' as [[<- <-] | [Hne Hl']].
    + simpl. by rewrite lookup_insert_eq.
    + rewrite lookup_insert_ne; [by apply Ho |].
      intros Heq. apply Ho in Hl'. rewrite <- Heq in Hl'. congruence.
  - rewrite map_size_insert, Hk. lia.
  - done.
  - apply trace_snoc; [done |]. rewrite Hlive.
    intros l1 l2 path H1 H2.
    apply lookup_fmap_Some in H1 as (o1 & <- & H1).
    apply lookup_fmap_Some in H2 as (o2 & Hp & H2).
    apply lookup_insert_Some in H1 as [[<- <-] | [Hn1 H1]];
      apply lookup_insert_Some in H2 as [[<- <-] | [Hn2 H2]]; try done.
    + simpl in Hp. apply Ho in H2. rewrite Hp in H2. congruence.
    + simpl in Hp. apply Ho in H1. rewrite <- Hp in H1. congruence.
    + apply Ho in H1. apply Ho in H2. rewrite Hp in H2. congruence.
  - intros l Hin. apply elem_of_app in Hin as [Hin | Hin]; [by eapply Hs |].
    by apply list_elem_of_singleton in Hin.
Qed.

(** *** Rules for [triple] *)

Lemma triple_ret {A} P (a : A) Q E :
  (∀ st, P st → Q a st) → triple P (ret a) Q E.
Proof. intros H st HP. by apply H. Qed.

Lemma triple_ret_frame {A} P (a : A) E :
  triple P (ret a) (λ x st, P st ∧ x = a) E.
Proof. by intros st HP. Qed.

Lemma triple_err {A} P e (Q : A → mex_state → Prop) E :
  (∀ st, P st → E e st) → triple P (mexErrMsgTxt e) Q E.
Proof. intros H st HP. by apply H. Qed.

Lemma triple_bind {A B} P (m : M A) (k : A → M B) R Q E :
  triple P m R E → (∀ a, triple (R a) (k a) Q E) → triple P (bind m k) Q E.
Proof.
  intros Hm Hk st HP. unfold bind. specialize (Hm st HP).
  destruct (m st) as [a st' | e st' | st']; [| done | done].
  by apply Hk.
Qed.

Lemma triple_weaken {A} (P P' : mex_state → Prop) (m : M A)
    (Q Q' : A → mex_state → Prop) (E E' : mex_error → mex_state → Prop) :
  triple P m Q E →
  (∀ st, P' st → P st) → (∀ a st, Q a st → Q' a st) →
  (∀ e st, E e st → E' e st) →
  triple P' m Q' E'.
Proof.
  intros H HP HQ HE st Hst. specialize (H st (HP _ Hst)).
  destruct (m st); eauto.
Qed.

Lemma triple_map_size P E :
  triple P map_size (λ n st, P st ∧ n = size (sick_lms_map st)) E.
Proof. by intros st HP. Qed.

Lemma triple_sickInMap P k E :
  triple P (sickInMap k)
    (λ b st, P st ∧ b = bool_decide (is_Some (sick_lms_map st !! k))) E.
Proof. by intros st HP. Qed.

Lemma triple_prhs_at P prhs i E :
  triple P (prhs_at prhs i) (λ a st, P st ∧ prhs !! i = Some a) E.
Proof. intros st HP. unfold prhs_at. by destruct (prhs !! i). Qed.

Lemma triple_sick_get {R} P k (get : sick_private → R) E :
  triple P (sick_get k get)
    (λ r st, P st ∧ ∃ l obj,
       sick_lms_map st !! k = Some (Some l) ∧ heap st !! l = Some obj ∧
       r = get (sick_members obj)) E.
Proof.
  intros st HP. unfold sick_get, bind, map_index, getter, bind, deref, ret.
  destruct (sick_lms_map st !! k) as [[l |] |] eqn:Hk; simpl; try done.
  destruct (heap st !! l) as [obj |] eqn:Hl; [| done].
  split; [done |]. by exists l, obj.
Qed.

Lemma triple_map_begin P E :
  triple P map_begin (λ b st, P st ∧ sick_lms_map st !! b.1 = Some b.2) E.
Proof.
  intros st HP. unfold map_begin.
  destruct (least _) as [k |]; [| done].
  by destruct (sick_lms_map st !! k) eqn:Hk.
Qed.

Lemma triple_deref P p E :
  triple P (deref p)
    (λ obj st, P st ∧ ∃ l, p = Some l ∧ heap st !! l = Some obj) E.
Proof.
  intros st HP. unfold deref. destruct p as [l |]; [| done].
  destruct (heap st !! l) eqn:Hl; [| done]. split; [done |]. by exists l.
Qed.

Lemma triple_emit P e Q E :
  (∀ st, P st → Q tt (logged e st)) → triple P (emit e) Q E.
Proof. intros H st HP. by apply H. Qed.

Lemma triple_sick_call {R} P k ev (m : method sick_private sick_world R) Q E :
  (∀ st l obj, P st →
     sick_lms_map st !! k = Some (Some l) → heap st !! l = Some obj →
     Q (m (sick_members obj) (world st)).1.1 (called l obj ev m st)) →
  triple P (sick_call k ev m) Q E.
Proof.
  intros H st HP.
  destruct (sick_lms_map st !! k) as [[l |] |] eqn:Hk.
  - destruct (heap st !! l) as [obj |] eqn:Hl.
    + rewrite (sick_call_registered _ _ _ _ _ _ Hk Hl). by apply H.
    + unfold sick_call, bind, map_index, invoke. by rewrite Hk, Hl.
  - unfold sick_call, bind, map_index, invoke. by rewrite Hk.
  - unfold sick_call, bind, map_index, invoke. by rewrite Hk.
Qed.

Lemma triple_cleanup P k Q E :
  (∀ st, P st → ∃ l obj,
     sick_lms_map st !! k = Some (Some l) ∧ heap st !! l = Some obj ∧
     Q tt (torn_down k l obj st)) →
  triple P (cleanup k) Q E.
Proof.
  intros H st HP. destruct (H st HP) as (l & obj & Hk & Hl & HQ).
  by rewrite (cleanup_registered _ _ _ _ Hk Hl).
Qed.

Lemma triple_sick_new P k Q E :
  (∀ st, P st → Q tt (installed k st)) → triple P (sick_new k) Q E.
Proof.
  intros H st HP. change (sick_new k st) with (Done tt (installed k st)).
  by apply H.
Qed.

(** One step of a proof of a [triple] along the shape of the code. *)
Ltac tstep :=
  lazymatch goal with
  | |- triple _ (bind (prhs_at _ _) _) _ _ =>
      eapply triple_bind; [apply triple_prhs_at | intros ?; cbv beta]
  | |- triple _ (bind map_size _) _ _ =>
      eapply triple_bind; [apply triple_map_size | intros ?; cbv beta]
  | |- triple _ (bind (sickInMap _) _) _ _ =>
      eapply triple_bind; [apply triple_sickInMap | intros ?; cbv beta]
  | |- triple _ (bind (sick_get _ _) _) _ _ =>
      eapply triple_bind; [apply triple_sick_get | intros ?; cbv beta]
  | |- triple _ (bind map_begin _) _ _ =>
      eapply triple_bind; [apply triple_map_begin | intros ?; cbv beta]
  | |- triple _ (bind (deref _) _) _ _ =>
      eapply triple_bind; [apply triple_deref | intros ?; cbv beta]
  | |- triple _ (bind (ret _) _) _ _ =>
      eapply triple_bind; [apply triple_ret_frame | intros ?; cbv beta]
  | |- triple _ (mexErrMsgTxt _) _ _ => apply triple_err
  | |- triple _ (ret _) _ _ => apply triple_ret
  | |- triple _ (bind (if ?b then _ else _) _) _ _ => destruct b eqn:?
  | |- triple _ (if ?b then _ else _) _ _ => destruct b eqn:?
  | |- triple _ (match ?x with _ => _ end) _ _ => destruct x eqn:?
  end.

Ltac unpack :=
  repeat match goal with
         | H : _ ∧ _ |- _ => destruct H
         | H : ∃ _, _ |- _ => destruct H
         end.

Ltac leaf := intros; unpack; unfold registered; eauto 8.

Lemma device_path_arg_frame P E n prhs :
  (∀ e st, P st → E e st) →
  triple P (device_path_arg n prhs) (λ _, P) E.
Proof.
  intros HE. unfold device_path_arg. cbv zeta.
  eapply triple_bind with (R := λ _, P).
  - repeat tstep; leaf.
  - intros path. repeat tstep; leaf.
Qed.

Lemma registered_entry st k :
  registry_ok st → is_Some (sick_lms_map st !! k) → registered k st.
Proof.
  intros Hok [p Hp]. destruct (reg_entry _ Hok _ _ Hp) as (l & obj & -> & Hl & _).
  by exists l, obj.
Qed.

Lemma torn_down_ok st k :
  registry_ok st → registered k st →
  ∃ l obj, sick_lms_map st !! k = Some (Some l) ∧ heap st !! l = Some obj ∧
    registry_ok (torn_down k l obj st).
Proof.
  intros Hok (l & obj & Hk & Hl). exists l, obj.
  split; [done |]. split; [done |]. by apply registry_ok_torn_down.
Qed.

Lemma cleanup_ok k :
  triple (λ st, registry_ok st ∧ registered k st) (cleanup k)
    (λ _, registry_ok) (λ _, registry_ok).
Proof. apply triple_cleanup. intros st [Hok Hreg]. by apply torn_down_ok. Qed.

Lemma registered_called {R} st k l obj ev
    (m : method sick_private sick_world R) :
  sick_lms_map st !! k = Some (Some l) → heap st !! l = Some obj →
  registered k (called l obj ev m st).
Proof.
  intros Hk Hl. exists l. eexists. simpl. split; [done |].
  by rewrite lookup_insert_eq.
Qed.

Lemma clearSick_ok nlhs prhs :
  triple registry_ok (clearSick nlhs prhs) (λ _, registry_ok) (λ _, registry_ok).
Proof.
  unfold clearSick. cbv zeta. repeat tstep; try by leaf.
  eapply triple_bind;
    [apply device_path_arg_frame; by leaf | intros path; cbv beta].
  repeat tstep; try by leaf.
  eapply triple_weaken; [apply (cleanup_ok path) | | done | done].
  by leaf.
Qed.

Lemma printSickInfo_ok nlhs prhs :
  triple registry_ok (printSickInfo nlhs prhs)
    (λ _, registry_ok) (λ _, registry_ok).
Proof.
  unfold printSickInfo. cbv zeta. repeat tstep; try by leaf.
  eapply triple_bind;
    [apply device_path_arg_frame; by leaf | intros path; cbv beta].
  repeat tstep; try by leaf.
  eapply triple_bind with (R := λ _, registry_ok).
  { apply triple_emit. intros st H. unpack. by apply registry_ok_logged. }
  intros ?; cbv beta. repeat tstep; try by leaf.
  apply triple_emit. intros st H. unpack. by apply registry_ok_logged.
Qed.

Lemma emit_ok P e E :
  (∀ st, P st → registry_ok st) → quiet e = true →
  triple P (emit e) (λ _, registry_ok) E.
Proof. intros HP Hq. apply triple_emit. intros st H. apply registry_ok_logged; auto. Qed.

Lemma sick_call_ok {R} P k ev (m : method sick_private sick_world R) E :
  (∀ st, P st → registry_ok st) → (∀ l, quiet (ev l) = true) →
  triple P (sick_call k ev m) (λ _ st, registry_ok st ∧ registered k st) E.
Proof.
  intros HP Hq. apply triple_sick_call. intros st l obj H Hk Hl. split.
  - eapply registry_ok_called; eauto.
  - by apply registered_called.
Qed.

Lemma cleanup_err_ok {A} P k e :
  (∀ st, P st → registry_ok st ∧ registered k st) →
  triple P (bind (cleanup k) (λ _, mexErrMsgTxt e))
    (λ _ : A, registry_ok) (λ _, registry_ok).
Proof.
  intros HP. eapply triple_bind.
  - eapply triple_weaken; [apply (cleanup_ok k) | exact HP | | done].
    intros a st H. exact H.
  - intros ?. by apply triple_err.
Qed.

Lemma setSickVariant_ok nlhs prhs :
  triple registry_ok (setSickVariant nlhs prhs)
    (λ _, registry_ok) (λ _, registry_ok).
Proof.
  unfold setSickVariant. cbv zeta. repeat tstep; try by leaf.
  eapply triple_bind;
    [apply device_path_arg_frame; by leaf | intros path; cbv beta].
  repeat tstep; try by leaf.
  eapply triple_bind; [apply emit_ok; [by leaf | done] | intros ?; cbv beta].
  eapply triple_bind; [apply sick_call_ok; [by leaf | done] | intros r].
  destruct r as [[] | e].
  - apply emit_ok; [by leaf | done].
  - destruct e; try (apply cleanup_err_ok; by leaf).
    apply triple_err. by leaf.
Qed.

Lemma grabSickVals_ok nlhs prhs :
  triple registry_ok (grabSickVals nlhs prhs)
    (λ _, registry_ok) (λ _, registry_ok).
Proof.
  unfold grabSickVals. cbv zeta. repeat tstep; try by leaf.
  all: eapply triple_bind;
    [apply device_path_arg_frame; by leaf | intros path; cbv beta].
  all: repeat tstep; try by leaf.
  all: eapply triple_bind with
         (R := λ _ st, registry_ok st ∧ registered path st);
    [ first
        [ apply sick_call_ok; [by leaf | done]
        | eapply triple_bind; [apply sick_call_ok; [by leaf | done] |];
          intros r; apply triple_ret; by leaf ]
    | intros r; cbv beta ].
  all: destruct r as [[pri sec] | e]; [| apply cleanup_err_ok; by leaf].
  all: repeat tstep; by leaf.
Qed.

Lemma absent_facts st k sz :
  registry_ok st → sz = size (sick_lms_map st) →
  (sz =? MAX_NUM_LMS_DEVICES) = false →
  false = bool_decide (is_Some (sick_lms_map st !! k)) →
  sick_lms_map st !! k = None ∧
  size (sick_lms_map st) < MAX_NUM_LMS_DEVICES.
Proof.
  intros Hok -> Hsz Hk. apply Nat.eqb_neq in Hsz.
  pose proof (reg_bound _ Hok). split; [| lia].
  symmetry in Hk. apply bool_decide_eq_false in Hk.
  by apply eq_None_not_Some.
Qed.

Lemma present_facts st k sz :
  registry_ok st → sz = size (sick_lms_map st) →
  (sz =? MAX_NUM_LMS_DEVICES) = false → registered k st →
  ∃ l obj, sick_lms_map st !! k = Some (Some l) ∧ heap st !! l = Some obj ∧
    registry_ok (torn_down k l obj st) ∧
    sick_lms_map (torn_down k l obj st) !! k = None ∧
    size (sick_lms_map (torn_down k l obj st)) < MAX_NUM_LMS_DEVICES.
Proof.
  intros Hok -> Hsz (l & obj & Hk & Hl). exists l, obj.
  apply Nat.eqb_neq in Hsz. pose proof (reg_bound _ Hok).
  split; [done |]. split; [done |].
  split; [by apply registry_ok_torn_down |]. simpl.
  split; [by rewrite lookup_delete_eq |].
  rewrite map_size_delete, Hk. lia.
Qed.

(** The part of [initSick] from line 217 on, entered without an entry for
    the path and below the ceiling. *)
Ltac init_tail :=
  repeat tstep; try (by leaf);
  (eapply triple_bind with (R := λ _, registry_ok);
   [ apply triple_sick_new; intros st H; unpack;
     apply registry_ok_installed;
     first [ done | by eapply absent_facts | by eapply proj2, absent_facts ]
   | intros ?; cbv beta ]);
  (eapply triple_bind; [apply emit_ok; [by leaf | done] | intros ?; cbv beta]);
  (eapply triple_bind;
   [ apply sick_call_ok; [by leaf |]; intros l; simpl;
     (by destruct (IntToSickBaud _))
   | intros [[] | []]; cbv beta ]);
  [ eapply triple_bind;
    [ apply emit_ok; [by leaf |]; simpl; (by destruct (IntToSickBaud _))
    | intros ?; cbv beta; repeat tstep; (by leaf) ]
  | apply cleanup_err_ok; by leaf .. ].

Lemma initSick_ok nlhs prhs :
  triple registry_ok (initSick nlhs prhs) (λ _, registry_ok) (λ _, registry_ok).
Proof.
  unfold initSick. cbv zeta. repeat tstep; try by leaf.
  - rename s into k. rename a0 into sz.
    eapply triple_bind with
      (R := λ _ st, registry_ok st ∧ sick_lms_map st !! k = None ∧
                    size (sick_lms_map st) < MAX_NUM_LMS_DEVICES).
    + eapply triple_bind; [apply triple_sick_get | intros ini; cbv beta].
      eapply triple_bind with
        (R := λ _ st, (registry_ok st ∧ sz = size (sick_lms_map st)) ∧
                      registered k st).
      * destruct ini.
        -- apply triple_emit. intros st H. unpack.
           split; [split |]; [by apply registry_ok_logged | done |].
           by eexists _, _.
        -- apply triple_ret. intros st H. unpack.
           split; [done |]. by eexists _, _.
      * intros ?. apply triple_cleanup. intros st [[Hok Hsz] Hreg].
        by eapply present_facts.
    + intros ?. cbv beta. init_tail.
  - init_tail.
Qed.

Lemma mexFunction_ok nlhs prhs :
  triple registry_ok (mexFunction nlhs prhs)
    (λ _, registry_ok) (λ _, registry_ok).
Proof.
  unfold mexFunction. cbv zeta. repeat tstep; try by leaf.
  - eapply triple_bind.
    + eapply triple_weaken; [apply initSick_ok | by leaf | | done].
      intros ? ? H; exact H.
    + intros ?. by apply triple_ret.
  - eapply triple_bind.
    + eapply triple_weaken; [apply clearSick_ok | by leaf | | done].
      intros ? ? H; exact H.
    + intros ?. by apply triple_ret.
  - eapply triple_bind.
    + eapply triple_weaken; [apply setSickVariant_ok | by leaf | | done].
      intros ? ? H; exact H.
    + intros ?. by apply triple_ret.
  - eapply triple_bind.
    + eapply triple_weaken; [apply grabSickVals_ok | by leaf | | done].
      intros ? ? H; exact H.
    + intros ?. by apply triple_ret.
  - eapply triple_bind.
    + eapply triple_weaken; [apply printSickInfo_ok | by leaf | | done].
      intros ? ? H; exact H.
    + intros ?. by apply triple_ret.
Qed.

Lemma run_ok calls st st' :
  registry_ok st → run calls st = Some st' → registry_ok st'.
Proof.
  revert st. induction calls as [| [nlhs prhs] calls IH]; intros st Hok Hrun.
  - by injection Hrun as <-.
  - simpl in Hrun. pose proof (mexFunction_ok nlhs prhs st Hok) as H.
    destruct (mexFunction nlhs prhs st); [by eapply IH .. | done].
Qed.

Lemma reachable_ok st : reachable st → registry_ok st.
Proof.
  intros (w & calls & Hrun).
  eapply run_ok; [apply registry_ok_initial | exact Hrun].
Qed.

(** *** Running the code on a state that is known *)

Lemma bind_done {A B} (m : M A) (k : A → M B) st a st' :
  m st = Done a st' → bind m k st = k a st'.
Proof. intros H. unfold bind. by rewrite H. Qed.

Lemma bind_err {A B} (m : M A) (k : A → M B) st e st' :
  m st = MexErr e st' → bind m k st = MexErr e st'.
Proof. intros H. unfold bind. by rewrite H. Qed.

Lemma bind_crash {A B} (m : M A) (k : A → M B) st st' :
  m st = Crash st' → bind m k st = Crash st'.
Proof. intros H. unfold bind. by rewrite H. Qed.

Lemma bind_map_size {B} (k : nat → M B) st :
  bind map_size k st = k (size (sick_lms_map st)) st.
Proof. reflexivity. Qed.

Lemma bind_ret {A B} (a : A) (k : A → M B) st : bind (ret a) k st = k a st.
Proof. reflexivity. Qed.

Lemma bind_sickInMap {B} path (k : bool → M B) st :
  bind (sickInMap path) k st =
    k (bool_decide (is_Some (sick_lms_map st !! path))) st.
Proof. reflexivity. Qed.

Lemma bind_prhs_at {B} prhs i a (k : mxArray → M B) st :
  prhs !! i = Some a → bind (prhs_at prhs i) k st = k a st.
Proof. intros H. unfold bind, prhs_at. by rewrite H. Qed.

Lemma bind_emit {B} e (k : unit → M B) st :
  bind (emit e) k st = k tt (logged e st).
Proof. reflexivity. Qed.

Lemma bind_assoc {A B C} (m : M A) (f : A → M B) (g : B → M C) st :
  bind (bind m f) g st = bind m (λ a, bind (f a) g) st.
Proof. unfold bind. by destruct (m st). Qed.

Lemma least_elem ks k : least ks = Some k → k ∈ ks.
Proof.
  revert k. induction ks as [| x ks IH]; intros k H; [done |].
  simpl in H. destruct (least ks) as [k' |].
  - injection H as <-. destruct (String.ltb k' x).
    + right. by apply IH.
    + left.
  - injection H as <-. left.
Qed.

Lemma least_is_Some ks : ks ≠ [] → is_Some (least ks).
Proof. destruct ks as [| x ks]; [done |]. simpl. destruct (least ks); eauto. Qed.

Lemma map_begin_nonempty st :
  sick_lms_map st ≠ ∅ →
  ∃ k p, sick_lms_map st !! k = Some p ∧ map_begin st = Done (k, p) st.
Proof.
  intros Hne. unfold map_begin.
  destruct (least_is_Some (map_to_list (sick_lms_map st)).*1) as [k Hk].
  { intros H. apply fmap_nil_inv in H. by apply map_to_list_empty_iff in H. }
  rewrite Hk. apply least_elem in Hk.
  apply list_elem_of_fmap in Hk as ([k' p] & -> & Hin).
  apply elem_of_map_to_list in Hin. simpl. rewrite Hin. eauto.
Qed.

Lemma map_size_1_key {A} (m : gmap string A) k k' v v' :
  size m = 1 → m !! k = Some v → m !! k' = Some v' → k = k'.
Proof.
  intros Hsz Hk Hk'. destruct (decide (k = k')) as [| Hne]; [done |].
  assert (size (delete k m) = 0) as H0 by (rewrite map_size_delete, Hk; lia).
  apply map_size_empty_inv in H0.
  assert (delete k m !! k' = Some v') as H by (by rewrite lookup_delete_ne).
  rewrite H0 in H. by rewrite lookup_empty in H.
Qed.

Lemma map_begin_only st k p :
  size (sick_lms_map st) = 1 → sick_lms_map st !! k = Some p →
  map_begin st = Done (k, p) st.
Proof.
  intros Hsz Hk. destruct (map_begin_nonempty st) as (k' & p' & Hk' & ->).
  { intros H. rewrite H in Hk. by rewrite lookup_empty in Hk. }
  assert (k' = k) as -> by (by eapply map_size_1_key).
  congruence.
Qed.

Lemma device_path_arg_default st n prhs k l obj :
  length prhs = n → size (sick_lms_map st) = 1 →
  sick_lms_map st !! k = Some (Some l) → heap st !! l = Some obj →
  GetSickDevicePath obj = k →
  device_path_arg n prhs st = Done k st.
Proof.
  intros Hn Hsz Hk Hl Hp. unfold device_path_arg. cbv zeta.
  rewrite Hn, Nat.eqb_refl.
  assert ((n =? S n) = false) as -> by (apply Nat.eqb_neq; lia).
  unfold bind at 1. unfold bind at 1. unfold map_size. rewrite Hsz. simpl.
  unfold bind at 1. rewrite (map_begin_only _ _ _ Hsz Hk).
  unfold bind, deref, ret. simpl. by rewrite Hl, Hp.
Qed.

Lemma device_path_arg_multiple st n prhs :
  length prhs = n → size (sick_lms_map st) ≠ 1 →
  device_path_arg n prhs st = MexErr ErrMultipleDevices st.
Proof.
  intros Hn Hsz. unfold device_path_arg. cbv zeta. rewrite Hn, Nat.eqb_refl.
  unfold bind at 1. unfold bind at 1. unfold map_size.
  apply Nat.eqb_neq in Hsz. by rewrite Hsz.
Qed.

Lemma device_path_arg_explicit st n prhs a k :
  length prhs = S n → prhs !! n = Some a → mxGetString a = Some k →
  device_path_arg n prhs st =
    if bool_decide (is_Some (sick_lms_map st !! k)) then Done k st
    else MexErr ErrNoDeviceAtPath st.
Proof.
  intros Hn Ha Hs. unfold device_path_arg. cbv zeta.
  rewrite Hn, Nat.eqb_refl.
  assert ((S n =? n) = false) as -> by (apply Nat.eqb_neq; lia).
  unfold bind, ret, prhs_at. rewrite Ha. unfold ret. rewrite Hs.
  unfold sickInMap. by destruct (bool_decide _).
Qed.

(** *** Which errors a piece can leave with *)

Lemma triple_top {A} P (m : M A) E :
  no_err m → triple P m (λ _ _, True) E.
Proof. intros H st _. specialize (H st). by destruct (m st). Qed.

Lemma no_err_bind {A B} (m : M A) (k : A → M B) :
  no_err m → (∀ a, no_err (k a)) → no_err (bind m k).
Proof.
  intros Hm Hk st. unfold bind. specialize (Hm st).
  destruct (m st) as [a st' | |]; [apply Hk | done | done].
Qed.

Lemma no_err_ret {A} (a : A) : no_err (ret a).
Proof. by intros st. Qed.

Lemma emit_no_err e : no_err (emit e).
Proof. by intros st. Qed.

Lemma map_index_no_err k : no_err (map_index k).
Proof. intros st. unfold map_index. by destruct (_ !! _). Qed.

Lemma map_erase_no_err k : no_err (map_erase k).
Proof. by intros st. Qed.

Lemma sick_new_no_err k : no_err (sick_new k).
Proof. by intros st. Qed.

Lemma getter_no_err {R} p (get : sick_private → R) : no_err (getter p get).
Proof.
  intros st. unfold getter, bind, deref, ret.
  destruct p as [l |]; [| done]. by destruct (heap st !! l).
Qed.

Lemma invoke_no_err {R} p ev (m : method sick_private sick_world R) :
  no_err (invoke p ev m).
Proof.
  intros st. unfold invoke. destruct p as [l |]; [| done].
  destruct (heap st !! l) as [obj |]; [| done].
  by destruct (m _ _) as [[r members] w].
Qed.

Lemma delete_obj_no_err p : no_err (delete_obj p).
Proof.
  intros st. unfold delete_obj. destruct p as [l |]; [| done].
  by destruct (heap st !! l).
Qed.

Lemma sick_get_no_err {R} k (get : sick_private → R) : no_err (sick_get k get).
Proof.
  apply no_err_bind; [apply map_index_no_err | intros p; apply getter_no_err].
Qed.

Lemma sick_call_no_err {R} k ev (m : method sick_private sick_world R) :
  no_err (sick_call k ev m).
Proof.
  apply no_err_bind; [apply map_index_no_err | intros p; apply invoke_no_err].
Qed.

Lemma sick_delete_no_err k : no_err (sick_delete k).
Proof.
  apply no_err_bind; [apply map_index_no_err | intros p; apply delete_obj_no_err].
Qed.

Lemma cleanup_no_err k : no_err (cleanup k).
Proof.
  unfold cleanup. apply no_err_bind; [apply map_index_no_err |].
  intros [l |]; [| apply no_err_ret].
  apply no_err_bind; [apply sick_get_no_err |]. intros initialized.
  apply no_err_bind.
  - destruct initialized; [| apply no_err_ret].
    apply no_err_bind; [apply sick_call_no_err |].
    intros [r | e]; [apply no_err_ret | apply emit_no_err].
  - intros _. apply no_err_bind; [apply sick_delete_no_err |].
    intros _. apply map_erase_no_err.
Qed.

Ltac estep :=
  lazymatch goal with
  | |- triple _ (bind (emit _) _) _ _ =>
      eapply triple_bind;
      [apply triple_top, emit_no_err | intros ?; cbv beta]
  | |- triple _ (bind (sick_new _) _) _ _ =>
      eapply triple_bind;
      [apply triple_top, sick_new_no_err | intros ?; cbv beta]
  | |- triple _ (bind (sick_call _ _ _) _) _ _ =>
      eapply triple_bind;
      [apply triple_top, sick_call_no_err | intros ?; cbv beta]
  | |- triple _ (bind (cleanup _) _) _ _ =>
      eapply triple_bind;
      [apply triple_top, cleanup_no_err | intros ?; cbv beta]
  | |- triple _ (emit _) _ _ => apply triple_top, emit_no_err
  | |- triple _ (cleanup _) _ _ => apply triple_top, cleanup_no_err
  | |- triple _ (bind (bind _ _) _) _ _ =>
      eapply triple_bind; [| intros ?; cbv beta]
  | |- _ => tstep
  end.

Lemma initSick_capacity_error nlhs prhs :
  triple (λ st, size (sick_lms_map st) ≠ MAX_NUM_LMS_DEVICES)
    (initSick nlhs prhs) (λ _ _, True) (λ e _, e ≠ ErrMaxDevices).
Proof.
  unfold initSick. cbv zeta. repeat estep; try done.
  intros st H. unpack. subst. apply Nat.eqb_eq in Heqb1. done.
Qed.


Lemma bearings_lookup fov res n i :
  i < n →
  bearings fov res n !! i
  = Some ((180 - fov) / 2 + inject_Z (Z.of_nat i) * res)%Q.
Proof.
  intros Hi. unfold bearings.
  change (map ?f ?l) with (f <$> l).
  rewrite list_lookup_fmap, lookup_seq_lt by done. done.
Qed.

Lemma bearings_length fov res n : length (bearings fov res n) = n.
Proof. unfold bearings. by rewrite length_map, length_seq. Qed.

Lemma grab_spec nlhs prhs st0 :
  triple (λ st, st = st0) (grabSickVals nlhs prhs)
    (λ g st',
       ∃ k l obj0 pri sec members w,
         sick_lms_map st0 !! k = Some (Some l) ∧ heap st0 !! l = Some obj0 ∧
         (if IsSickLMSFast (sick_members obj0)
          then GetSickScan2 (sick_members obj0) (world st0)
               = (Returns (pri, sec), members, w)
          else GetSickScan (sick_members obj0) (world st0)
               = (Returns pri, members, w)) ∧
         st' = mkState (sick_lms_map st0)
                 (<[l := mkSickLMS (GetSickDevicePath obj0) members]> (heap st0))
                 w (log st0 ++ [EvGetSickScan l]) ∧
         grab_fov g = GetSickScanAngle members ∧
         grab_res g = GetSickScanResolution members ∧
         grab_primary g = map double_of_uint pri ∧
         grab_bearing g = bearings (grab_fov g) (grab_res g) (length pri))
    (λ _ _, True).
Proof.
  unfold grabSickVals. cbv zeta. repeat tstep; try done.
  all: eapply triple_bind;
    [apply device_path_arg_frame; done | intros path; cbv beta].
  all: repeat tstep; try done.
  all: eapply triple_bind with
    (R := λ (r : outcome (list N * list N)) st,
       ∃ l obj0 members w,
         sick_lms_map st0 !! path = Some (Some l) ∧
         heap st0 !! l = Some obj0 ∧
         st = mkState (sick_lms_map st0)
                (<[l := mkSickLMS (GetSickDevicePath obj0) members]> (heap st0))
                w (log st0 ++ [EvGetSickScan l]) ∧
         (if IsSickLMSFast (sick_members obj0)
          then GetSickScan2 (sick_members obj0) (world st0) = (r, members, w)
          else ∃ r0, GetSickScan (sick_members obj0) (world st0)
                     = (r0, members, w) ∧
                     r = match r0 with
                         | Returns p => Returns (p, [])
                         | Throws e => Throws e
                         end)).
  all: try (apply triple_sick_call; intros st l obj H Hk Hl; unpack; subst st;
            exists l, obj; unfold called;
            destruct (GetSickScan2 _ _) as [[r members] w] eqn:Hscan;
            exists members, w; simplify_eq; simpl;
            repeat split; try done;
            match goal with H : true = IsSickLMSFast _ |- _ => rewrite <- H end;
            done).
  all: try (eapply triple_bind;
            [ apply triple_sick_call with
                (Q := λ r0 st, ∃ l obj0 members w,
                   sick_lms_map st0 !! path = Some (Some l) ∧
                   heap st0 !! l = Some obj0 ∧
                   st = mkState (sick_lms_map st0)
                          (<[l := mkSickLMS (GetSickDevicePath obj0) members]>
                             (heap st0))
                          w (log st0 ++ [EvGetSickScan l]) ∧
                   IsSickLMSFast (sick_members obj0) = false ∧
                   GetSickScan (sick_members obj0) (world st0)
                   = (r0, members, w));
              intros st l obj H Hk Hl; unpack; subst st;
              exists l, obj; unfold called;
              destruct (GetSickScan _ _) as [[r members] w] eqn:Hscan;
              exists members, w; simplify_eq; simpl;
              repeat split; done
            | intros r0; apply triple_ret; intros st H; unpack;
              eexists _, _, _, _; repeat split; try done;
              match goal with H : IsSickLMSFast _ = false |- _ => rewrite H end;
              eauto ]).
  all: intros [[pri sec] | e];
    [| eapply triple_bind;
       [apply triple_top, cleanup_no_err | intros ?; by apply triple_err]].
  all: repeat tstep.
  all: intros st H; unpack; subst st; simpl in *; simplify_eq.
  all: repeat match goal with
         | H : <[?l := _]> _ !! ?l = Some _ |- _ =>
             rewrite lookup_insert_eq in H; simplify_eq
         end; simpl in *.
  all: match goal with
       | Hk : sick_lms_map _ !! ?k = Some (Some ?l),
         Hl : heap _ !! ?l = Some ?obj,
         Hs : (if IsSickLMSFast (sick_members ?obj) then _ else _) |- _ =>
           exists k, l, obj, pri;
           destruct (IsSickLMSFast (sick_members obj));
           [ eexists sec, _, _; repeat split; try done
           | destruct Hs as (r0 & Hs & Hr); destruct r0; simplify_eq;
             eexists [], _, _; repeat split; try done ]
       end.
Qed.

(** *** Leaving: [mexExit] *)

Lemma heap_empty_of_map_empty st :
  registry_ok st → sick_lms_map st = ∅ → heap st = ∅.
Proof.
  intros Hok Hm. apply map_empty. intros l.
  destruct (heap st !! l) as [obj |] eqn:Hl; [| done].
  apply (reg_owned _ Hok) in Hl. rewrite Hm in Hl.
  by rewrite lookup_empty in Hl.
Qed.

Lemma deleted_app a b : deleted (a ++ b) = deleted a ++ deleted b.
Proof. unfold deleted. apply omap_app. Qed.

Lemma uninitialized_app a b :
  uninitialized (a ++ b) = uninitialized a ++ uninitialized b.
Proof. unfold uninitialized. apply omap_app. Qed.

Lemma sessions_torn_down st k l obj :
  heap st !! l = Some obj →
  sessions st ≡ₚ l :: sessions (torn_down k l obj st).
Proof.
  intros Hl. unfold sessions. simpl.
  by rewrite <- (map_to_list_delete (heap st) l obj Hl).
Qed.

Lemma initialized_sessions_torn_down st k l obj :
  heap st !! l = Some obj →
  initialized_sessions st ≡ₚ
    (if IsInitialized (sick_members obj) then [l] else []) ++
    initialized_sessions (torn_down k l obj st).
Proof.
  intros Hl. unfold initialized_sessions. simpl.
  rewrite <- (map_to_list_delete (heap st) l obj Hl).
  rewrite filter_cons. simpl.
  destruct (IsInitialized (sick_members obj)); by case_decide.
Qed.

Lemma mexExit_spec fuel st :
  registry_ok st → size (sick_lms_map st) ≤ fuel →
  ∃ st' evs,
    mexExit fuel st = Some (Done tt st') ∧
    sick_lms_map st' = ∅ ∧ heap st' = ∅ ∧
    log st' = log st ++ evs ∧
    deleted evs ≡ₚ sessions st ∧
    uninitialized evs ≡ₚ initialized_sessions st ∧
    created evs = [].
Proof.
  revert st. induction fuel as [| fuel IH]; intros st Hok Hsz.
  - assert (sick_lms_map st = ∅) as Hm.
    { apply map_size_empty_inv. lia. }
    exists st, []. simpl. rewrite bool_decide_eq_true_2 by done.
    pose proof (heap_empty_of_map_empty _ Hok Hm) as Hh.
    unfold sessions, initialized_sessions. rewrite Hh, map_to_list_empty.
    by rewrite app_nil_r.
  - simpl. case_bool_decide as Hm.
    + exists st, [].
      pose proof (heap_empty_of_map_empty _ Hok Hm) as Hh.
      unfold sessions, initialized_sessions. rewrite Hh, map_to_list_empty.
      by rewrite app_nil_r.
    + destruct (map_begin_nonempty st Hm) as (k & p & Hk & Hbegin).
      destruct (reg_entry _ Hok _ _ Hk) as (l & obj & -> & Hl & Hp).
      rewrite (bind_done _ _ _ _ _ Hbegin). simpl.
      rewrite (cleanup_registered _ _ _ _ Hk Hl).
      destruct (IH (torn_down k l obj st)) as
        (st' & evs & Hrun & Hm' & Hh' & Hlog & Hdel & Hun & Hcr).
      { by apply registry_ok_torn_down. }
      { simpl. rewrite map_size_delete, Hk. lia. }
      exists st', (teardown_events l obj (world st) ++ evs).
      split; [done |]. split; [done |]. split; [done |].
      split; [by rewrite Hlog, app_assoc |].
      split; [| split].
      * rewrite deleted_app, teardown_events_deleted, Hdel. simpl.
        by rewrite <- sessions_torn_down.
      * rewrite uninitialized_app, teardown_events_uninitialized, Hun.
        by rewrite <- initialized_sessions_torn_down.
      * by rewrite created_app, teardown_events_created, Hcr.
Qed.

Lemma cleanup_throwing st k l obj e members w :
  sick_lms_map st !! k = Some (Some l) → heap st !! l = Some obj →
  IsInitialized (sick_members obj) = true →
  Uninitialize (sick_members obj) (world st) = (Throws e, members, w) →
  cleanup k st =
    Done tt
      (mkState (delete k (sick_lms_map st)) (delete l (heap st))
         (SickLMS_dtor members w)
         (log st ++ [EvUninitialize l; EvWarnCleanup; EvDelete l])).
Proof.
  intros Hk Hl Hinit Hthrow.
  rewrite (cleanup_registered _ _ _ _ Hk Hl).
  unfold torn_down, teardown_events. by rewrite Hinit, Hthrow.
Qed.

(** *** Initialising a path again *)

Lemma reinit_torn_down nlhs prhs k st l obj :
  registry_ok st → init_args nlhs prhs k →
  size (sick_lms_map st) ≠ MAX_NUM_LMS_DEVICES →
  sick_lms_map st !! k = Some (Some l) → heap st !! l = Some obj →
  initSick nlhs prhs st
  = initSick nlhs prhs
      (torn_down k l obj
         (if IsInitialized (sick_members obj)
          then logged (EvWarnReinit k) st else st)).
Proof.
  intros Hok (Hlen & Hle & a & Ha & Hs) Hsz Hk Hl.
  pose proof (reg_bound _ Hok) as Hb.
  unfold initSick. cbv zeta. rewrite Hlen.
  change (negb (3 =? 3)) with false. cbv iota.
  assert ((1 <? nlhs) = false) as -> by (apply Nat.ltb_ge; lia).
  cbv beta iota.
  rewrite !(bind_prhs_at _ _ _ _ _ Ha), Hs, !bind_map_size.
  assert ((size (sick_lms_map
             (torn_down k l obj
                (if IsInitialized (sick_members obj)
                 then logged (EvWarnReinit k) st else st)))
           =? MAX_NUM_LMS_DEVICES) = false) as ->.
  { apply Nat.eqb_neq. unfold MAX_NUM_LMS_DEVICES in *.
    destruct (IsInitialized (sick_members obj)); simpl;
      rewrite map_size_delete, Hk; lia. }
  apply Nat.eqb_neq in Hsz. rewrite Hsz.
  cbv beta iota. rewrite !bind_sickInMap.
  rewrite (bool_decide_eq_true_2 (is_Some (sick_lms_map st !! k)))
    by (by rewrite Hk).
  rewrite bool_decide_eq_false_2.
  2: { destruct (IsInitialized (sick_members obj)); simpl;
         rewrite lookup_delete_eq; by intros [? ?]. }
  cbv beta iota. rewrite bind_ret, !bind_assoc.
  rewrite (bind_done _ _ _ _ _ (sick_get_registered _ _ _ _ _ Hk Hl)).
  rewrite !bind_assoc.
  destruct (IsInitialized (sick_members obj)).
  - rewrite bind_emit.
    by rewrite (bind_done _ _ _ _ _
                  (cleanup_registered (logged (EvWarnReinit k) st) k l obj Hk Hl)).
  - rewrite bind_ret.
    by rewrite (bind_done _ _ _ _ _ (cleanup_registered st k l obj Hk Hl)).
Qed.

(** *** A baud rate that is none *)

Lemma initSick_sentinel_fresh nlhs prhs k a st :
  init_args nlhs prhs k →
  size (sick_lms_map st) ≠ MAX_NUM_LMS_DEVICES →
  sick_lms_map st !! k = None → prhs !! 2 = Some a →
  IntToSickBaud (cast_int (mx_double a)) = SICK_BAUD_UNKNOWN →
  initSick nlhs prhs st = MexErr ErrInvalidBaud st.
Proof.
  intros (Hlen & Hle & a1 & Ha1 & Hs) Hsz Hk Ha Hbaud.
  unfold initSick. cbv zeta. rewrite Hlen.
  change (negb (3 =? 3)) with false. cbv iota.
  assert ((1 <? nlhs) = false) as -> by (apply Nat.ltb_ge; lia).
  cbv beta iota.
  rewrite (bind_prhs_at _ _ _ _ _ Ha1), Hs, bind_map_size.
  apply Nat.eqb_neq in Hsz. rewrite Hsz. cbv beta iota.
  rewrite bind_sickInMap, bool_decide_eq_false_2
    by (rewrite Hk; by intros [? ?]).
  cbv beta iota. rewrite bind_ret, (bind_prhs_at _ _ _ _ _ Ha).
  by destruct (decide _).
Qed.

Lemma initSick_sentinel nlhs prhs k a st :
  registry_ok st → init_args nlhs prhs k →
  size (sick_lms_map st) ≠ MAX_NUM_LMS_DEVICES →
  prhs !! 2 = Some a →
  IntToSickBaud (cast_int (mx_double a)) = SICK_BAUD_UNKNOWN →
  ∃ st' evs,
    initSick nlhs prhs st = MexErr ErrInvalidBaud st' ∧
    log st' = log st ++ evs ∧
    initialized_with evs = [] ∧ created evs = [].
Proof.
  intros Hok Hargs Hsz Ha Hbaud.
  destruct (sick_lms_map st !! k) as [p |] eqn:Hk.
  - destruct (reg_entry _ Hok _ _ Hk) as (l & obj & -> & Hl & _).
    rewrite (reinit_torn_down nlhs prhs k st l obj Hok Hargs Hsz Hk Hl).
    pose proof (reg_bound _ Hok) as Hb. unfold MAX_NUM_LMS_DEVICES in *.
    destruct (IsInitialized (sick_members obj)).
    + eexists _, (EvWarnReinit k :: teardown_events l obj (world st)).
      split; [apply (initSick_sentinel_fresh _ _ k a); try done |].
      * simpl. rewrite map_size_delete, Hk. unfold MAX_NUM_LMS_DEVICES. lia.
      * simpl. by rewrite lookup_delete_eq.
      * split; [simpl; by rewrite <- app_assoc |].
        change (EvWarnReinit k :: teardown_events l obj (world st))
          with ([EvWarnReinit k] ++ teardown_events l obj (world st)).
        rewrite initialized_with_app, created_app.
        by rewrite teardown_events_initialized_with, teardown_events_created.
    + eexists _, (teardown_events l obj (world st)).
      split; [apply (initSick_sentinel_fresh _ _ k a); try done |].
      * simpl. rewrite map_size_delete, Hk. unfold MAX_NUM_LMS_DEVICES. lia.
      * simpl. by rewrite lookup_delete_eq.
      * split; [reflexivity |].
        by rewrite teardown_events_initialized_with, teardown_events_created.
  - exists st, []. split; [by apply (initSick_sentinel_fresh _ _ k a) |].
    by rewrite app_nil_r.
Qed.

(** *** Errors that leave the state alone *)

Ltac early_leaf := intros; unpack; subst; simpl in *; done.

Ltac lstep :=
  lazymatch goal with
  | |- triple _ (bind (device_path_arg _ _) _) _ _ =>
      eapply triple_bind;
      [apply device_path_arg_frame; early_leaf | intros ?; cbv beta]
  | |- triple _ (bind (mexErrMsgTxt _) _) _ _ =>
      eapply triple_bind; [apply triple_err; early_leaf | intros ?; cbv beta]
  | |- triple _ (bind (bind _ _) _) _ _ =>
      eapply triple_bind with (R := λ _ _, True); [| intros ?; cbv beta]
  | |- _ => estep
  end.

Lemma initSick_early nlhs prhs st0 :
  triple (λ st, st = st0) (initSick nlhs prhs) (λ _ _, True)
    (λ e st', late_error e = false → st' = st0).
Proof. unfold initSick. cbv zeta. repeat lstep; early_leaf. Qed.

Lemma clearSick_early nlhs prhs st0 :
  triple (λ st, st = st0) (clearSick nlhs prhs) (λ _ _, True)
    (λ e st', late_error e = false → st' = st0).
Proof. unfold clearSick. cbv zeta. repeat lstep; early_leaf. Qed.

Lemma setSickVariant_early nlhs prhs st0 :
  triple (λ st, st = st0) (setSickVariant nlhs prhs) (λ _ _, True)
    (λ e st', late_error e = false → st' = st0).
Proof. unfold setSickVariant. cbv zeta. repeat lstep; early_leaf. Qed.

Lemma grabSickVals_early nlhs prhs st0 :
  triple (λ st, st = st0) (grabSickVals nlhs prhs) (λ _ _, True)
    (λ e st', late_error e = false → st' = st0).
Proof. unfold grabSickVals. cbv zeta. repeat lstep; early_leaf. Qed.

Lemma printSickInfo_early nlhs prhs st0 :
  triple (λ st, st = st0) (printSickInfo nlhs prhs) (λ _ _, True)
    (λ e st', late_error e = false → st' = st0).
Proof. unfold printSickInfo. cbv zeta. repeat lstep; early_leaf. Qed.

Lemma mexFunction_early nlhs prhs st0 :
  triple (λ st, st = st0) (mexFunction nlhs prhs) (λ _ _, True)
    (λ e st', late_error e = false → st' = st0).
Proof.
  unfold mexFunction. cbv zeta. repeat tstep; try early_leaf.
  all: eapply triple_bind with (R := λ _ _, True);
    [| intros ?; by apply triple_ret].
  all: eapply triple_weaken;
    [ first [ apply (initSick_early nlhs prhs st0)
            | apply (clearSick_early nlhs prhs st0)
            | apply (setSickVariant_early nlhs prhs st0)
            | apply (grabSickVals_early nlhs prhs st0)
            | apply (printSickInfo_early nlhs prhs st0) ]
    | early_leaf | done | done ].
Qed.

End BridgeLemmas.

(** *** The device path a command settles on *)

Section PathLemmas.
Context `{drv : SickDriver}.
Local Open Scope mex_scope.
Implicit Types (st : mex_state) (k path : string) (l : loc) (obj : SickLMS).

Lemma mexFunction_dispatch c nlhs rest :
  mexFunction nlhs (mxStr (command_name c) :: rest)
  = handler c nlhs (mxStr (command_name c) :: rest).
Proof. by destruct c. Qed.

Lemma sick_get_cases {R} st k (get : sick_private → R) :
  (∃ r, sick_get k get st = Done r st) ∨ (∃ st', sick_get k get st = Crash st').
Proof.
  unfold sick_get, bind, map_index, getter, bind, deref, ret.
  destruct (sick_lms_map st !! k) as [[l |] |]; simpl; eauto.
  destruct (heap st !! l); eauto.
Qed.

Lemma registered_nonempty st k :
  is_Some (sick_lms_map st !! k) → (size (sick_lms_map st) =? 0) = false.
Proof.
  intros [p Hk]. apply Nat.eqb_neq. intros H0.
  apply map_size_empty_inv in H0. rewrite H0 in Hk.
  by rewrite lookup_empty in Hk.
Qed.

Lemma device_path_arg_only st n prhs k :
  registry_ok st → length prhs = n → size (sick_lms_map st) = 1 →
  is_Some (sick_lms_map st !! k) →
  device_path_arg n prhs st = Done k st.
Proof.
  intros Hok Hn Hsz [p Hk].
  destruct (reg_entry _ Hok _ _ Hk) as (l & obj & -> & Hl & Hp).
  by eapply device_path_arg_default.
Qed.

Lemma device_path_arg_named st n prhs a k :
  length prhs = n → mxGetString a = Some k →
  is_Some (sick_lms_map st !! k) →
  device_path_arg n (prhs ++ [a]) st = Done k st.
Proof.
  intros Hn Hs Hk.
  rewrite (device_path_arg_explicit st n (prhs ++ [a]) a k); try done.
  - by rewrite bool_decide_eq_true_2.
  - rewrite length_app. simpl. lia.
  - rewrite lookup_app_r by lia. by rewrite Hn, Nat.sub_diag.
Qed.

Lemma device_path_arg_unknown st n prhs a k :
  length prhs = n → mxGetString a = Some k →
  sick_lms_map st !! k = None →
  device_path_arg n (prhs ++ [a]) st = MexErr ErrNoDeviceAtPath st.
Proof.
  intros Hn Hs Hk.
  rewrite (device_path_arg_explicit st n (prhs ++ [a]) a k); try done.
  - rewrite bool_decide_eq_false_2; [done |]. rewrite Hk. by intros [? ?].
  - rewrite length_app. simpl. lia.
  - rewrite lookup_app_r by lia. by rewrite Hn, Nat.sub_diag.
Qed.

(** The two tests of the number of outputs at the head of [grabSickVals]
    (l. 489-496) pass without a look at the map when at most one output is
    asked for. *)
Lemma grab_entry_checks {B} nlhs (k : bool → M B) st :
  nlhs ≤ 1 →
  bind (if 2 <? nlhs then sick_get EmptyString IsSickLMSFast else ret false)
    k st = k false st ∧
  bind (if 1 <? nlhs then sick_get EmptyString IsSickLMSFast else ret false)
    k st = k false st.
Proof.
  intros Hle.
  assert ((2 <? nlhs) = false) as -> by (apply Nat.ltb_ge; lia).
  assert ((1 <? nlhs) = false) as -> by (apply Nat.ltb_ge; lia).
  done.
Qed.

(** With one session registered, leaving the path out is naming it. *)
Lemma handler_default c nlhs args a k st :
  registry_ok st → args_before_path c args →
  size (sick_lms_map st) = 1 → is_Some (sick_lms_map st !! k) →
  mxGetString a = Some k →
  handler c nlhs (mxStr (command_name c) :: args) st
  = handler c nlhs (mxStr (command_name c) :: args ++ [a]) st.
Proof.
  intros Hok Hargs Hsz Hk Hs.
  pose proof (registered_nonempty _ _ Hk) as Hne.
  destruct c; simpl in Hargs; try done.
  - (* clear *)
    subst args. unfold handler, clearSick. cbv zeta. simpl.
    destruct (0 <? nlhs); [done |].
    rewrite !bind_assoc, !bind_map_size, Hne. cbv beta iota.
    rewrite !bind_assoc.
    rewrite (bind_done _ _ _ _ _
               (device_path_arg_only st 1 [mxStr "clear"] k Hok eq_refl Hsz Hk)).
    by rewrite (bind_done _ _ _ _ _
               (device_path_arg_named st 1 [mxStr "clear"] a k eq_refl Hs Hk)).
  - (* variant *)
    destruct args as [| x [| y [| ? ?]]]; try done.
    unfold handler, setSickVariant. cbv zeta. simpl.
    destruct (0 <? nlhs); [done |].
    rewrite !bind_assoc, !bind_map_size, Hne. cbv beta iota.
    rewrite !bind_assoc.
    rewrite (bind_done _ _ _ _ _
               (device_path_arg_only st 3 [mxStr "variant"; x; y] k
                  Hok eq_refl Hsz Hk)).
    by rewrite (bind_done _ _ _ _ _
               (device_path_arg_named st 3 [mxStr "variant"; x; y] a k
                  eq_refl Hs Hk)).
  - (* grab *)
    subst args. unfold handler, grabSickVals. cbv zeta. simpl.
    rewrite !bind_assoc.
    assert (∀ (f g : bool → M (option mx_output)) (b : bool),
              (∀ r, f r st = g r st) →
              bind (if b then sick_get EmptyString IsSickLMSFast else ret false)
                f st =
              bind (if b then sick_get EmptyString IsSickLMSFast else ret false)
                g st) as Hpre.
    { intros f g b Hfg. destruct b; [| by rewrite !bind_ret].
      destruct (sick_get_cases st EmptyString IsSickLMSFast)
        as [[r Hr] | [st' Hr]].
      - by rewrite !(bind_done _ _ _ _ _ Hr).
      - by rewrite !(bind_crash _ _ _ _ Hr). }
    apply Hpre. intros [|]; [done |]. rewrite !bind_assoc.
    apply Hpre. intros [|]; [done |].
    rewrite !bind_assoc, !bind_map_size, Hne. cbv beta iota.
    rewrite !bind_assoc.
    rewrite (bind_done _ _ _ _ _
               (device_path_arg_only st 1 [mxStr "grab"] k Hok eq_refl Hsz Hk)).
    by rewrite (bind_done _ _ _ _ _
               (device_path_arg_named st 1 [mxStr "grab"] a k eq_refl Hs Hk)).
  - (* info *)
    subst args. unfold handler, printSickInfo. cbv zeta. simpl.
    destruct (0 <? nlhs); [done |].
    rewrite !bind_assoc, !bind_map_size, Hne. cbv beta iota.
    rewrite !bind_assoc.
    rewrite (bind_done _ _ _ _ _
               (device_path_arg_only st 1 [mxStr "info"] k Hok eq_refl Hsz Hk)).
    by rewrite (bind_done _ _ _ _ _
               (device_path_arg_named st 1 [mxStr "info"] a k eq_refl Hs Hk)).
Qed.

(** With more than one session registered, leaving the path out is an
    error. *)
Lemma handler_multiple c nlhs args st :
  args_before_path c args → outputs_accepted c nlhs →
  1 < size (sick_lms_map st) →
  handler c nlhs (mxStr (command_name c) :: args) st
  = MexErr ErrMultipleDevices st.
Proof.
  intros Hargs Hout Hsz.
  assert ((size (sick_lms_map st) =? 0) = false) as Hne
    by (apply Nat.eqb_neq; lia).
  assert (size (sick_lms_map st) ≠ 1) as Hn1 by lia.
  destruct c; simpl in Hargs, Hout; try done.
  - subst args nlhs. unfold handler, clearSick. cbv zeta. simpl.
    rewrite !bind_assoc, !bind_map_size, Hne. cbv beta iota.
    rewrite !bind_assoc.
    by rewrite (bind_err _ _ _ _ _
                  (device_path_arg_multiple st 1 [mxStr "clear"] eq_refl Hn1)).
  - destruct args as [| x [| y [| ? ?]]]; try done. subst nlhs.
    unfold handler, setSickVariant. cbv zeta. simpl.
    rewrite !bind_assoc, !bind_map_size, Hne. cbv beta iota.
    rewrite !bind_assoc.
    by rewrite (bind_err _ _ _ _ _
                  (device_path_arg_multiple st 3 [mxStr "variant"; x; y]
                     eq_refl Hn1)).
  - subst args. unfold handler, grabSickVals. cbv zeta. simpl.
    rewrite !bind_assoc.
    rewrite (proj1 (grab_entry_checks nlhs _ st Hout)). cbv beta iota.
    rewrite !bind_assoc.
    rewrite (proj2 (grab_entry_checks nlhs _ st Hout)). cbv beta iota.
    rewrite !bind_assoc, !bind_map_size, Hne. cbv beta iota.
    rewrite !bind_assoc.
    by rewrite (bind_err _ _ _ _ _
                  (device_path_arg_multiple st 1 [mxStr "grab"] eq_refl Hn1)).
  - subst args nlhs. unfold handler, printSickInfo. cbv zeta. simpl.
    rewrite !bind_assoc, !bind_map_size, Hne. cbv beta iota.
    rewrite !bind_assoc.
    by rewrite (bind_err _ _ _ _ _
                  (device_path_arg_multiple st 1 [mxStr "info"] eq_refl Hn1)).
Qed.

(** A path that names no session is refused. *)
Lemma handler_unknown c nlhs args a k st :
  args_before_path c args → outputs_accepted c nlhs →
  mxGetString a = Some k → sick_lms_map st !! k = None →
  handler c nlhs (mxStr (command_name c) :: args ++ [a]) st
  = MexErr (if size (sick_lms_map st) =? 0 then ErrNoDevice
            else ErrNoDeviceAtPath) st.
Proof.
  intros Hargs Hout Hs Hk.
  destruct c; simpl in Hargs, Hout; try done.
  - subst args nlhs. unfold handler, clearSick. cbv zeta. simpl.
    rewrite !bind_assoc, !bind_map_size.
    destruct (size (sick_lms_map st) =? 0); [done |]. cbv beta iota.
    rewrite !bind_assoc.
    by rewrite (bind_err _ _ _ _ _
                  (device_path_arg_unknown st 1 [mxStr "clear"] a k
                     eq_refl Hs Hk)).
  - destruct args as [| x [| y [| ? ?]]]; try done. subst nlhs.
    unfold handler, setSickVariant. cbv zeta. simpl.
    rewrite !bind_assoc, !bind_map_size.
    destruct (size (sick_lms_map st) =? 0); [done |]. cbv beta iota.
    rewrite !bind_assoc.
    by rewrite (bind_err _ _ _ _ _
                  (device_path_arg_unknown st 3 [mxStr "variant"; x; y] a k
                     eq_refl Hs Hk)).
  - subst args. unfold handler, grabSickVals. cbv zeta. simpl.
    rewrite !bind_assoc.
    rewrite (proj1 (grab_entry_checks nlhs _ st Hout)). cbv beta iota.
    rewrite !bind_assoc.
    rewrite (proj2 (grab_entry_checks nlhs _ st Hout)). cbv beta iota.
    rewrite !bind_assoc, !bind_map_size.
    destruct (size (sick_lms_map st) =? 0); [done |]. cbv beta iota.
    rewrite !bind_assoc.
    by rewrite (bind_err _ _ _ _ _
                  (device_path_arg_unknown st 1 [mxStr "grab"] a k
                     eq_refl Hs Hk)).
  - subst args nlhs. unfold handler, printSickInfo. cbv zeta. simpl.
    rewrite !bind_assoc, !bind_map_size.
    destruct (size (sick_lms_map st) =? 0); [done |]. cbv beta iota.
    rewrite !bind_assoc.
    by rewrite (bind_err _ _ _ _ _
                  (device_path_arg_unknown st 1 [mxStr "info"] a k
                     eq_refl Hs Hk)).
Qed.

(** [clear] without a path tears the only session down. *)
Lemma clear_only_session st k l obj :
  registry_ok st → size (sick_lms_map st) = 1 →
  sick_lms_map st !! k = Some (Some l) → heap st !! l = Some obj →
  IsInitialized (sick_members obj) = true →
  handler CmdClear 0 [mxStr "clear"] st = Done None (torn_down k l obj st).
Proof.
  intros Hok Hsz Hk Hl Hinit.
  assert (is_Some (sick_lms_map st !! k)) as Hsome by eauto.
  pose proof (registered_nonempty _ _ Hsome) as Hne.
  unfold handler, clearSick. cbv zeta. simpl.
  rewrite !bind_assoc, !bind_map_size, Hne. cbv beta iota.
  rewrite !bind_assoc.
  rewrite (bind_done _ _ _ _ _
             (device_path_arg_only st 1 [mxStr "clear"] k Hok eq_refl Hsz Hsome)).
  rewrite !bind_assoc.
  rewrite (bind_done _ _ _ _ _ (sick_get_registered _ _ _ _ _ Hk Hl)).
  rewrite Hinit. change (negb true) with false. cbv beta iota.
  by rewrite (bind_done _ _ _ _ _ (cleanup_registered _ _ _ _ Hk Hl)).
Qed.

End PathLemmas.

(** *** The example programs *)

Section ExampleLemmas.
Context `{drv : SickDriver}.

Lemma count_app f a b : count f (a ++ b) = count f a + count f b.
Proof. induction a as [| e a IH]; simpl; [done |]. rewrite IH. lia. Qed.

Lemma app_bind_returns {R S} (m : App R) (k : R → App S) st r st' :
  app_bind m k st = (Returns r, st') →
  ∃ r1 st1, m st = (Returns r1, st1) ∧ k r1 st1 = (Returns r, st').
Proof.
  unfold app_bind. destruct (m st) as [[r1 | e] st1]; [eauto | discriminate].
Qed.

Lemma app_invoke_log {R} ev (m : method sick_private sick_world R) st :
  app_log (app_invoke ev m st).2 = app_log st ++ [ev].
Proof.
  unfold app_invoke. by destruct (m _ _) as [[r members] w].
Qed.

(** One round of the scan loops. *)
Lemma scan_loop_round announce n st :
  match GetSickScan (sick_lms st) (app_world st) with
  | (Returns values, members, w) =>
      scan_loop announce (S n) st
      = scan_loop announce n
          (mkApp members w
             (app_log st ++ [AppGetSickScan; CoutNumValues (length values)]))
  | (Throws SickTimeoutException, members, w) =>
      scan_loop announce (S n) st
      = scan_loop announce n
          (mkApp members w
             (app_log st ++ [AppGetSickScan; CerrWhat SickTimeoutException]))
  | (Throws e, members, w) =>
      scan_loop announce (S n) st
      = (Throws e,
         mkApp members w
           (app_log st ++
            AppGetSickScan ::
            (if announce && is_SickException e then [CerrWhat e] else [])))
  end.
Proof.
  simpl. unfold app_invoke.
  destruct (GetSickScan (sick_lms st) (app_world st)) as [[[values | e] members] w].
  - unfold app_bind, say. simpl. by rewrite <- app_assoc.
  - destruct e; simpl; unfold app_bind, say; simpl;
      rewrite ?andb_true_r, ?andb_false_r; try destruct announce; simpl;
      by rewrite <- ?app_assoc.
Qed.

(** A whole scan loop. *)
Lemma scan_loop_counts announce n st :
  ∃ evs,
    app_log (scan_loop announce n st).2 = app_log st ++ evs ∧
    match (scan_loop announce n st).1 with
    | Returns _ =>
        count is_scan evs = n ∧
        count is_timeout_report evs + count is_values_report evs = n
    | Throws e =>
        e ≠ SickTimeoutException ∧
        count is_scan evs ≤ n ∧
        count is_scan evs
        = S (count is_timeout_report evs + count is_values_report evs)
    end ∧
    count is_sentinel_initialize evs = 0 ∧
    count is_driver_call evs = count is_scan evs.
Proof.
  revert st. induction n as [| n IH]; intros st.
  - exists []. simpl. by rewrite app_nil_r.
  - pose proof (scan_loop_round announce n st) as Hround.
    destruct (GetSickScan (sick_lms st) (app_world st))
      as [[[values | e] members] w].
    + rewrite Hround.
      destruct (IH (mkApp members w
                      (app_log st ++
                       [AppGetSickScan; CoutNumValues (length values)])))
        as (evs & Hlog & Hcases & Hs & Hd).
      simpl in Hlog.
      exists ([AppGetSickScan; CoutNumValues (length values)] ++ evs).
      split; [by rewrite Hlog, <- app_assoc |].
      rewrite !count_app. simpl.
      destruct (scan_loop announce n _).1; simpl; lia || (split; [| lia]);
        repeat split; try lia; tauto.
    + assert (e = SickTimeoutException ∨ e ≠ SickTimeoutException) as [-> | Hne]
        by (destruct e; auto).
      * rewrite Hround.
        destruct (IH (mkApp members w
                        (app_log st ++
                         [AppGetSickScan; CerrWhat SickTimeoutException])))
          as (evs & Hlog & Hcases & Hs & Hd).
        simpl in Hlog.
        exists ([AppGetSickScan; CerrWhat SickTimeoutException] ++ evs).
        split; [by rewrite Hlog, <- app_assoc |].
        rewrite !count_app. simpl.
        destruct (scan_loop announce n _).1; simpl; lia || (split; [| lia]);
          repeat split; try lia; tauto.
      * assert (scan_loop announce (S n) st
                = (Throws e,
                   mkApp members w
                     (app_log st ++
                      AppGetSickScan ::
                      (if announce && is_SickException e
                       then [CerrWhat e] else [])))) as ->
          by (by destruct e).
        eexists. split; [reflexivity |]. simpl.
        destruct (announce && is_SickException e); destruct e; simpl;
          repeat split; try done; lia.
Qed.


Lemma keeps_bind {R S} f (m : App R) (k : R → App S) :
  keeps f m → (∀ r, keeps f (k r)) → keeps f (app_bind m k).
Proof.
  intros Hm Hk st. unfold app_bind. specialize (Hm st).
  destruct (m st) as [[r | e] st1]; simpl in *; [| done].
  by rewrite Hk.
Qed.

Lemma keeps_say f e : f e = false → keeps f (say e).
Proof. intros He st. simpl. rewrite count_app. simpl. rewrite He. lia. Qed.

Lemma keeps_invoke {R} f ev (m : method sick_private sick_world R) :
  f ev = false → keeps f (app_invoke ev m).
Proof.
  intros He st. rewrite app_invoke_log, count_app. simpl. rewrite He. lia.
Qed.

Lemma keeps_scan_loop announce n :
  keeps is_sentinel_initialize (scan_loop announce n).
Proof.
  intros st. destruct (scan_loop_counts announce n st) as (evs & -> & _ & H & _).
  rewrite count_app. lia.
Qed.

Lemma guarded_log f body st :
  f CoutDone = false → f CerrErrorOccurred = false → keeps f body →
  count f (guarded body st).1.2 = count f (app_log st).
Proof.
  intros Hd He Hbody. unfold guarded. specialize (Hbody st).
  destruct (body st) as [[r | e] st1]; simpl in *;
    rewrite count_app; simpl; rewrite ?Hd, ?He; lia.
Qed.

Lemma guarded_success body st evs w :
  guarded body st = (0%Z, evs, w) →
  ∃ r st', body st = (Returns r, st') ∧ evs = app_log st' ++ [CoutDone].
Proof.
  unfold guarded. destruct (body st) as [[r | e] st1]; [| discriminate].
  simpl. intros [= <- <-]. eauto.
Qed.

Lemma desired_baud_known (argv : list string) :
  (length argv =? 3) &&
  bool_decide ((if length argv =? 3
                then StringToSickBaud (nth 2 argv EmptyString)
                else SICK_BAUD_38400) = SICK_BAUD_UNKNOWN) = false →
  is_sentinel_initialize
    (AppInitialize (if length argv =? 3
                    then StringToSickBaud (nth 2 argv EmptyString)
                    else SICK_BAUD_38400)) = false.
Proof.
  destruct (length argv =? 3); [| done]. simpl. intros H.
  apply bool_decide_eq_false in H.
  by destruct (StringToSickBaud _).
Qed.

Lemma simple_app_never_sentinel argv w :
  count is_sentinel_initialize (lms_simple_app_main argv w).1.2 = 0.
Proof.
  unfold lms_simple_app_main. cbv zeta.
  destruct (usage_wanted argv); [done |].
  destruct (_ && _) eqn:Hbaud; [done |].
  apply desired_baud_known in Hbaud.
  rewrite guarded_log; try done.
  apply keeps_bind; [by apply keeps_invoke |]. intros _.
  apply keeps_bind; [apply keeps_scan_loop |]. intros _.
  by apply keeps_invoke.
Qed.

Lemma set_variant_never_sentinel argv w :
  count is_sentinel_initialize (lms_set_variant_main argv w).1.2 = 0.
Proof.
  unfold lms_set_variant_main. cbv zeta.
  destruct (usage_wanted argv); [done |].
  destruct (_ && _) eqn:Hbaud; [done |].
  apply desired_baud_known in Hbaud.
  rewrite guarded_log; try done.
  repeat first
    [ apply keeps_scan_loop
    | apply keeps_invoke; done
    | apply keeps_say; done
    | apply keeps_bind; [| intros ?] ].
Qed.

Lemma usage_not_wanted_3 (argv : list string) :
  length argv = 3 → usage_wanted argv = false.
Proof. intros H. unfold usage_wanted. by rewrite H. Qed.

Lemma app_invoke_returns {R} ev (m : method sick_private sick_world R)
    st r st' :
  app_invoke ev m st = (r, st') → app_log st' = app_log st ++ [ev].
Proof. intros H. pose proof (app_invoke_log ev m st) as L. by rewrite H in L. Qed.

Lemma say_returns e st r st' :
  say e st = (r, st') → app_log st' = app_log st ++ [e].
Proof. by intros [= _ <-]. Qed.

Lemma scan_loop_returns announce n st r st' :
  scan_loop announce n st = (Returns r, st') →
  ∃ evs, app_log st' = app_log st ++ evs ∧ count is_scan evs = n ∧
    count is_timeout_report evs + count is_values_report evs = n.
Proof.
  intros H. destruct (scan_loop_counts announce n st) as (evs & L & Hc & _).
  rewrite H in L, Hc. simpl in L, Hc. exists evs. tauto.
Qed.

Lemma simple_app_success argv w evs w' :
  lms_simple_app_main argv w = (0%Z, evs, w') →
  count is_scan evs = 10 ∧
  count is_timeout_report evs + count is_values_report evs = 10.
Proof.
  unfold lms_simple_app_main. cbv zeta.
  destruct (usage_wanted argv); [discriminate |].
  destruct (_ && _); [discriminate |].
  intros H. apply guarded_success in H as (r & st' & Hbody & ->).
  apply app_bind_returns in Hbody as (r1 & st1 & H1 & Hbody).
  apply app_bind_returns in Hbody as (r2 & st2 & H2 & H3).
  apply app_invoke_returns in H1. simpl in H1.
  apply scan_loop_returns in H2 as (evs & L2 & Hc).
  apply app_invoke_returns in H3.
  rewrite H3, L2, H1, !count_app. simpl. lia.
Qed.

Lemma set_variant_success argv w evs w' :
  lms_set_variant_main argv w = (0%Z, evs, w') →
  count is_scan evs = 20 ∧
  count is_timeout_report evs + count is_values_report evs = 20.
Proof.
  unfold lms_set_variant_main. cbv zeta.
  destruct (usage_wanted argv); [discriminate |].
  destruct (_ && _); [discriminate |].
  intros H. apply guarded_success in H as (r & st' & Hbody & ->).
  apply app_bind_returns in Hbody as (r1 & st1 & H1 & Hbody).
  apply app_bind_returns in Hbody as (r2 & st2 & H2 & Hbody).
  apply app_bind_returns in Hbody as (r3 & st3 & H3 & Hbody).
  apply app_bind_returns in Hbody as (r4 & st4 & H4 & Hbody).
  apply app_bind_returns in Hbody as (r5 & st5 & H5 & Hbody).
  apply app_bind_returns in Hbody as (r6 & st6 & H6 & Hbody).
  apply app_bind_returns in Hbody as (r7 & st7 & H7 & Hbody).
  apply app_bind_returns in Hbody as (r8 & st8 & H8 & Hbody).
  apply app_bind_returns in Hbody as (r9 & st9 & H9 & H10).
  apply app_invoke_returns in H1. simpl in H1.
  apply say_returns in H2. apply app_invoke_returns in H3.
  apply say_returns in H4.
  apply scan_loop_returns in H5 as (evs5 & L5 & Hc5).
  apply say_returns in H6. apply app_invoke_returns in H7.
  apply say_returns in H8.
  apply scan_loop_returns in H9 as (evs9 & L9 & Hc9).
  apply app_invoke_returns in H10.
  rewrite H10, L9, H8, H7, H6, L5, H4, H3, H2, H1, !count_app. simpl. lia.
Qed.

End ExampleLemmas.

Lemma initSick_full `{drv : SickDriver} nlhs prhs k st :
  init_args nlhs prhs k →
  size (sick_lms_map st) = MAX_NUM_LMS_DEVICES →
  initSick nlhs prhs st = MexErr ErrMaxDevices st.
Proof.
  intros (Hlen & Hle & a & Ha & Hs) Hsz.
  unfold initSick. cbv zeta. rewrite Hlen.
  change (negb (3 =? 3)) with false. cbv iota.
  assert ((1 <? nlhs) = false) as -> by (apply Nat.ltb_ge; lia).
  cbv beta iota.
  rewrite (bind_prhs_at _ _ _ _ _ Ha), Hs, bind_map_size.
  by rewrite Hsz, Nat.eqb_refl.
Qed.

(** ** The properties *)

Lemma sim_reachable_one : reachable (sim_after sim_calls_one).
Proof. exists 0, sim_calls_one. vm_compute. reflexivity. Qed.

Lemma sim_reachable_fast : reachable (sim_after sim_calls_fast).
Proof. exists 0, sim_calls_fast. vm_compute. reflexivity. Qed.

Lemma sim_reachable_three : reachable (sim_after sim_calls_three).
Proof. exists 0, sim_calls_three. vm_compute. reflexivity. Qed.

Lemma sim_reachable_four : reachable (sim_after sim_calls_four).
Proof. exists 0, sim_calls_four. vm_compute. reflexivity. Qed.

(** C3: an [init] issued while four sessions are registered fails, and
    with the capacity error when its arguments are well formed, in the very
    state it was issued in: no session is created, no entry touched, nothing
    is sent. And no state the process can reach holds more than four
    sessions. *)
Theorem init_at_capacity `{drv : SickDriver} :
  (∀ nlhs prhs st,
     size (sick_lms_map st) = MAX_NUM_LMS_DEVICES →
     ∃ e, initSick nlhs prhs st = MexErr e st ∧
          ∀ k, init_args nlhs prhs k → e = ErrMaxDevices) ∧
  (∀ st, reachable st → size (sick_lms_map st) ≤ MAX_NUM_LMS_DEVICES).
Proof.
  split; [| intros st Hst; apply reg_bound, reachable_ok, Hst].
  intros nlhs prhs st Hsz. unfold initSick. cbv zeta.
  destruct (negb (length prhs =? 3)) eqn:Hn.
  { eexists. split; [reflexivity |]. intros k (Hlen & _).
    rewrite Hlen in Hn. done. }
  destruct (1 <? nlhs) eqn:Hl.
  { eexists. split; [reflexivity |]. intros k (_ & Hle & _).
    apply Nat.ltb_lt in Hl. lia. }
  unfold bind at 1. unfold prhs_at.
  destruct (prhs !! 1) as [a |] eqn:Ha.
  2: { apply negb_false_iff, Nat.eqb_eq in Hn.
       apply lookup_ge_None in Ha. lia. }
  unfold ret. destruct (mxGetString a) as [k |] eqn:Hs.
  2: { eexists. split; [reflexivity |].
       intros k (_ & _ & a' & Ha' & Hs'). congruence. }
  unfold bind at 1. unfold map_size. rewrite Hsz, Nat.eqb_refl.
  eexists. split; [reflexivity | done].
Qed.

Lemma init_at_capacity_witness :
  initSick (drv := sim_driver) 1
    [mxStr "init"; mxStr "/dev/ttyUSB4"; mxNum 9600] (sim_after sim_calls_four)
  = MexErr ErrMaxDevices (sim_after sim_calls_four) ∧
  size (sick_lms_map (sim_after sim_calls_four)) ≤ 4.
Proof.
  split.
  - destruct (proj1 (init_at_capacity (drv := sim_driver)) 1
                [mxStr "init"; mxStr "/dev/ttyUSB4"; mxNum 9600]
                (sim_after sim_calls_four)) as (e & He & Hk).
    { vm_compute. reflexivity. }
    rewrite He. f_equal. apply (Hk "/dev/ttyUSB4").
    split; [reflexivity |]. split; [lia |].
    eexists. split; reflexivity.
  - apply (proj2 (init_at_capacity (drv := sim_driver))).
    exact sim_reachable_four.
Defined.

(** C10: an [init] that names a path already registered, issued while
    four sessions are registered, meets the capacity error before the old
    session is torn down, in the very state it was issued in, although the
    teardown would have left room; and the guard is an equality: in a state
    whose count is anything but four no [init] leaves with the capacity
    error. *)
Theorem reinit_at_capacity `{drv : SickDriver} :
  (∀ nlhs prhs k st,
     init_args nlhs prhs k →
     size (sick_lms_map st) = MAX_NUM_LMS_DEVICES →
     is_Some (sick_lms_map st !! k) →
     initSick nlhs prhs st = MexErr ErrMaxDevices st ∧
     S (size (delete k (sick_lms_map st))) ≤ MAX_NUM_LMS_DEVICES) ∧
  (∀ nlhs prhs st st',
     size (sick_lms_map st) ≠ MAX_NUM_LMS_DEVICES →
     initSick nlhs prhs st ≠ MexErr ErrMaxDevices st').
Proof.
  split.
  - intros nlhs prhs k st Hargs Hsz [p Hk]. split.
    + by apply (initSick_full nlhs prhs k).
    + rewrite map_size_delete, Hk, Hsz. unfold MAX_NUM_LMS_DEVICES. lia.
  - intros nlhs prhs st st' Hsz Heq.
    pose proof (initSick_capacity_error nlhs prhs st Hsz) as H.
    rewrite Heq in H. done.
Qed.

Lemma reinit_at_capacity_witness :
  initSick (drv := sim_driver) 1
    [mxStr "init"; mxStr "/dev/ttyUSB2"; mxNum 9600] (sim_after sim_calls_four)
  = MexErr ErrMaxDevices (sim_after sim_calls_four) ∧
  S (size (delete "/dev/ttyUSB2" (sick_lms_map (sim_after sim_calls_four)))) ≤ 4.
Proof.
  apply (proj1 (reinit_at_capacity (drv := sim_driver))).
  - split; [reflexivity |]. split; [lia |]. eexists. split; reflexivity.
  - vm_compute. reflexivity.
  - vm_compute. eauto.
Defined.

(** C1: a [variant] call that reaches an initialised session of the Fast
    sub-family, by an explicit path, as the only session, or by the empty
    path, is refused with the message that the model does not support the
    command, whatever its angle and resolution arguments are, and leaves the
    state as it was: [SetSickVariant] is not called, nothing is written and
    the world outside is not touched. *)
Theorem variant_on_fast_rejected `{drv : SickDriver} prhs st k l obj :
  reachable st →
  (length prhs = 4 ∧ ∃ a, prhs !! 3 = Some a ∧ mxGetString a = Some k) ∨
  (length prhs = 3 ∧ size (sick_lms_map st) = 1) ∨
  (length prhs < 3 ∧ k = EmptyString) →
  sick_lms_map st !! k = Some (Some l) → heap st !! l = Some obj →
  IsInitialized (sick_members obj) = true →
  IsSickLMSFast (sick_members obj) = true →
  setSickVariant 0 prhs st = MexErr ErrVariantNotSupported st.
Proof.
  intros Hst Hargs Hk Hl Hinit Hfast. apply reachable_ok in Hst.
  assert (GetSickDevicePath obj = k) as Hpath.
  { destruct (reg_entry _ Hst _ _ Hk) as (l' & obj' & [= <-] & Hl' & Hp).
    congruence. }
  assert (size (sick_lms_map st) ≠ 0) as Hne.
  { intros H0. apply map_size_empty_inv in H0. rewrite H0 in Hk.
    by rewrite lookup_empty in Hk. }
  assert (device_path_arg 3 prhs st = Done k st) as Hdev.
  { destruct Hargs as [(Hlen & a & Ha & Hs) | [(Hlen & Hsz) | (Hlen & ->)]].
    - rewrite (device_path_arg_explicit _ _ _ _ _ Hlen Ha Hs).
      rewrite bool_decide_eq_true_2; [done | by rewrite Hk].
    - by eapply device_path_arg_default.
    - unfold device_path_arg. cbv zeta.
      assert ((length prhs =? 3) = false) as -> by (apply Nat.eqb_neq; lia).
      assert ((length prhs =? 4) = false) as -> by (apply Nat.eqb_neq; lia).
      reflexivity. }
  unfold setSickVariant. cbv zeta.
  assert ((4 <? length prhs) = false) as ->.
  { apply Nat.ltb_ge. destruct Hargs as [[? _] | [[? _] | [? _]]]; lia. }
  change (0 <? 0) with false. cbv beta iota. rewrite bind_map_size.
  apply Nat.eqb_neq in Hne. rewrite Hne.
  rewrite (bind_done _ _ _ _ _ Hdev).
  rewrite (bind_done _ _ _ _ _ (sick_get_registered _ _ _ _ _ Hk Hl)).
  rewrite Hinit. change (negb true) with false. cbv beta iota.
  rewrite (bind_done _ _ _ _ _ (sick_get_registered _ _ _ _ _ Hk Hl)).
  by rewrite Hfast.
Qed.

Lemma variant_on_fast_rejected_witness :
  setSickVariant (drv := sim_driver) 0
    [mxStr "variant"; mxNum 100; mxNum (1 # 4)] (sim_after sim_calls_fast)
  = MexErr ErrVariantNotSupported (sim_after sim_calls_fast).
Proof.
  apply (variant_on_fast_rejected (drv := sim_driver) _ _ "/dev/ttyUSB1"
           1%positive
           (mkSickLMS (drv := sim_driver) "/dev/ttyUSB1"
              (mkSim "/dev/ttyUSB1" true 180 (1 # 2) 0 : @sick_private sim_driver))).
  - exact sim_reachable_fast.
  - right. left. split; vm_compute; reflexivity.
  - vm_compute. reflexivity.
  - vm_compute. reflexivity.
  - reflexivity.
  - reflexivity.
Defined.

(** C9 (the code departs from it): called for two outputs or more,
    [grabSickVals] indexes the map with the path it has not settled yet and
    follows the pointer it finds, before it has looked whether the registry
    is empty and before it has read the path. Unless a session is registered
    under the empty path, this enters a NULL pointer under it and
    dereferences it; on the empty registry, where the documented answer is
    that no device has been initialised, just as well. *)
Theorem grab_consults_session_at_entry `{drv : SickDriver} nlhs prhs st :
  length prhs ≤ 2 → 1 < nlhs →
  sick_lms_map st !! EmptyString = None →
  grabSickVals nlhs prhs st
  = Crash (mkState (<[EmptyString := None]> (sick_lms_map st)) (heap st)
             (world st) (log st)).
Proof.
  intros Hlen Hout Hnone.
  assert (∀ A (k : bool → M A),
            bind (sick_get EmptyString IsSickLMSFast) k st
            = Crash (mkState (<[EmptyString := None]> (sick_lms_map st))
                       (heap st) (world st) (log st))) as Hget.
  { intros A k. unfold bind, sick_get, bind, map_index. by rewrite Hnone. }
  unfold grabSickVals. cbv zeta.
  assert ((2 <? length prhs) = false) as -> by (apply Nat.ltb_ge; lia).
  assert ((1 <? nlhs) = true) as -> by (apply Nat.ltb_lt; lia).
  destruct (2 <? nlhs); [apply Hget |].
  unfold bind at 1. unfold ret at 1. cbv beta iota. apply Hget.
Qed.

Lemma grab_consults_session_at_entry_witness :
  grabSickVals (drv := sim_driver) 2 [mxStr "grab"]
    (initial_state (drv := sim_driver) 0)
  = Crash (mkState (drv := sim_driver) {[ EmptyString := None ]} ∅ 0 []).
Proof.
  apply (grab_consults_session_at_entry (drv := sim_driver) 2 [mxStr "grab"]
           (initial_state (drv := sim_driver) 0)).
  - simpl. lia.
  - lia.
  - reflexivity.
Defined.

(** C7: for [clear], [variant], [grab] and [info] called without a
    device path. With exactly one session registered the call does what the
    same call with the path of that session does (and [clear] tears that
    session down); with more than one it fails with the demand for a path;
    and a path that names no session is refused. The last two hold for the
    numbers of outputs the command accepts. *)
Theorem default_device_resolution `{drv : SickDriver} c nlhs args st :
  reachable st → args_before_path c args →
  (∀ a k,
     size (sick_lms_map st) = 1 → is_Some (sick_lms_map st !! k) →
     mxGetString a = Some k →
     mexFunction nlhs (mxStr (command_name c) :: args) st
     = mexFunction nlhs (mxStr (command_name c) :: args ++ [a]) st) ∧
  (∀ k l obj,
     size (sick_lms_map st) = 1 →
     sick_lms_map st !! k = Some (Some l) → heap st !! l = Some obj →
     IsInitialized (sick_members obj) = true →
     mexFunction 0 [mxStr "clear"] st = Done None (torn_down k l obj st)) ∧
  (outputs_accepted c nlhs → 1 < size (sick_lms_map st) →
   mexFunction nlhs (mxStr (command_name c) :: args) st
   = MexErr ErrMultipleDevices st) ∧
  (outputs_accepted c nlhs →
   ∀ a k, mxGetString a = Some k → sick_lms_map st !! k = None →
     mexFunction nlhs (mxStr (command_name c) :: args ++ [a]) st
     = MexErr (if size (sick_lms_map st) =? 0 then ErrNoDevice
               else ErrNoDeviceAtPath) st).
Proof.
  intros Hst Hargs. apply reachable_ok in Hst. repeat split.
  - intros a k Hsz Hk Hs. rewrite !mexFunction_dispatch.
    by apply handler_default with (k := k).
  - intros k l obj Hsz Hk Hl Hinit.
    rewrite (mexFunction_dispatch CmdClear 0 []).
    by apply clear_only_session.
  - intros Hout Hsz. rewrite mexFunction_dispatch. by apply handler_multiple.
  - intros Hout a k Hs Hk. rewrite mexFunction_dispatch.
    by apply handler_unknown with (k := k).
Qed.

Lemma default_device_resolution_witness :
  (mexFunction (drv := sim_driver) 1 [mxStr "grab"] (sim_after sim_calls_one)
   = mexFunction (drv := sim_driver) 1 [mxStr "grab"; mxStr "/dev/ttyUSB0"]
       (sim_after sim_calls_one)) ∧
  (mexFunction (drv := sim_driver) 0 [mxStr "info"] (sim_after sim_calls_three)
   = MexErr ErrMultipleDevices (sim_after sim_calls_three)) ∧
  (mexFunction (drv := sim_driver) 0 [mxStr "info"; mxStr "/dev/ttyUSB7"]
     (sim_after sim_calls_three)
   = MexErr ErrNoDeviceAtPath (sim_after sim_calls_three)).
Proof.
  split; [| split].
  - apply (proj1 (default_device_resolution (drv := sim_driver) CmdGrab 1 []
                    (sim_after sim_calls_one) sim_reachable_one eq_refl)
             (mxStr "/dev/ttyUSB0") "/dev/ttyUSB0").
    + vm_compute. reflexivity.
    + vm_compute. eauto.
    + reflexivity.
  - apply (proj1 (proj2 (proj2
             (default_device_resolution (drv := sim_driver) CmdInfo 0 []
                (sim_after sim_calls_three) sim_reachable_three eq_refl)))).
    + reflexivity.
    + vm_compute. lia.
  - apply (proj2 (proj2 (proj2
             (default_device_resolution (drv := sim_driver) CmdInfo 0 []
                (sim_after sim_calls_three) sim_reachable_three eq_refl)))
             eq_refl (mxStr "/dev/ttyUSB7") "/dev/ttyUSB7").
    + reflexivity.
    + vm_compute. reflexivity.
Defined.

(** C8: a [grab] that succeeds took one scan on a registered session;
    the field of view and the resolution it reports are those the session
    holds after that scan, there are as many bearings as primary values,
    and the bearing at index [i] is [(180 - fov) / 2 + i * resolution]. *)
Theorem grab_bearing_formula `{drv : SickDriver} nlhs prhs st g st' :
  grabSickVals nlhs prhs st = Done g st' →
  ∃ k l obj0 obj pri sec,
    sick_lms_map st !! k = Some (Some l) ∧ heap st !! l = Some obj0 ∧
    (if IsSickLMSFast (sick_members obj0)
     then GetSickScan2 (sick_members obj0) (world st)
          = (Returns (pri, sec), sick_members obj, world st')
     else GetSickScan (sick_members obj0) (world st)
          = (Returns pri, sick_members obj, world st')) ∧
    heap st' !! l = Some obj ∧
    grab_fov g = GetSickScanAngle (sick_members obj) ∧
    grab_res g = GetSickScanResolution (sick_members obj) ∧
    grab_primary g = map double_of_uint pri ∧
    length (grab_bearing g) = length pri ∧
    ∀ i, i < length pri →
      grab_bearing g !! i
      = Some ((180 - grab_fov g) / 2 + inject_Z (Z.of_nat i) * grab_res g)%Q.
Proof.
  intros Hrun. pose proof (grab_spec nlhs prhs st st eq_refl) as H.
  rewrite Hrun in H.
  destruct H as (k & l & obj0 & pri & sec & members & w &
                 Hk & Hl & Hscan & -> & Hfov & Hres & Hpri & Hbear).
  exists k, l, obj0, (mkSickLMS (GetSickDevicePath obj0) members), pri, sec.
  simpl. rewrite lookup_insert_eq, Hbear, bearings_length.
  repeat split; try done.
  intros i Hi. by apply bearings_lookup.
Qed.

Lemma grab_bearing_formula_witness :
  grab_bearing sim_grab_struct !! 360
  = Some ((180 - grab_fov sim_grab_struct) / 2
          + inject_Z (Z.of_nat 360) * grab_res sim_grab_struct)%Q.
Proof.
  destruct (grab_bearing_formula (drv := sim_driver) 1 [mxStr "grab"]
              (sim_after sim_calls_one) sim_grab_struct
              (state_of sim_grab))
    as (k & l & obj0 & obj & pri & sec & _ & _ & _ & _ & _ & _ & _ & Hlen & Hb).
  - vm_compute. reflexivity.
  - apply Hb. rewrite <- Hlen. vm_compute. lia.
Defined.

(** C2: an [init] that names a path already registered either meets
    the ceiling and fails with nothing created and nothing changed, or first
    tears the old session down ([Uninitialize] called iff it was
    initialised, then the object deleted and the entry erased, nothing
    created meanwhile) and goes on from the registry without it, exactly as
    an [init] of a path never seen: no session is created under a path
    before the one that held it is gone. Hence, in every state the process
    can reach and at every moment of its past, no two live sessions share a
    device path. *)
Theorem reinit_tears_down_first `{drv : SickDriver} :
  (∀ nlhs prhs k st l obj,
     reachable st → init_args nlhs prhs k →
     sick_lms_map st !! k = Some (Some l) → heap st !! l = Some obj →
     (size (sick_lms_map st) = MAX_NUM_LMS_DEVICES ∧
      initSick nlhs prhs st = MexErr ErrMaxDevices st) ∨
     (size (sick_lms_map st) < MAX_NUM_LMS_DEVICES ∧
      ∃ st1 evs,
        cleanup k (if IsInitialized (sick_members obj)
                   then logged (EvWarnReinit k) st else st) = Done tt st1 ∧
        initSick nlhs prhs st = initSick nlhs prhs st1 ∧
        sick_lms_map st1 = delete k (sick_lms_map st) ∧
        heap st1 = delete l (heap st) ∧
        log st1 = log st ++ evs ∧
        uninitialized evs
        = (if IsInitialized (sick_members obj) then [l] else []) ∧
        deleted evs = [l] ∧ created evs = [])) ∧
  (∀ st, reachable st →
     (∀ pre, pre `prefix_of` log st → one_per_path (live pre)) ∧
     live (log st) = GetSickDevicePath <$> heap st ∧
     (∀ l1 l2 o1 o2,
        heap st !! l1 = Some o1 → heap st !! l2 = Some o2 →
        GetSickDevicePath o1 = GetSickDevicePath o2 → l1 = l2)).
Proof.
  split.
  - intros nlhs prhs k st l obj Hst Hargs Hk Hl.
    destruct (decide (size (sick_lms_map st) = MAX_NUM_LMS_DEVICES))
      as [Hfull | Hsz].
    { left. split; [done |].
      by apply (initSick_full nlhs prhs k). }
    right. apply reachable_ok in Hst.
    split; [pose proof (reg_bound _ Hst); lia |].
    pose proof (reinit_torn_down nlhs prhs k st l obj Hst Hargs Hsz Hk Hl)
      as Hre.
    destruct (IsInitialized (sick_members obj)) eqn:Hinit.
    + exists (torn_down k l obj (logged (EvWarnReinit k) st)),
        (EvWarnReinit k :: teardown_events l obj (world st)).
      split; [by apply cleanup_registered |]. split; [exact Hre |].
      split; [reflexivity |]. split; [reflexivity |].
      split; [simpl; by rewrite <- app_assoc |].
      change (EvWarnReinit k :: teardown_events l obj (world st))
        with ([EvWarnReinit k] ++ teardown_events l obj (world st)).
      rewrite uninitialized_app, deleted_app, created_app.
      rewrite teardown_events_uninitialized, teardown_events_deleted,
        teardown_events_created, Hinit. repeat split; reflexivity.
    + exists (torn_down k l obj st), (teardown_events l obj (world st)).
      split; [by apply cleanup_registered |]. split; [exact Hre |].
      split; [reflexivity |]. split; [reflexivity |]. split; [reflexivity |].
      rewrite teardown_events_uninitialized, teardown_events_deleted,
        teardown_events_created, Hinit. repeat split; reflexivity.
  - intros st Hst. apply reachable_ok in Hst.
    split; [apply (reg_trace _ Hst) |]. split; [apply (reg_log _ Hst) |].
    intros l1 l2 o1 o2 H1 H2 Hp.
    apply (reg_owned _ Hst) in H1. apply (reg_owned _ Hst) in H2.
    rewrite Hp in H1. congruence.
Qed.

Lemma reinit_tears_down_first_witness :
  ((size (sick_lms_map (sim_after sim_calls_one)) = MAX_NUM_LMS_DEVICES ∧
    initSick (drv := sim_driver) 1
      [mxStr "init"; mxStr "/dev/ttyUSB0"; mxNum 9600]
      (sim_after sim_calls_one)
    = MexErr ErrMaxDevices (sim_after sim_calls_one)) ∨
   (size (sick_lms_map (sim_after sim_calls_one)) < MAX_NUM_LMS_DEVICES ∧
    ∃ st1 evs,
      cleanup (drv := sim_driver) "/dev/ttyUSB0"
        (logged (EvWarnReinit "/dev/ttyUSB0") (sim_after sim_calls_one))
      = Done tt st1 ∧
      initSick (drv := sim_driver) 1
        [mxStr "init"; mxStr "/dev/ttyUSB0"; mxNum 9600]
        (sim_after sim_calls_one)
      = initSick (drv := sim_driver) 1
          [mxStr "init"; mxStr "/dev/ttyUSB0"; mxNum 9600] st1 ∧
      sick_lms_map st1
      = delete "/dev/ttyUSB0" (sick_lms_map (sim_after sim_calls_one)) ∧
      heap st1 = delete 1%positive (heap (sim_after sim_calls_one)) ∧
      log st1 = log (sim_after sim_calls_one) ++ evs ∧
      uninitialized evs = [1%positive] ∧
      deleted evs = [1%positive] ∧ created evs = [])) ∧
  (∀ pre, pre `prefix_of` log (sim_after sim_calls_three) →
     one_per_path (live pre)).
Proof.
  split.
  - apply (proj1 (reinit_tears_down_first (drv := sim_driver)) 1
             [mxStr "init"; mxStr "/dev/ttyUSB0"; mxNum 9600] "/dev/ttyUSB0"
             (sim_after sim_calls_one) 1%positive
             (mkSickLMS (drv := sim_driver) "/dev/ttyUSB0"
                (mkSim "/dev/ttyUSB0" true 180 (1 # 2) 0
                 : @sick_private sim_driver))).
    + exact sim_reachable_one.
    + split; [reflexivity |]. split; [lia |]. eexists. split; reflexivity.
    + vm_compute. reflexivity.
    + vm_compute. reflexivity.
  - apply (proj2 (reinit_tears_down_first (drv := sim_driver))
             (sim_after sim_calls_three)).
    exact sim_reachable_three.
Defined.

(** C4: when the exit hook runs in a state the process can reach, it
    comes to its end with the registry and the free store empty; what it
    wrote releases every session that was live exactly once, in some order,
    uninitialises exactly the initialised ones, and creates none. And when
    [Uninitialize] throws in the teardown of a session, the exception ends
    in the warning, the object is deleted all the same and the entry erased,
    so that the loop goes on with the sessions left. *)
Theorem exit_tears_down_all `{drv : SickDriver} st :
  reachable st →
  (∀ fuel, size (sick_lms_map st) ≤ fuel →
     ∃ st' evs,
       mexExit fuel st = Some (Done tt st') ∧
       sick_lms_map st' = ∅ ∧ heap st' = ∅ ∧
       log st' = log st ++ evs ∧
       deleted evs ≡ₚ sessions st ∧ NoDup (sessions st) ∧
       uninitialized evs ≡ₚ initialized_sessions st ∧
       created evs = []) ∧
  (∀ k l obj e members w,
     sick_lms_map st !! k = Some (Some l) → heap st !! l = Some obj →
     IsInitialized (sick_members obj) = true →
     Uninitialize (sick_members obj) (world st) = (Throws e, members, w) →
     cleanup k st =
       Done tt
         (mkState (delete k (sick_lms_map st)) (delete l (heap st))
            (SickLMS_dtor members w)
            (log st ++ [EvUninitialize l; EvWarnCleanup; EvDelete l]))).
Proof.
  intros Hst. apply reachable_ok in Hst. split.
  - intros fuel Hfuel.
    destruct (mexExit_spec fuel st Hst Hfuel)
      as (st' & evs & Hrun & Hm & Hh & Hlog & Hdel & Hun & Hcr).
    exists st', evs. repeat split; try done.
    apply NoDup_fst_map_to_list.
  - intros k l obj e members w. apply cleanup_throwing.
Qed.

Lemma exit_tears_down_all_witness :
  ∃ st' evs,
    mexExit (drv := sim_driver) 3 (sim_after sim_calls_three)
    = Some (Done tt st') ∧
    sick_lms_map st' = ∅ ∧ heap st' = ∅ ∧
    log st' = log (sim_after sim_calls_three) ++ evs ∧
    deleted evs ≡ₚ sessions (sim_after sim_calls_three) ∧
    NoDup (sessions (sim_after sim_calls_three)) ∧
    uninitialized evs ≡ₚ initialized_sessions (sim_after sim_calls_three) ∧
    created evs = [].
Proof.
  apply (proj1 (exit_tears_down_all (drv := sim_driver)
                  (sim_after sim_calls_three) sim_reachable_three)).
  vm_compute. lia.
Defined.

(** C5: at each of the three entry points a baud rate whose conversion
    answers the sentinel is refused on the spot. The two example programs
    write the complaint and leave with -1 before the driver object exists;
    [initSick] leaves with the message of the invalid baud rate (or, with
    four sessions registered, with that of the ceiling), having called
    [Initialize] on nothing and created nothing. No run of either
    program and no state the bridge can reach has a call of [Initialize]
    with the sentinel behind it. The sentinel is what the conversions answer
    exactly outside 9600, 19200, 38400 and 500000. *)
Theorem sentinel_baud_never_sent `{drv : SickDriver} :
  (∀ argv w,
     length argv = 3 →
     StringToSickBaud (nth 2 argv EmptyString) = SICK_BAUD_UNKNOWN →
     lms_simple_app_main argv w = ((-1)%Z, [CerrInvalidBaud], w) ∧
     lms_set_variant_main argv w = ((-1)%Z, [CerrInvalidBaud], w)) ∧
  (∀ argv w,
     count is_sentinel_initialize (lms_simple_app_main argv w).1.2 = 0 ∧
     count is_sentinel_initialize (lms_set_variant_main argv w).1.2 = 0) ∧
  (∀ nlhs prhs k a st,
     reachable st → init_args nlhs prhs k →
     prhs !! 2 = Some a →
     IntToSickBaud (cast_int (mx_double a)) = SICK_BAUD_UNKNOWN →
     ∃ st' evs,
       initSick nlhs prhs st
       = MexErr (if size (sick_lms_map st) =? MAX_NUM_LMS_DEVICES
                 then ErrMaxDevices else ErrInvalidBaud) st' ∧
       log st' = log st ++ evs ∧
       initialized_with evs = [] ∧ created evs = []) ∧
  (∀ st, reachable st → SICK_BAUD_UNKNOWN ∉ initialized_with (log st)) ∧
  (∀ z, IntToSickBaud z = SICK_BAUD_UNKNOWN ↔
        z ∉ [9600; 19200; 38400; 500000]%Z) ∧
  (∀ s, StringToSickBaud s = SICK_BAUD_UNKNOWN ↔
        s ∉ ["9600"; "19200"; "38400"; "500000"]).
Proof.
  split; [| split; [| split; [| split; [| split]]]].
  - intros argv w Hlen Hbaud.
    unfold lms_simple_app_main, lms_set_variant_main. cbv zeta.
    rewrite (usage_not_wanted_3 _ Hlen), Hlen. simpl. by rewrite Hbaud.
  - intros argv w. split;
      [apply simple_app_never_sentinel | apply set_variant_never_sentinel].
  - intros nlhs prhs k a st Hst Hargs Ha Hbaud. apply reachable_ok in Hst.
    destruct (Nat.eqb_spec (size (sick_lms_map st)) MAX_NUM_LMS_DEVICES)
      as [Hfull | Hsz].
    + exists st, []. rewrite app_nil_r.
      by rewrite (initSick_full nlhs prhs k st Hargs Hfull).
    + by apply (initSick_sentinel nlhs prhs k a).
  - intros st Hst. apply reachable_ok in Hst.
    apply not_initialized_with, (reg_baud _ Hst).
  - intros z. unfold IntToSickBaud. rewrite !not_elem_of_cons.
    destruct (Z.eqb_spec z 9600) as [-> | ?]; [split; [done | tauto] |].
    destruct (Z.eqb_spec z 19200) as [-> | ?]; [split; [done | tauto] |].
    destruct (Z.eqb_spec z 38400) as [-> | ?]; [split; [done | tauto] |].
    destruct (Z.eqb_spec z 500000) as [-> | ?]; [split; [done | tauto] |].
    split; [| done]. intros _. repeat split; try done. apply not_elem_of_nil.
  - intros s. unfold StringToSickBaud. rewrite !not_elem_of_cons.
    destruct (String.eqb_spec s "9600") as [-> | ?]; [split; [done | tauto] |].
    destruct (String.eqb_spec s "19200") as [-> | ?]; [split; [done | tauto] |].
    destruct (String.eqb_spec s "38400") as [-> | ?]; [split; [done | tauto] |].
    destruct (String.eqb_spec s "500000") as [-> | ?]; [split; [done | tauto] |].
    split; [| done]. intros _. repeat split; try done. apply not_elem_of_nil.
Qed.

Lemma sentinel_baud_never_sent_witness :
  (lms_simple_app_main (drv := sim_driver)
     ["lms_simple_app"; "/dev/ttyUSB0"; "115200"] 0
   = ((-1)%Z, [CerrInvalidBaud], 0)) ∧
  (∃ st' evs,
     initSick (drv := sim_driver) 1
       [mxStr "init"; mxStr "/dev/ttyUSB0"; mxNum 115200]
       (sim_after sim_calls_one)
     = MexErr ErrInvalidBaud st' ∧
     log st' = log (sim_after sim_calls_one) ++ evs ∧
     initialized_with evs = [] ∧ created evs = []).
Proof.
  split.
  - apply (proj1 (sentinel_baud_never_sent (drv := sim_driver))
             ["lms_simple_app"; "/dev/ttyUSB0"; "115200"] 0);
      reflexivity.
  - destruct (proj1 (proj2 (proj2 (sentinel_baud_never_sent (drv := sim_driver))))
               1 [mxStr "init"; mxStr "/dev/ttyUSB0"; mxNum 115200]
               "/dev/ttyUSB0" (mxNum 115200) (sim_after sim_calls_one))
      as (st' & evs & Hrun & Hrest).
    + exact sim_reachable_one.
    + split; [reflexivity |]. split; [lia |]. eexists. split; reflexivity.
    + reflexivity.
    + reflexivity.
    + exists st', evs. split; [| exact Hrest]. rewrite Hrun.
      assert ((size (sick_lms_map (sim_after sim_calls_one))
               =? MAX_NUM_LMS_DEVICES) = false) as ->
        by (vm_compute; reflexivity).
      reflexivity.
Defined.

(** C6: the scan loops of the two examples. A round whose [GetSickScan]
    returns or times out writes its line and goes on to the next round with
    the session as that call left it; a round whose [GetSickScan] throws
    anything else ends the loop with that exception and calls the driver no
    more. So a loop over [n] rounds that ends normally has called
    [GetSickScan] exactly [n] times, each call answered by values or by a
    timeout that was written out, and a loop that ends by an exception ends
    by one that is no timeout. The programs run their loops over 10 rounds:
    a run that leaves with 0 has scanned 10 times in [lms_simple_app] and 20
    times in [lms_set_variant]. *)
Theorem scan_loop_tolerates_timeouts `{drv : SickDriver} :
  (∀ announce n st,
     match GetSickScan (sick_lms st) (app_world st) with
     | (Returns values, members, w) =>
         scan_loop announce (S n) st
         = scan_loop announce n
             (mkApp members w
                (app_log st ++ [AppGetSickScan; CoutNumValues (length values)]))
     | (Throws SickTimeoutException, members, w) =>
         scan_loop announce (S n) st
         = scan_loop announce n
             (mkApp members w
                (app_log st ++ [AppGetSickScan; CerrWhat SickTimeoutException]))
     | (Throws e, members, w) =>
         scan_loop announce (S n) st
         = (Throws e,
            mkApp members w
              (app_log st ++
               AppGetSickScan ::
               (if announce && is_SickException e then [CerrWhat e] else [])))
     end) ∧
  (∀ announce n st,
     ∃ evs,
       app_log (scan_loop announce n st).2 = app_log st ++ evs ∧
       match (scan_loop announce n st).1 with
       | Returns _ =>
           count is_scan evs = n ∧
           count is_timeout_report evs + count is_values_report evs = n
       | Throws e =>
           e ≠ SickTimeoutException ∧
           count is_scan evs ≤ n ∧
           count is_scan evs
           = S (count is_timeout_report evs + count is_values_report evs)
       end ∧
       count is_sentinel_initialize evs = 0 ∧
       count is_driver_call evs = count is_scan evs) ∧
  (∀ argv w evs w',
     lms_simple_app_main argv w = (0%Z, evs, w') →
     count is_scan evs = 10 ∧
     count is_timeout_report evs + count is_values_report evs = 10) ∧
  (∀ argv w evs w',
     lms_set_variant_main argv w = (0%Z, evs, w') →
     count is_scan evs = 20 ∧
     count is_timeout_report evs + count is_values_report evs = 20).
Proof.
  split; [| split; [| split]].
  - apply scan_loop_round.
  - apply scan_loop_counts.
  - apply simple_app_success.
  - apply set_variant_success.
Qed.

Lemma scan_loop_tolerates_timeouts_witness :
  (count is_scan sim_simple_run.1.2 = 10 ∧
   count is_timeout_report sim_simple_run.1.2
   + count is_values_report sim_simple_run.1.2 = 10) ∧
  (count is_scan sim_variant_run.1.2 = 20 ∧
   count is_timeout_report sim_variant_run.1.2
   + count is_values_report sim_variant_run.1.2 = 20).
Proof.
  split.
  - apply (proj1 (proj2 (proj2 (scan_loop_tolerates_timeouts (drv := sim_driver))))
             ["lms_simple_app"; "/dev/ttyUSB0"] 0 sim_simple_run.1.2
             sim_simple_run.2).
    vm_compute. reflexivity.
  - apply (proj2 (proj2 (proj2 (scan_loop_tolerates_timeouts (drv := sim_driver))))
             ["lms_set_variant"; "/dev/ttyUSB0"; "9600"] 0 sim_variant_run.1.2
             sim_variant_run.2).
    vm_compute. reflexivity.
Defined.

(** The scenario of the design document: ten scans against a device that
    lets the third and the seventh time out give eight answers and two
    timeouts, and the program ends well. *)
Example sim_simple_run_timeouts :
  sim_simple_run.1.1 = 0%Z ∧
  count is_values_report sim_simple_run.1.2 = 8 ∧
  count is_timeout_report sim_simple_run.1.2 = 2.
Proof. vm_compute. done. Qed.

(** * More of the bridge and of the example programs *)

(** ** Running the handlers on a session that is known *)

Section BridgeRuns.
Context `{drv : SickDriver}.
Local Open Scope mex_scope.
Implicit Types (st : mex_state) (k path : string) (l : loc) (obj : SickLMS).

Lemma resolves_length n prhs k st : resolves n prhs k st → length prhs ≤ S n.
Proof. intros [[-> _] | [-> _]]; lia. Qed.

Lemma device_path_arg_resolves st n prhs k l obj :
  resolves n prhs k st →
  sick_lms_map st !! k = Some (Some l) → heap st !! l = Some obj →
  GetSickDevicePath obj = k →
  device_path_arg n prhs st = Done k st.
Proof.
  intros [[Hn Hsz] | (Hn & a & Ha & Hs)] Hk Hl Hp.
  - by eapply device_path_arg_default.
  - rewrite (device_path_arg_explicit st n prhs a k Hn Ha Hs).
    rewrite bool_decide_eq_true_2; [done | by rewrite Hk].
Qed.

(** The head of [clearSick], [grabSickVals] and [printSickInfo] and of
    [setSickVariant], up to the test on [IsInitialized]. *)
Lemma clearSick_head st prhs k l obj :
  GetSickDevicePath obj = k → resolves 1 prhs k st →
  sick_lms_map st !! k = Some (Some l) → heap st !! l = Some obj →
  clearSick 0 prhs st
  = if IsInitialized (sick_members obj) then cleanup k st
    else MexErr ErrNotInitialized st.
Proof.
  intros Hok Hres Hk Hl.
  assert (is_Some (sick_lms_map st !! k)) as Hsome by eauto.
  pose proof (resolves_length _ _ _ _ Hres) as Hlen.
  unfold clearSick. cbv zeta.
  assert ((2 <? length prhs) = false) as -> by (apply Nat.ltb_ge; lia).
  change (0 <? 0) with false. cbv beta iota.
  rewrite bind_map_size, (registered_nonempty _ _ Hsome).
  rewrite (bind_done _ _ _ _ _ (device_path_arg_resolves _ _ _ _ _ _ Hres Hk Hl Hok)).
  rewrite (bind_done _ _ _ _ _ (sick_get_registered _ _ _ _ _ Hk Hl)).
  by destruct (IsInitialized (sick_members obj)).
Qed.

Lemma printSickInfo_head st prhs k l obj :
  GetSickDevicePath obj = k → resolves 1 prhs k st →
  sick_lms_map st !! k = Some (Some l) → heap st !! l = Some obj →
  printSickInfo 0 prhs st
  = if IsInitialized (sick_members obj) then
      Done tt
        (logged (EvPrintText (GetSickSoftwareVersionAsString (sick_members obj)))
           (logged (EvPrintText (GetSickStatusAsString (sick_members obj))) st))
    else MexErr ErrNotInitialized st.
Proof.
  intros Hok Hres Hk Hl.
  assert (is_Some (sick_lms_map st !! k)) as Hsome by eauto.
  pose proof (resolves_length _ _ _ _ Hres) as Hlen.
  unfold printSickInfo. cbv zeta.
  assert ((2 <? length prhs) = false) as -> by (apply Nat.ltb_ge; lia).
  change (0 <? 0) with false. cbv beta iota.
  rewrite bind_map_size, (registered_nonempty _ _ Hsome).
  rewrite (bind_done _ _ _ _ _ (device_path_arg_resolves _ _ _ _ _ _ Hres Hk Hl Hok)).
  rewrite (bind_done _ _ _ _ _ (sick_get_registered _ _ _ _ _ Hk Hl)).
  destruct (IsInitialized (sick_members obj)); cbn [negb]; [| done].
  cbv beta iota.
  rewrite (bind_done _ _ _ _ _ (sick_get_registered _ _ _ _ _ Hk Hl)).
  rewrite bind_emit.
  by rewrite (bind_done _ _ _ _ _
                (sick_get_registered (logged _ st) _ _ _ _ Hk Hl)).
Qed.

Lemma setSickVariant_head st prhs k l obj :
  GetSickDevicePath obj = k → resolves 3 prhs k st →
  sick_lms_map st !! k = Some (Some l) → heap st !! l = Some obj →
  setSickVariant 0 prhs st
  = if IsInitialized (sick_members obj) then
      if IsSickLMSFast (sick_members obj)
      then MexErr ErrVariantNotSupported st
      else
        (a1 <- prhs_at prhs 1 ;;
         let scan_angle := cast_int (mx_double a1) in
         let sick_scan_angle := IntToSickScanAngle scan_angle in
         if decide (sick_scan_angle = SICK_SCAN_ANGLE_UNKNOWN)
         then mexErrMsgTxt ErrInvalidScanAngle else
         a2 <- prhs_at prhs 2 ;;
         let scan_resolution := mx_double a2 in
         let sick_scan_resolution := DoubleToSickScanResolution scan_resolution in
         if decide (sick_scan_resolution = SICK_SCAN_RESOLUTION_UNKNOWN)
         then mexErrMsgTxt ErrInvalidScanResolution else
         emit (EvPrintAttempt scan_angle scan_resolution) ;;
         r <- sick_call k
                (λ l, EvSetSickVariant l sick_scan_angle sick_scan_resolution)
                (SetSickVariant sick_scan_angle sick_scan_resolution) ;;
         match r with
         | Returns _ => emit EvPrintVariantSet
         | Throws SickConfigException => mexErrMsgTxt ErrConfig
         | Throws _ => cleanup k ;; mexErrMsgTxt ErrOccurred
         end) st
    else MexErr ErrNotInitialized st.
Proof.
  intros Hok Hres Hk Hl.
  assert (is_Some (sick_lms_map st !! k)) as Hsome by eauto.
  pose proof (resolves_length _ _ _ _ Hres) as Hlen.
  unfold setSickVariant. cbv zeta.
  assert ((4 <? length prhs) = false) as -> by (apply Nat.ltb_ge; lia).
  change (0 <? 0) with false. cbv beta iota.
  rewrite bind_map_size, (registered_nonempty _ _ Hsome).
  rewrite (bind_done _ _ _ _ _ (device_path_arg_resolves _ _ _ _ _ _ Hres Hk Hl Hok)).
  rewrite (bind_done _ _ _ _ _ (sick_get_registered _ _ _ _ _ Hk Hl)).
  destruct (IsInitialized (sick_members obj)); cbn [negb]; [| done].
  cbv beta iota.
  rewrite (bind_done _ _ _ _ _ (sick_get_registered _ _ _ _ _ Hk Hl)).
  by destruct (IsSickLMSFast (sick_members obj)).
Qed.

Lemma called_lookup {R} st l obj ev (m : method sick_private sick_world R) :
  heap (called l obj ev m st) !! l
  = Some (mkSickLMS (GetSickDevicePath obj) (m (sick_members obj) (world st)).1.2).
Proof. unfold called. simpl. by rewrite lookup_insert_eq. Qed.

Lemma setSickVariant_tail st k l obj angle res (a : Z) (d : Q) :
  sick_lms_map st !! k = Some (Some l) → heap st !! l = Some obj →
  (emit (EvPrintAttempt a d) ;;
   r <- sick_call k (λ l, EvSetSickVariant l angle res)
          (SetSickVariant angle res) ;;
   match r with
   | Returns _ => emit EvPrintVariantSet
   | Throws SickConfigException => mexErrMsgTxt ErrConfig
   | Throws _ => cleanup k ;; mexErrMsgTxt ErrOccurred
   end) st
  = let after := SetSickVariant angle res (sick_members obj) (world st) in
    let st1 :=
      mkState (sick_lms_map st)
        (<[l := mkSickLMS (GetSickDevicePath obj) after.1.2]> (heap st))
        after.2
        (log st ++ [EvPrintAttempt a d; EvSetSickVariant l angle res]) in
    match after.1.1 with
    | Returns _ => Done tt (logged EvPrintVariantSet st1)
    | Throws SickConfigException => MexErr ErrConfig st1
    | Throws _ =>
        MexErr ErrOccurred
          (torn_down k l (mkSickLMS (GetSickDevicePath obj) after.1.2) st1)
    end.
Proof.
  intros Hk Hl. rewrite bind_emit.
  rewrite (bind_done _ _ _ _ _
             (sick_call_registered (logged _ st) k l obj _ _ Hk Hl)).
  cbv zeta. unfold called, logged. simpl.
  rewrite <- app_assoc. simpl.
  destruct (SetSickVariant angle res (sick_members obj) (world st))
    as [[r members] w]. simpl.
  destruct r as [[] | e]; [done |].
  destruct e; try done.
  all: erewrite bind_done; [reflexivity |];
    apply cleanup_registered; simpl; [done | by rewrite lookup_insert_eq].
Qed.

(** A [grab] that comes to an initialised session, from its scan to its
    end. *)
Lemma grabSickVals_run st nlhs prhs k l obj :
  GetSickDevicePath obj = k → nlhs ≤ 1 → resolves 1 prhs k st →
  sick_lms_map st !! k = Some (Some l) → heap st !! l = Some obj →
  IsInitialized (sick_members obj) = true →
  grabSickVals nlhs prhs st
  = let after := grab_scan (sick_members obj) (world st) in
    let st1 :=
      mkState (sick_lms_map st)
        (<[l := mkSickLMS (GetSickDevicePath obj) after.1.2]> (heap st))
        after.2 (log st ++ [EvGetSickScan l]) in
    match after.1.1 with
    | Returns (pri_values, sec_values) =>
        Done
          (grab_result (IsSickLMSFast after.1.2)
             (GetSickMeasuringMode after.1.2)
             (GetSickScanResolution after.1.2) (GetSickScanAngle after.1.2)
             pri_values sec_values)
          st1
    | Throws _ =>
        MexErr ErrOccurred
          (torn_down k l (mkSickLMS (GetSickDevicePath obj) after.1.2) st1)
    end.
Proof.
  intros Hok Hout Hres Hk Hl Hinit.
  assert (is_Some (sick_lms_map st !! k)) as Hsome by eauto.
  pose proof (resolves_length _ _ _ _ Hres) as Hlen.
  unfold grabSickVals. cbv zeta.
  assert ((2 <? length prhs) = false) as -> by (apply Nat.ltb_ge; lia).
  rewrite (proj1 (grab_entry_checks nlhs _ st Hout)). cbv beta iota.
  rewrite (proj2 (grab_entry_checks nlhs _ st Hout)). cbv beta iota.
  rewrite bind_map_size, (registered_nonempty _ _ Hsome).
  rewrite (bind_done _ _ _ _ _ (device_path_arg_resolves _ _ _ _ _ _ Hres Hk Hl Hok)).
  rewrite (bind_done _ _ _ _ _ (sick_get_registered _ _ _ _ _ Hk Hl)).
  rewrite Hinit. cbn [negb]. cbv beta iota.
  rewrite (bind_done _ _ _ _ _ (sick_get_registered _ _ _ _ _ Hk Hl)).
  assert (∀ after (st1 : mex_state),
            sick_lms_map st1 = sick_lms_map st →
            heap st1
            = <[l := mkSickLMS (GetSickDevicePath obj) after]> (heap st) →
            sick_lms_map st1 !! k = Some (Some l) ∧
            heap st1 !! l = Some (mkSickLMS (GetSickDevicePath obj) after))
    as Hafter.
  { intros after st1 -> ->. by rewrite lookup_insert_eq. }
  unfold grab_scan.
  destruct (IsSickLMSFast (sick_members obj)) eqn:Hfast.
  - rewrite (bind_done _ _ _ _ _ (sick_call_registered _ _ _ _ _ _ Hk Hl)).
    unfold called.
    destruct (GetSickScan2 (sick_members obj) (world st))
      as [[[[pri sec] | e] members] w]; simpl.
    + edestruct (Hafter members) as [Hk1 Hl1]; [| | 
        rewrite !(bind_done _ _ _ _ _
                    (sick_get_registered _ _ _ _ _ Hk1 Hl1))];
        [reflexivity | reflexivity |].
      simpl. unfold grab_result.
      destruct (IsSickLMSFast members); [done |]. by destruct (decide _).
    + edestruct (Hafter members) as [Hk1 Hl1]; [| |
        rewrite (bind_done _ _ _ _ _ (cleanup_registered _ _ _ _ Hk1 Hl1))];
        [reflexivity | reflexivity |].
      reflexivity.
  - rewrite bind_assoc.
    rewrite (bind_done _ _ _ _ _ (sick_call_registered _ _ _ _ _ _ Hk Hl)).
    unfold called. rewrite bind_ret.
    destruct (GetSickScan (sick_members obj) (world st))
      as [[[pri | e] members] w]; simpl.
    + edestruct (Hafter members) as [Hk1 Hl1]; [| | 
        rewrite !(bind_done _ _ _ _ _
                    (sick_get_registered _ _ _ _ _ Hk1 Hl1))];
        [reflexivity | reflexivity |].
      simpl. unfold grab_result.
      destruct (IsSickLMSFast members); [done |]. by destruct (decide _).
    + edestruct (Hafter members) as [Hk1 Hl1]; [| |
        rewrite (bind_done _ _ _ _ _ (cleanup_registered _ _ _ _ Hk1 Hl1))];
        [reflexivity | reflexivity |].
      reflexivity.
Qed.

Lemma fresh_loc_free st : heap st !! fresh (dom (heap st)) = None.
Proof. apply not_elem_of_dom, is_fresh. Qed.

(** An [init] of a path not yet registered, below the ceiling and with a
    baud rate that is one, from line 223 to its end. *)
Lemma initSick_fresh_run st nlhs prhs k a2 :
  init_args nlhs prhs k →
  size (sick_lms_map st) ≠ MAX_NUM_LMS_DEVICES →
  sick_lms_map st !! k = None → prhs !! 2 = Some a2 →
  IntToSickBaud (cast_int (mx_double a2)) ≠ SICK_BAUD_UNKNOWN →
  initSick nlhs prhs st
  = let sick_baud := IntToSickBaud (cast_int (mx_double a2)) in
    let l := fresh (dom (heap st)) in
    let after := Initialize sick_baud (SickLMS_ctor k) (world st) in
    let st1 :=
      mkState (<[k := Some l]> (sick_lms_map st))
        (<[l := mkSickLMS k after.1.2]> (heap st)) after.2
        (log st ++ [EvNew l k; EvPrintInitializing k; EvInitialize l sick_baud])
    in
    match after.1.1 with
    | Returns _ =>
        Done
          (mkInit k (IsSickLMSFast after.1.2)
             (bool_decide
                (GetSickMeasuringUnits after.1.2 = SICK_MEASURING_UNITS_MM))
             (GetSickMeasuringMode after.1.2))
          (logged (EvPrintInitialized sick_baud) st1)
    | Throws e =>
        MexErr (init_error e) (torn_down k l (mkSickLMS k after.1.2) st1)
    end.
Proof.
  intros (Hlen & Hle & a1 & Ha1 & Hs) Hsz Hk Ha Hbaud.
  unfold initSick. cbv zeta. rewrite Hlen.
  change (negb (3 =? 3)) with false. cbv iota.
  assert ((1 <? nlhs) = false) as -> by (apply Nat.ltb_ge; lia).
  cbv beta iota.
  rewrite (bind_prhs_at _ _ _ _ _ Ha1), Hs, bind_map_size.
  apply Nat.eqb_neq in Hsz. rewrite Hsz. cbv beta iota.
  rewrite bind_sickInMap, bool_decide_eq_false_2
    by (rewrite Hk; by intros [? ?]).
  cbv beta iota. rewrite bind_ret, (bind_prhs_at _ _ _ _ _ Ha).
  destruct (decide _) as [| _]; [done |].
  change (bind (sick_new k) ?f st) with (f tt (installed k st)).
  cbv beta. rewrite bind_emit.
  set (l := fresh (dom (heap st))).
  set (b := IntToSickBaud (cast_int (mx_double a2))).
  assert (sick_lms_map (logged (EvPrintInitializing k) (installed k st)) !! k
          = Some (Some l)) as Hk1 by (simpl; by rewrite lookup_insert_eq).
  assert (heap (logged (EvPrintInitializing k) (installed k st)) !! l
          = Some (new_SickLMS k)) as Hl1 by (simpl; by rewrite lookup_insert_eq).
  rewrite (bind_done _ _ _ _ _ (sick_call_registered _ _ _ _ _ _ Hk1 Hl1)).
  unfold called, logged, installed, new_SickLMS. simpl. fold l.
  rewrite insert_insert_eq, <- !app_assoc. simpl.
  destruct (Initialize b (SickLMS_ctor k) (world st)) as [[r members] w].
  simpl. destruct r as [[] | e].
  - rewrite bind_emit.
    set (st2 := logged _ _).
    assert (sick_lms_map st2 !! k = Some (Some l)) as Hk2
      by (simpl; by rewrite lookup_insert_eq).
    assert (heap st2 !! l = Some (mkSickLMS k members)) as Hl2
      by (simpl; by rewrite lookup_insert_eq).
    rewrite !(bind_done _ _ _ _ _ (sick_get_registered _ _ _ _ _ Hk2 Hl2)).
    unfold ret, st2, logged. simpl. by rewrite <- app_assoc.
  - set (st2 := mkState _ _ _ _).
    assert (sick_lms_map st2 !! k = Some (Some l)) as Hk2
      by (simpl; by rewrite lookup_insert_eq).
    assert (heap st2 !! l = Some (mkSickLMS k members)) as Hl2
      by (simpl; by rewrite lookup_insert_eq).
    destruct e; simpl;
      by rewrite (bind_done _ _ _ _ _ (cleanup_registered _ _ _ _ Hk2 Hl2)).
Qed.

Lemma grabSickVals_cold st nlhs prhs k l obj :
  GetSickDevicePath obj = k → nlhs ≤ 1 → resolves 1 prhs k st →
  sick_lms_map st !! k = Some (Some l) → heap st !! l = Some obj →
  IsInitialized (sick_members obj) = false →
  grabSickVals nlhs prhs st = MexErr ErrNotInitialized st.
Proof.
  intros Hok Hout Hres Hk Hl Hinit.
  assert (is_Some (sick_lms_map st !! k)) as Hsome by eauto.
  pose proof (resolves_length _ _ _ _ Hres) as Hlen.
  unfold grabSickVals. cbv zeta.
  assert ((2 <? length prhs) = false) as -> by (apply Nat.ltb_ge; lia).
  rewrite (proj1 (grab_entry_checks nlhs _ st Hout)). cbv beta iota.
  rewrite (proj2 (grab_entry_checks nlhs _ st Hout)). cbv beta iota.
  rewrite bind_map_size, (registered_nonempty _ _ Hsome).
  rewrite (bind_done _ _ _ _ _ (device_path_arg_resolves _ _ _ _ _ _ Hres Hk Hl Hok)).
  rewrite (bind_done _ _ _ _ _ (sick_get_registered _ _ _ _ _ Hk Hl)).
  by rewrite Hinit.
Qed.

(** [strcasecmp] compares up to case: two words that equal a third equal
    each other. *)
Lemma strcasecmp_eq_join w a b :
  strcasecmp_eq w a = true → strcasecmp_eq w b = true →
  strcasecmp_eq a b = true.
Proof.
  revert a b. induction w as [| x w IH]; intros [| y a] [| z b]; simpl;
    try done.
  intros [Hxy Ha]%andb_true_iff [Hxz Hb]%andb_true_iff.
  apply andb_true_iff. split; [| by apply IH].
  apply Ascii.eqb_eq in Hxy, Hxz. apply Ascii.eqb_eq. congruence.
Qed.

Lemma command_name_apart w c c' :
  strcasecmp_eq w (command_name c) = true → c ≠ c' →
  strcasecmp_eq w (command_name c') = false.
Proof.
  intros Hc Hne. destruct (strcasecmp_eq w (command_name c')) eqn:Hc'; [| done].
  pose proof (strcasecmp_eq_join _ _ _ Hc Hc') as H.
  by destruct c, c'.
Qed.

Lemma handler_first_argument c nlhs a b args :
  handler c nlhs (a :: args) = handler c nlhs (b :: args).
Proof. by destruct c. Qed.

Lemma mexFunction_word c nlhs a w args :
  mxGetString a = Some w → strcasecmp_eq w (command_name c) = true →
  mexFunction nlhs (a :: args) = handler c nlhs (a :: args).
Proof.
  intros Hs Hc. unfold mexFunction. cbv zeta. simpl. unfold prhs_at. simpl.
  change (bind (ret a) ?f) with (f a). cbv beta. rewrite Hs.
  destruct c.
  all: try (assert (strcasecmp_eq w "init" = false) as ->
              by (by apply (command_name_apart w _ CmdInit Hc))).
  all: try (assert (strcasecmp_eq w "clear" = false) as ->
              by (by apply (command_name_apart w _ CmdClear Hc))).
  all: try (assert (strcasecmp_eq w "variant" = false) as ->
              by (by apply (command_name_apart w _ CmdVariant Hc))).
  all: try (assert (strcasecmp_eq w "grab" = false) as ->
              by (by apply (command_name_apart w _ CmdGrab Hc))).
  all: simpl in Hc; by rewrite Hc.
Qed.

End BridgeRuns.

(** ** No undefined behaviour: rules for [total] *)

Section BridgeTotal.
Context `{drv : SickDriver}.
Local Open Scope mex_scope.
Implicit Types (st : mex_state) (k path : string) (l : loc) (obj : SickLMS).

Lemma total_ret {A} P (a : A) Q E :
  (∀ st, P st → Q a st) → total P (ret a) Q E.
Proof. intros H st HP. by apply H. Qed.

Lemma total_bind_ret {A B} P (a : A) (k : A → M B) Q E :
  total P (k a) Q E → total P (bind (ret a) k) Q E.
Proof. intros H st HP. by apply H. Qed.

Lemma total_err {A} P e (Q : A → mex_state → Prop) E :
  (∀ st, P st → E e st) → total P (mexErrMsgTxt e) Q E.
Proof. intros H st HP. by apply H. Qed.

Lemma total_bind {A B} P (m : M A) (k : A → M B) R Q E :
  total P m R E → (∀ a, total (R a) (k a) Q E) → total P (bind m k) Q E.
Proof.
  intros Hm Hk st HP. unfold bind. specialize (Hm st HP).
  destruct (m st) as [a st' | e st' | st']; [| done | done].
  by apply Hk.
Qed.

Lemma total_weaken {A} (P P' : mex_state → Prop) (m : M A)
    (Q Q' : A → mex_state → Prop) (E E' : mex_error → mex_state → Prop) :
  total P m Q E →
  (∀ st, P' st → P st) → (∀ a st, Q a st → Q' a st) →
  (∀ e st, E e st → E' e st) →
  total P' m Q' E'.
Proof.
  intros H HP HQ HE st Hst. specialize (H st (HP _ Hst)).
  destruct (m st); eauto.
Qed.

Lemma total_map_size P E :
  total P map_size (λ n st, P st ∧ n = size (sick_lms_map st)) E.
Proof. by intros st HP. Qed.

Lemma total_sickInMap P k E :
  total P (sickInMap k)
    (λ b st, P st ∧ b = bool_decide (is_Some (sick_lms_map st !! k))) E.
Proof. by intros st HP. Qed.

Lemma total_prhs_at P prhs i E :
  i < length prhs →
  total P (prhs_at prhs i) (λ a st, P st ∧ prhs !! i = Some a) E.
Proof.
  intros Hi st HP. unfold prhs_at.
  destruct (lookup_lt_is_Some_2 prhs i Hi) as [a Ha]. by rewrite Ha.
Qed.

Lemma total_sick_get {R} P k (get : sick_private → R) E :
  (∀ st, P st → registered k st) →
  total P (sick_get k get) (λ _ st, P st) E.
Proof.
  intros Hreg st HP. destruct (Hreg st HP) as (l & obj & Hk & Hl).
  by rewrite (sick_get_registered _ _ _ _ _ Hk Hl).
Qed.

Lemma total_emit P e Q E :
  (∀ st, P st → Q tt (logged e st)) → total P (emit e) Q E.
Proof. intros H st HP. by apply H. Qed.

Lemma total_sick_call {R} P k ev (m : method sick_private sick_world R) Q E :
  (∀ st, P st → registered k st) →
  (∀ st l obj, P st →
     sick_lms_map st !! k = Some (Some l) → heap st !! l = Some obj →
     Q (m (sick_members obj) (world st)).1.1 (called l obj ev m st)) →
  total P (sick_call k ev m) Q E.
Proof.
  intros Hreg H st HP. destruct (Hreg st HP) as (l & obj & Hk & Hl).
  rewrite (sick_call_registered _ _ _ _ _ _ Hk Hl). by apply H.
Qed.

Lemma total_cleanup P k Q E :
  (∀ st, P st → ∃ l obj,
     sick_lms_map st !! k = Some (Some l) ∧ heap st !! l = Some obj ∧
     Q tt (torn_down k l obj st)) →
  total P (cleanup k) Q E.
Proof.
  intros H st HP. destruct (H st HP) as (l & obj & Hk & Hl & HQ).
  by rewrite (cleanup_registered _ _ _ _ Hk Hl).
Qed.

Lemma total_sick_new P k Q E :
  (∀ st, P st → Q tt (installed k st)) → total P (sick_new k) Q E.
Proof.
  intros H st HP. change (sick_new k st) with (Done tt (installed k st)).
  by apply H.
Qed.

(** The path is settled without a fault when it is left out or named. *)
Lemma device_path_arg_total n prhs :
  length prhs = n ∨ length prhs = S n →
  total (λ st, registry_ok st ∧ sick_lms_map st ≠ ∅) (device_path_arg n prhs)
    (λ k st, registry_ok st ∧ registered k st) (λ _, registry_ok).
Proof.
  intros Hlen st [Hok Hne].
  destruct Hlen as [Hn | Hn].
  - destruct (decide (size (sick_lms_map st) = 1)) as [Hsz | Hsz].
    + destruct (map_begin_nonempty st Hne) as (k & p & Hk & _).
      destruct (reg_entry _ Hok _ _ Hk) as (l & obj & -> & Hl & Hp).
      rewrite (device_path_arg_default st n prhs k l obj Hn Hsz Hk Hl Hp).
      split; [done |]. by exists l, obj.
    + by rewrite (device_path_arg_multiple st n prhs Hn Hsz).
  - destruct (lookup_lt_is_Some_2 prhs n ltac:(lia)) as [a Ha].
    destruct (mxGetString a) as [k |] eqn:Hs.
    + rewrite (device_path_arg_explicit st n prhs a k Hn Ha Hs).
      destruct (bool_decide _) eqn:Hin; [| done].
      apply bool_decide_eq_true in Hin. split; [done |].
      by apply registered_entry.
    + unfold device_path_arg. cbv zeta. rewrite Hn.
      assert ((S n =? n) = false) as -> by (apply Nat.eqb_neq; lia).
      rewrite Nat.eqb_refl, bind_ret, (bind_prhs_at _ _ _ _ _ Ha), Hs. done.
Qed.


Lemma registered_logged st k e : registered k st → registered k (logged e st).
Proof. by intros (l & obj & Hk & Hl); exists l, obj. Qed.

Lemma total_get_frame {R} k (get : sick_private → R) E :
  total (λ st, registry_ok st ∧ registered k st) (sick_get k get)
    (λ _ st, registry_ok st ∧ registered k st) E.
Proof. apply total_sick_get. by intros st [_ H]. Qed.

Lemma total_emit_frame k e E :
  quiet e = true →
  total (λ st, registry_ok st ∧ registered k st) (emit e)
    (λ _ st, registry_ok st ∧ registered k st) E.
Proof.
  intros Hq. apply total_emit. intros st [Hok Hreg].
  split; [by apply registry_ok_logged | by apply registered_logged].
Qed.

Lemma total_emit_last k e E :
  quiet e = true →
  total (λ st, registry_ok st ∧ registered k st) (emit e) (λ _, registry_ok) E.
Proof.
  intros Hq. apply total_emit. intros st [Hok Hreg].
  by apply registry_ok_logged.
Qed.

Lemma total_call_frame {R} k ev (m : method sick_private sick_world R) E :
  (∀ l, quiet (ev l) = true) →
  total (λ st, registry_ok st ∧ registered k st) (sick_call k ev m)
    (λ _ st, registry_ok st ∧ registered k st) E.
Proof.
  intros Hq. apply total_sick_call; [by intros st [_ H] |].
  intros st l obj [Hok _] Hk Hl. split.
  - eapply registry_ok_called; eauto.
  - by apply registered_called.
Qed.

Lemma total_cleanup_frame k E :
  total (λ st, registry_ok st ∧ registered k st) (cleanup k)
    (λ _, registry_ok) E.
Proof. apply total_cleanup. intros st [Hok Hreg]. by apply torn_down_ok. Qed.

Lemma total_cleanup_err {A} k e :
  total (λ st, registry_ok st ∧ registered k st)
    (bind (cleanup k) (λ _, mexErrMsgTxt e))
    (λ _ : A, registry_ok) (λ _, registry_ok).
Proof.
  eapply total_bind; [apply total_cleanup_frame | intros ?].
  by apply total_err.
Qed.

(** What the handlers that take a path have in common after the tests on
    the numbers of arguments: the registry is looked at, the path settled,
    and the rest runs on a registered session. *)
Lemma total_on_session {A} n prhs (rest : string → M A) :
  length prhs = n ∨ length prhs = S n →
  (∀ k, total (λ st, registry_ok st ∧ registered k st) (rest k)
          (λ _, registry_ok) (λ _, registry_ok)) →
  total registry_ok
    (sz <- map_size ;;
     if sz =? 0 then mexErrMsgTxt ErrNoDevice
     else sick_dev_path <- device_path_arg n prhs ;; rest sick_dev_path)
    (λ _, registry_ok) (λ _, registry_ok).
Proof.
  intros Hlen Hrest.
  eapply total_bind; [apply total_map_size | intros sz; cbv beta].
  destruct (sz =? 0) eqn:Hsz; [apply total_err; by intros st [H _] |].
  eapply total_bind; [| exact Hrest].
  eapply total_weaken; [apply (device_path_arg_total n prhs Hlen) | | done | done].
  intros st [Hok ->]. split; [done |]. intros Hempty.
  rewrite Hempty, map_size_empty in Hsz. done.
Qed.

Lemma clearSick_total nlhs prhs :
  1 ≤ length prhs →
  total registry_ok (clearSick nlhs prhs) (λ _, registry_ok) (λ _, registry_ok).
Proof.
  intros Hlen. unfold clearSick. cbv zeta.
  destruct (2 <? length prhs) eqn:Hn; [by apply total_err |].
  destruct (0 <? nlhs); [by apply total_err |].
  apply Nat.ltb_ge in Hn. apply total_on_session; [lia |]. intros k.
  eapply total_bind; [apply total_get_frame | intros initialized; cbv beta].
  destruct (negb initialized); [apply total_err; by intros st [H _] |].
  apply total_cleanup_frame.
Qed.

Lemma printSickInfo_total nlhs prhs :
  1 ≤ length prhs →
  total registry_ok (printSickInfo nlhs prhs)
    (λ _, registry_ok) (λ _, registry_ok).
Proof.
  intros Hlen. unfold printSickInfo. cbv zeta.
  destruct (2 <? length prhs) eqn:Hn; [by apply total_err |].
  destruct (0 <? nlhs); [by apply total_err |].
  apply Nat.ltb_ge in Hn. apply total_on_session; [lia |]. intros k.
  eapply total_bind; [apply total_get_frame | intros initialized; cbv beta].
  destruct (negb initialized); [apply total_err; by intros st [H _] |].
  eapply total_bind; [apply total_get_frame | intros status; cbv beta].
  eapply total_bind; [by apply total_emit_frame | intros ?; cbv beta].
  eapply total_bind; [apply total_get_frame | intros version; cbv beta].
  by apply total_emit_last.
Qed.

Lemma setSickVariant_total nlhs prhs :
  3 ≤ length prhs →
  total registry_ok (setSickVariant nlhs prhs)
    (λ _, registry_ok) (λ _, registry_ok).
Proof.
  intros Hlen. unfold setSickVariant. cbv zeta.
  destruct (4 <? length prhs) eqn:Hn; [by apply total_err |].
  destruct (0 <? nlhs); [by apply total_err |].
  apply Nat.ltb_ge in Hn. apply total_on_session; [lia |]. intros k.
  eapply total_bind; [apply total_get_frame | intros initialized; cbv beta].
  destruct (negb initialized); [apply total_err; by intros st [H _] |].
  eapply total_bind; [apply total_get_frame | intros lms_fast; cbv beta].
  destruct lms_fast; [apply total_err; by intros st [H _] |].
  eapply total_bind; [apply total_prhs_at; lia | intros a1; cbv beta zeta].
  destruct (decide _); [apply total_err; by intros st [[H _] _] |].
  eapply total_bind; [apply total_prhs_at; lia | intros a2; cbv beta zeta].
  destruct (decide _); [apply total_err; by intros st [[[H _] _] _] |].
  eapply total_bind with (R := λ _ st, registry_ok st ∧ registered k st).
  { apply total_emit. intros st [[[Hok Hreg] _] _].
    split; [by apply registry_ok_logged | by apply registered_logged]. }
  intros ?. cbv beta.
  eapply total_bind; [by apply total_call_frame | intros r; cbv beta].
  destruct r as [[] | e].
  - by apply total_emit_last.
  - destruct e; try apply total_cleanup_err.
    apply total_err. by intros st [H _].
Qed.

Lemma grabSickVals_total nlhs prhs :
  1 ≤ length prhs → nlhs ≤ 1 →
  total registry_ok (grabSickVals nlhs prhs)
    (λ _, registry_ok) (λ _, registry_ok).
Proof.
  intros Hlen Hout. unfold grabSickVals. cbv zeta.
  destruct (2 <? length prhs) eqn:Hn; [by apply total_err |].
  assert ((2 <? nlhs) = false) as -> by (apply Nat.ltb_ge; lia).
  assert ((1 <? nlhs) = false) as -> by (apply Nat.ltb_ge; lia).
  apply total_bind_ret. cbv beta iota.
  apply total_bind_ret. cbv beta iota.
  apply Nat.ltb_ge in Hn. apply total_on_session; [lia |]. intros k.
  eapply total_bind; [apply total_get_frame | intros initialized; cbv beta].
  destruct (negb initialized); [apply total_err; by intros st [H _] |].
  eapply total_bind; [apply total_get_frame | intros lms_fast; cbv beta].
  eapply total_bind with (R := λ _ st, registry_ok st ∧ registered k st).
  { destruct lms_fast; [by apply total_call_frame |].
    eapply total_bind; [by apply total_call_frame | intros r].
    by apply total_ret. }
  intros [[pri sec] | e]; [| apply total_cleanup_err].
  eapply total_bind; [apply total_get_frame | intros mode; cbv beta].
  eapply total_bind; [apply total_get_frame | intros res; cbv beta].
  eapply total_bind; [apply total_get_frame | intros fov; cbv beta zeta].
  eapply total_bind; [apply total_get_frame | intros fast; cbv beta].
  destruct fast; [apply total_ret; by intros st [H _] |].
  destruct (decide _); apply total_ret; by intros st [H _].
Qed.


Lemma registered_installed st k : registered k (installed k st).
Proof.
  eexists _, _. simpl. split; by rewrite lookup_insert_eq.
Qed.

(** The part of [initSick] from line 217 on. *)
Lemma initSick_tail_total k prhs :
  length prhs = 3 →
  total (λ st, registry_ok st ∧ sick_lms_map st !! k = None ∧
               size (sick_lms_map st) < MAX_NUM_LMS_DEVICES)
    (a2 <- prhs_at prhs 2 ;;
     let sick_baud := IntToSickBaud (cast_int (mx_double a2)) in
     if decide (sick_baud = SICK_BAUD_UNKNOWN) then mexErrMsgTxt ErrInvalidBaud
     else
       sick_new k ;;
       emit (EvPrintInitializing k) ;;
       r <- sick_call k (λ l, EvInitialize l sick_baud) (Initialize sick_baud) ;;
       match r with
       | Returns _ =>
           emit (EvPrintInitialized sick_baud) ;;
           lms_fast <- sick_get k IsSickLMSFast ;;
           units <- sick_get k GetSickMeasuringUnits ;;
           meas_mode <- sick_get k GetSickMeasuringMode ;;
           ret (mkInit k lms_fast
                  (bool_decide (units = SICK_MEASURING_UNITS_MM)) meas_mode)
       | Throws SickIOException => cleanup k ;; mexErrMsgTxt ErrIO
       | Throws _ => cleanup k ;; mexErrMsgTxt ErrOccurred
       end)
    (λ _, registry_ok) (λ _, registry_ok).
Proof.
  intros Hlen.
  eapply total_bind; [apply total_prhs_at; lia | intros a2; cbv beta zeta].
  destruct (decide _) as [| Hbaud]; [apply total_err; by intros st [[H _] _] |].
  assert (∀ l, quiet (EvInitialize l (IntToSickBaud (cast_int (mx_double a2))))
               = true) as Hq.
  { intros l. simpl. by destruct (IntToSickBaud _). }
  eapply total_bind with (R := λ _ st, registry_ok st ∧ registered k st).
  { apply total_sick_new. intros st [(Hok & Hk & Hsz) _].
    split; [by apply registry_ok_installed | apply registered_installed]. }
  intros ?. cbv beta.
  eapply total_bind; [by apply total_emit_frame | intros ?; cbv beta].
  eapply total_bind; [by apply total_call_frame | intros r; cbv beta].
  destruct r as [[] | e].
  - eapply total_bind.
    { apply total_emit_frame. simpl. by destruct (IntToSickBaud _). }
    intros ?. cbv beta.
    eapply total_bind; [apply total_get_frame | intros lms_fast; cbv beta].
    eapply total_bind; [apply total_get_frame | intros units; cbv beta].
    eapply total_bind; [apply total_get_frame | intros meas_mode; cbv beta].
    apply total_ret. by intros st [H _].
  - destruct e; apply total_cleanup_err.
Qed.

Lemma initSick_total nlhs prhs :
  total registry_ok (initSick nlhs prhs) (λ _, registry_ok) (λ _, registry_ok).
Proof.
  unfold initSick. cbv zeta.
  destruct (negb (length prhs =? 3)) eqn:Hn; [by apply total_err |].
  apply negb_false_iff, Nat.eqb_eq in Hn.
  destruct (1 <? nlhs); [by apply total_err |].
  eapply total_bind; [apply total_prhs_at; lia | intros a1; cbv beta].
  destruct (mxGetString a1) as [k |]; [| apply total_err; by intros st [H _]].
  eapply total_bind; [apply total_map_size | intros sz; cbv beta].
  destruct (sz =? MAX_NUM_LMS_DEVICES) eqn:Hsz;
    [apply total_err; by intros st [[H _] _] |].
  cbv zeta.
  eapply total_bind; [apply total_sickInMap | intros present; cbv beta].
  eapply total_bind with
    (R := λ _ st, registry_ok st ∧ sick_lms_map st !! k = None ∧
                  size (sick_lms_map st) < MAX_NUM_LMS_DEVICES);
    [| intros ?; by apply initSick_tail_total].
  destruct present.
  - eapply total_weaken with
      (P := λ st, (registry_ok st ∧ sz = size (sick_lms_map st)) ∧
                  registered k st);
      [| | intros ? ? H; exact H | intros ? ? H; exact H].
    2: { intros st [[[Hok _] Hsize] Hin]. symmetry in Hin.
         apply bool_decide_eq_true in Hin.
         split; [done |]. by apply registered_entry. }
    eapply total_bind;
      [apply total_sick_get; by intros st [_ H] | intros initialized; cbv beta].
    eapply total_bind with
      (R := λ _ st, (registry_ok st ∧ sz = size (sick_lms_map st)) ∧
                    registered k st).
    + destruct initialized; [| by apply total_ret].
      apply total_emit. intros st [[Hok Hsize] Hreg].
      split; [split |]; [by apply registry_ok_logged | done |].
      by apply registered_logged.
    + intros ?. apply total_cleanup. intros st [[Hok Hsize] Hreg].
      by eapply present_facts.
  - apply total_ret. intros st [[[Hok _] Hsize] Hin]. split; [done |].
    by eapply absent_facts.
Qed.

Lemma mexFunction_total nlhs prhs :
  sound_call nlhs prhs →
  total registry_ok (mexFunction nlhs prhs)
    (λ _, registry_ok) (λ _, registry_ok).
Proof.
  intros Hsound. unfold mexFunction. cbv zeta.
  destruct prhs as [| a args]; [by apply total_err |].
  change (length (a :: args) =? 0) with false. cbv iota.
  apply total_bind_ret. cbv beta.
  unfold sound_call in Hsound.
  destruct (mxGetString a) as [w |]; [| by apply total_err].
  destruct Hsound as [Hgrab Hvariant].
  assert (∀ {A B} (m : M A) (f : A → option B),
            total registry_ok m (λ _, registry_ok) (λ _, registry_ok) →
            total registry_ok (bind m (λ x, ret (f x)))
              (λ _, registry_ok) (λ _, registry_ok)) as Hwrap.
  { intros A B m f Hm. eapply total_bind; [exact Hm | intros x].
    by apply total_ret. }
  destruct (strcasecmp_eq w "init");
    [apply (Hwrap _ _ _ (λ s, Some (OutInit s))), initSick_total |].
  destruct (strcasecmp_eq w "clear");
    [apply (Hwrap _ _ _ (λ _, None)), clearSick_total; simpl; lia |].
  destruct (strcasecmp_eq w "variant");
    [apply (Hwrap _ _ _ (λ _, None)), setSickVariant_total; by apply Hvariant |].
  destruct (strcasecmp_eq w "grab");
    [apply (Hwrap _ _ _ (λ g, Some (OutGrab g))), grabSickVals_total;
       [simpl; lia | by apply Hgrab] |].
  destruct (strcasecmp_eq w "info");
    [apply (Hwrap _ _ _ (λ _, None)), printSickInfo_total; simpl; lia |].
  by apply total_err.
Qed.

Lemma run_app calls calls' st :
  run (calls ++ calls') st = run calls st ≫= run calls'.
Proof.
  revert st. induction calls as [| [nlhs prhs] calls IH]; intros st; [done |].
  simpl. destruct (mexFunction nlhs prhs st); by rewrite ?IH.
Qed.

End BridgeTotal.

(** ** Further properties of the bridge *)

(** X1: the command word is compared without regard to case. A first
    argument that reads as one of the five command names up to case is
    handled exactly as that name; one that reads as none of them is refused
    as unrecognised, with nothing touched. *)
Theorem dispatch_ignores_case `{drv : SickDriver} nlhs a w args st :
  mxGetString a = Some w →
  (∀ c, strcasecmp_eq w (command_name c) = true →
     mexFunction nlhs (a :: args) st
     = mexFunction nlhs (mxStr (command_name c) :: args) st) ∧
  ((∀ c, strcasecmp_eq w (command_name c) = false) →
     mexFunction nlhs (a :: args) st = MexErr ErrUnrecognizedCommand st).
Proof.
  intros Hs. split.
  - intros c Hc. rewrite (mexFunction_word c nlhs a w args Hs Hc).
    rewrite mexFunction_dispatch.
    apply (f_equal (λ h, h st)), handler_first_argument.
  - intros Hnone. unfold mexFunction. cbv zeta. simpl. unfold prhs_at. simpl.
    change (bind (ret a) ?f) with (f a). cbv beta. rewrite Hs.
    rewrite (Hnone CmdInit : strcasecmp_eq w "init" = false).
    rewrite (Hnone CmdClear : strcasecmp_eq w "clear" = false).
    rewrite (Hnone CmdVariant : strcasecmp_eq w "variant" = false).
    rewrite (Hnone CmdGrab : strcasecmp_eq w "grab" = false).
    by rewrite (Hnone CmdInfo : strcasecmp_eq w "info" = false).
Qed.

Lemma dispatch_ignores_case_witness :
  mexFunction (drv := sim_driver) 1 [mxStr "Grab"] (sim_after sim_calls_one)
  = mexFunction (drv := sim_driver) 1 [mxStr "grab"] (sim_after sim_calls_one).
Proof.
  apply (proj1 (dispatch_ignores_case (drv := sim_driver) 1 (mxStr "Grab")
                  "Grab" [] (sim_after sim_calls_one) eq_refl) CmdGrab).
  reflexivity.
Defined.

(** X2: a call that ends in an error other than the four raised after the
    registry or a session was touched (invalid baud rate, I/O error,
    an error occurred, config error) leaves the state of the process exactly
    as it found it: registry, sessions, the world outside and what was
    printed. *)
Theorem early_errors_leave_state `{drv : SickDriver} nlhs prhs st e st' :
  mexFunction nlhs prhs st = MexErr e st' → late_error e = false → st' = st.
Proof.
  intros Hrun Hearly. pose proof (mexFunction_early nlhs prhs st st eq_refl) as H.
  rewrite Hrun in H. by apply H.
Qed.

Lemma early_errors_leave_state_witness :
  state_of (mexFunction (drv := sim_driver) 0 [mxStr "info"]
              (sim_after sim_calls_three))
  = sim_after sim_calls_three.
Proof.
  apply (early_errors_leave_state (drv := sim_driver) 0 [mxStr "info"]
           (sim_after sim_calls_three) ErrMultipleDevices).
  - vm_compute. reflexivity.
  - reflexivity.
Defined.

(** X3: between two calls the registry and the sessions on the free store
    match one to one: no entry holds a NULL pointer, every entry points at a
    live session constructed with the entry's path, every live session is
    owned by the entry of its path (none is leaked), and there are as many
    sessions as entries. *)
Theorem registry_matches_heap `{drv : SickDriver} st :
  reachable st →
  (∀ k p, sick_lms_map st !! k = Some p →
     ∃ l obj, p = Some l ∧ heap st !! l = Some obj ∧ GetSickDevicePath obj = k) ∧
  (∀ l obj, heap st !! l = Some obj →
     sick_lms_map st !! GetSickDevicePath obj = Some (Some l)) ∧
  size (heap st) = size (sick_lms_map st).
Proof.
  intros Hst. apply reachable_ok in Hst.
  split; [apply (reg_entry _ Hst) |]. split; [apply (reg_owned _ Hst) |].
  rewrite <- !length_map_to_list.
  rewrite <- (length_fmap (λ lo, GetSickDevicePath lo.2) (map_to_list (heap st))).
  rewrite <- (length_fmap fst (map_to_list (sick_lms_map st))).
  apply Permutation_length, NoDup_Permutation.
  - apply NoDup_fmap_2_strong; [| apply NoDup_map_to_list].
    intros [l1 o1] [l2 o2] H1%elem_of_map_to_list H2%elem_of_map_to_list Hp.
    simpl in Hp. pose proof (reg_owned _ Hst _ _ H1) as E1.
    pose proof (reg_owned _ Hst _ _ H2) as E2. rewrite Hp in E1.
    assert (l1 = l2) as -> by congruence. congruence.
  - apply NoDup_fst_map_to_list.
  - intros k. rewrite !list_elem_of_fmap. split.
    + intros ([l obj] & -> & Hin%elem_of_map_to_list). simpl.
      exists (GetSickDevicePath obj, Some l). split; [done |].
      apply elem_of_map_to_list. by apply (reg_owned _ Hst).
    + intros ([k' p] & -> & Hin%elem_of_map_to_list). simpl.
      destruct (reg_entry _ Hst _ _ Hin) as (l & obj & -> & Hl & Hp).
      exists (l, obj). split; [done |]. by apply elem_of_map_to_list.
Qed.

Lemma registry_matches_heap_witness :
  size (heap (sim_after sim_calls_three))
  = size (sick_lms_map (sim_after sim_calls_three)).
Proof.
  apply (registry_matches_heap (drv := sim_driver) (sim_after sim_calls_three)).
  exact sim_reachable_three.
Defined.

(** X4: an [init] of a path not yet registered, below the ceiling, with a
    baud rate that converts, whose [Initialize] returns: one session is
    constructed at a fresh address with the path, initialised at the
    converted baud rate and entered under the path, the other entries and
    sessions stay as they were, and the struct handed back carries the path,
    whether the unit is an LMS Fast, whether it measures in millimetres, and
    its measuring mode, as the new session reports them. *)
Theorem init_registers_session `{drv : SickDriver} nlhs prhs k a2 st members w :
  init_args nlhs prhs k →
  size (sick_lms_map st) ≠ MAX_NUM_LMS_DEVICES →
  sick_lms_map st !! k = None → prhs !! 2 = Some a2 →
  IntToSickBaud (cast_int (mx_double a2)) ≠ SICK_BAUD_UNKNOWN →
  Initialize (IntToSickBaud (cast_int (mx_double a2))) (SickLMS_ctor k) (world st)
  = (Returns tt, members, w) →
  heap st !! fresh (dom (heap st)) = None ∧
  initSick nlhs prhs st
  = Done
      (mkInit k (IsSickLMSFast members)
         (bool_decide (GetSickMeasuringUnits members = SICK_MEASURING_UNITS_MM))
         (GetSickMeasuringMode members))
      (mkState (<[k := Some (fresh (dom (heap st)))]> (sick_lms_map st))
         (<[fresh (dom (heap st)) := mkSickLMS k members]> (heap st)) w
         (log st ++
          [EvNew (fresh (dom (heap st))) k; EvPrintInitializing k;
           EvInitialize (fresh (dom (heap st)))
             (IntToSickBaud (cast_int (mx_double a2)));
           EvPrintInitialized (IntToSickBaud (cast_int (mx_double a2)))])) ∧
  size (<[k := Some (fresh (dom (heap st)))]> (sick_lms_map st))
  = S (size (sick_lms_map st)).
Proof.
  intros Hargs Hsz Hk Ha Hbaud Hinit. split; [apply fresh_loc_free |]. split.
  - rewrite (initSick_fresh_run st nlhs prhs k a2 Hargs Hsz Hk Ha Hbaud).
    cbv zeta. rewrite Hinit. simpl. unfold logged. simpl.
    by rewrite <- app_assoc.
  - by rewrite map_size_insert_None.
Qed.

Lemma init_registers_session_witness :
  initSick (drv := sim_driver) 1
    [mxStr "init"; mxStr "/dev/ttyUSB5"; mxNum 19200] (sim_after sim_calls_one)
  = Done (mkInit "/dev/ttyUSB5" false true SICK_MS_MODE_RANGE)
      (mkState (drv := sim_driver)
         (<["/dev/ttyUSB5" := Some (fresh (dom (heap (sim_after sim_calls_one))))]>
            (sick_lms_map (sim_after sim_calls_one)))
         (<[fresh (dom (heap (sim_after sim_calls_one))) :=
              mkSickLMS (drv := sim_driver) "/dev/ttyUSB5"
                (mkSim "/dev/ttyUSB5" true 180 (1 # 2) 0
                 : @sick_private sim_driver)]>
            (heap (sim_after sim_calls_one)))
         (S (world (sim_after sim_calls_one)))
         (log (sim_after sim_calls_one) ++
          [EvNew (fresh (dom (heap (sim_after sim_calls_one)))) "/dev/ttyUSB5";
           EvPrintInitializing "/dev/ttyUSB5";
           EvInitialize (fresh (dom (heap (sim_after sim_calls_one))))
             SICK_BAUD_19200;
           EvPrintInitialized SICK_BAUD_19200])).
Proof.
  apply (init_registers_session (drv := sim_driver) 1
           [mxStr "init"; mxStr "/dev/ttyUSB5"; mxNum 19200] "/dev/ttyUSB5"
           (mxNum 19200) (sim_after sim_calls_one)
           (mkSim "/dev/ttyUSB5" true 180 (1 # 2) 0 : @sick_private sim_driver)
           (S (world (sim_after sim_calls_one)))).
  - split; [reflexivity |]. split; [lia |]. eexists. split; reflexivity.
  - vm_compute. lia.
  - vm_compute. reflexivity.
  - reflexivity.
  - vm_compute. discriminate.
  - reflexivity.
Defined.

(** X5: when [Initialize] throws in such an [init], the session just
    constructed is torn down again before the error is raised: the registry
    and the sessions on the free store are exactly what they were, the
    object that was created is the one that is deleted, [Uninitialize] is
    called on it only if it reports itself initialised, and the message is
    that of the I/O error for a [SickIOException] and the general one for
    anything else. *)
Theorem init_failure_leaves_nothing `{drv : SickDriver}
    nlhs prhs k a2 st e members w :
  init_args nlhs prhs k →
  size (sick_lms_map st) ≠ MAX_NUM_LMS_DEVICES →
  sick_lms_map st !! k = None → prhs !! 2 = Some a2 →
  IntToSickBaud (cast_int (mx_double a2)) ≠ SICK_BAUD_UNKNOWN →
  Initialize (IntToSickBaud (cast_int (mx_double a2))) (SickLMS_ctor k) (world st)
  = (Throws e, members, w) →
  ∃ st' evs,
    initSick nlhs prhs st
    = MexErr (match e with SickIOException => ErrIO | _ => ErrOccurred end) st' ∧
    sick_lms_map st' = sick_lms_map st ∧ heap st' = heap st ∧
    log st' = log st ++ evs ∧
    created evs = [fresh (dom (heap st))] ∧
    deleted evs = [fresh (dom (heap st))] ∧
    uninitialized evs
    = (if IsInitialized members then [fresh (dom (heap st))] else []).
Proof.
  intros Hargs Hsz Hk Ha Hbaud Hinit.
  rewrite (initSick_fresh_run st nlhs prhs k a2 Hargs Hsz Hk Ha Hbaud).
  cbv zeta. rewrite Hinit. simpl.
  set (l := fresh (dom (heap st))).
  set (b := IntToSickBaud (cast_int (mx_double a2))).
  eexists _, ([EvNew l k; EvPrintInitializing k; EvInitialize l b] ++
              teardown_events l (mkSickLMS k members) w).
  split; [reflexivity |]. simpl.
  split; [by rewrite delete_insert_id |].
  split; [apply delete_insert_id, fresh_loc_free |].
  split; [by rewrite <- app_assoc |].
  rewrite teardown_events_created, teardown_events_deleted,
    teardown_events_uninitialized. done.
Qed.

Lemma init_failure_leaves_nothing_witness :
  ∃ st' evs,
    initSick (drv := sim_driver) 1
      [mxStr "init"; mxStr "/dev/null"; mxNum 9600] (sim_after sim_calls_one)
    = MexErr ErrIO st' ∧
    sick_lms_map st' = sick_lms_map (sim_after sim_calls_one) ∧
    heap st' = heap (sim_after sim_calls_one) ∧
    log st' = log (sim_after sim_calls_one) ++ evs ∧
    created evs = [fresh (dom (heap (sim_after sim_calls_one)))] ∧
    deleted evs = [fresh (dom (heap (sim_after sim_calls_one)))] ∧
    uninitialized evs = [].
Proof.
  apply (init_failure_leaves_nothing (drv := sim_driver) 1
           [mxStr "init"; mxStr "/dev/null"; mxNum 9600] "/dev/null"
           (mxNum 9600) (sim_after sim_calls_one) SickIOException
           (mkSim "/dev/null" false 180 (1 # 2) 0 : @sick_private sim_driver)
           (S (world (sim_after sim_calls_one)))).
  - split; [reflexivity |]. split; [lia |]. eexists. split; reflexivity.
  - vm_compute. lia.
  - vm_compute. reflexivity.
  - reflexivity.
  - vm_compute. discriminate.
  - reflexivity.
Defined.

Lemma reachable_entry_path `{drv : SickDriver} st k l obj :
  reachable st →
  sick_lms_map st !! k = Some (Some l) → heap st !! l = Some obj →
  GetSickDevicePath obj = k.
Proof.
  intros Hst Hk Hl. apply reachable_ok in Hst.
  destruct (reg_entry _ Hst _ _ Hk) as (l' & obj' & [= <-] & Hl' & Hp).
  congruence.
Qed.

(** X6: the bridge does not let a failed scan pass. When the scan of a
    [grab] on an initialised session throws, a timeout included, the session
    is torn down and its entry erased before the call ends in the general
    error: the path is registered no more and the other sessions stay. *)
Theorem grab_failure_tears_down `{drv : SickDriver}
    nlhs prhs st k l obj e members w :
  reachable st → nlhs ≤ 1 → resolves 1 prhs k st →
  sick_lms_map st !! k = Some (Some l) → heap st !! l = Some obj →
  IsInitialized (sick_members obj) = true →
  grab_scan (sick_members obj) (world st) = (Throws e, members, w) →
  ∃ st' evs,
    grabSickVals nlhs prhs st = MexErr ErrOccurred st' ∧
    sick_lms_map st' = delete k (sick_lms_map st) ∧
    heap st' = delete l (heap st) ∧
    log st' = log st ++ EvGetSickScan l :: evs ∧
    deleted evs = [l] ∧
    uninitialized evs = (if IsInitialized members then [l] else []).
Proof.
  intros Hst Hout Hres Hk Hl Hinit Hscan.
  pose proof (reachable_entry_path st k l obj Hst Hk Hl) as Hp.
  rewrite (grabSickVals_run st nlhs prhs k l obj Hp Hout Hres Hk Hl Hinit).
  cbv zeta. rewrite Hscan. simpl.
  eexists _, (teardown_events l (mkSickLMS (GetSickDevicePath obj) members) w).
  split; [reflexivity |]. simpl.
  split; [done |]. split; [by rewrite delete_insert_eq |].
  split; [by rewrite <- app_assoc |].
  by rewrite teardown_events_deleted, teardown_events_uninitialized.
Qed.

Lemma grab_failure_tears_down_witness :
  ∃ st' evs,
    grabSickVals (drv := sim_driver) 1 [mxStr "grab"]
      (sim_after (sim_calls_one ++ [(1, [mxStr "grab"]); (1, [mxStr "grab"])]))
    = MexErr ErrOccurred st' ∧
    sick_lms_map st' = delete "/dev/ttyUSB0" (sick_lms_map
      (sim_after (sim_calls_one ++ [(1, [mxStr "grab"]); (1, [mxStr "grab"])]))) ∧
    heap st' = delete 1%positive (heap
      (sim_after (sim_calls_one ++ [(1, [mxStr "grab"]); (1, [mxStr "grab"])]))) ∧
    log st' = log
      (sim_after (sim_calls_one ++ [(1, [mxStr "grab"]); (1, [mxStr "grab"])]))
      ++ EvGetSickScan 1%positive :: evs ∧
    deleted evs = [1%positive] ∧
    uninitialized evs = [1%positive].
Proof.
  apply (grab_failure_tears_down (drv := sim_driver) 1 [mxStr "grab"]
           (sim_after (sim_calls_one ++ [(1, [mxStr "grab"]); (1, [mxStr "grab"])]))
           "/dev/ttyUSB0" 1%positive
           (mkSickLMS (drv := sim_driver) "/dev/ttyUSB0"
              (mkSim "/dev/ttyUSB0" true 180 (1 # 2) 2
               : @sick_private sim_driver))
           SickTimeoutException
           (mkSim "/dev/ttyUSB0" true 180 (1 # 2) 3 : @sick_private sim_driver)
           4).
  - exists 0, (sim_calls_one ++ [(1, [mxStr "grab"]); (1, [mxStr "grab"])]).
    vm_compute. reflexivity.
  - lia.
  - left. split; vm_compute; reflexivity.
  - vm_compute. reflexivity.
  - vm_compute. reflexivity.
  - reflexivity.
  - reflexivity.
Defined.

(** X7: a [grab] on an initialised session whose scan returns makes that
    one call into the driver, leaves the registry as it was, and fills the
    struct by what the session reports after the scan: an LMS Fast gives
    [range] from the primary values and [reflect] from the secondary ones;
    any other unit gives the primary values as [reflect] alone when it
    measures reflectivity, and as [range] alone otherwise. *)
Theorem grab_fills_fields `{drv : SickDriver}
    nlhs prhs st k l obj pri sec members w :
  reachable st → nlhs ≤ 1 → resolves 1 prhs k st →
  sick_lms_map st !! k = Some (Some l) → heap st !! l = Some obj →
  IsInitialized (sick_members obj) = true →
  grab_scan (sick_members obj) (world st) = (Returns (pri, sec), members, w) →
  ∃ g,
    grabSickVals nlhs prhs st
    = Done g
        (mkState (sick_lms_map st) (<[l := mkSickLMS k members]> (heap st)) w
           (log st ++ [EvGetSickScan l])) ∧
    (grab_range g, grab_reflect g)
    = if IsSickLMSFast members
      then (Some (map double_of_uint pri), Some (map double_of_uint sec))
      else if decide (GetSickMeasuringMode members = SICK_MS_MODE_REFLECTIVITY)
      then (None, Some (map double_of_uint pri))
      else (Some (map double_of_uint pri), None).
Proof.
  intros Hst Hout Hres Hk Hl Hinit Hscan.
  pose proof (reachable_entry_path st k l obj Hst Hk Hl) as Hp.
  rewrite (grabSickVals_run st nlhs prhs k l obj Hp Hout Hres Hk Hl Hinit).
  cbv zeta. rewrite Hscan. simpl. rewrite Hp.
  eexists. split; [reflexivity |]. unfold grab_result.
  destruct (IsSickLMSFast members); [done |]. by destruct (decide _).
Qed.

Lemma grab_fills_fields_witness :
  ∃ g,
    grabSickVals (drv := sim_driver) 1 [mxStr "grab"] (sim_after sim_calls_fast)
    = Done g
        (mkState (drv := sim_driver) (sick_lms_map (sim_after sim_calls_fast))
           (<[1%positive :=
                mkSickLMS (drv := sim_driver) "/dev/ttyUSB1"
                  (mkSim "/dev/ttyUSB1" true 180 (1 # 2) 1
                   : @sick_private sim_driver)]>
              (heap (sim_after sim_calls_fast)))
           2 (log (sim_after sim_calls_fast) ++ [EvGetSickScan 1%positive])) ∧
    (grab_range g, grab_reflect g)
    = (Some (map double_of_uint (repeat 1000%N 361)),
       Some (map double_of_uint (repeat 7%N 361))).
Proof.
  apply (grab_fills_fields (drv := sim_driver) 1 [mxStr "grab"]
           (sim_after sim_calls_fast) "/dev/ttyUSB1" 1%positive
           (mkSickLMS (drv := sim_driver) "/dev/ttyUSB1"
              (mkSim "/dev/ttyUSB1" true 180 (1 # 2) 0
               : @sick_private sim_driver))
           (repeat 1000%N 361) (repeat 7%N 361)
           (mkSim "/dev/ttyUSB1" true 180 (1 # 2) 1 : @sick_private sim_driver)
           2).
  - exact sim_reachable_fast.
  - lia.
  - left. split; vm_compute; reflexivity.
  - vm_compute. reflexivity.
  - vm_compute. reflexivity.
  - reflexivity.
  - vm_compute. reflexivity.
Defined.

(** X8: [variant] on an initialised session that is no LMS Fast checks
    the two values before anything is sent. A scan angle whose integer part
    converts to the sentinel is refused as an invalid scan angle; with a
    good angle, a resolution that converts to the sentinel is refused as an
    invalid resolution. Either way the state is left as it was. *)
Theorem variant_checks_values `{drv : SickDriver} prhs st k l obj a1 a2 :
  reachable st → resolves 3 prhs k st →
  sick_lms_map st !! k = Some (Some l) → heap st !! l = Some obj →
  IsInitialized (sick_members obj) = true →
  IsSickLMSFast (sick_members obj) = false →
  prhs !! 1 = Some a1 → prhs !! 2 = Some a2 →
  (IntToSickScanAngle (cast_int (mx_double a1)) = SICK_SCAN_ANGLE_UNKNOWN →
   setSickVariant 0 prhs st = MexErr ErrInvalidScanAngle st) ∧
  (IntToSickScanAngle (cast_int (mx_double a1)) ≠ SICK_SCAN_ANGLE_UNKNOWN →
   DoubleToSickScanResolution (mx_double a2) = SICK_SCAN_RESOLUTION_UNKNOWN →
   setSickVariant 0 prhs st = MexErr ErrInvalidScanResolution st).
Proof.
  intros Hst Hres Hk Hl Hinit Hfast Ha1 Ha2.
  pose proof (reachable_entry_path st k l obj Hst Hk Hl) as Hp.
  rewrite (setSickVariant_head st prhs k l obj Hp Hres Hk Hl), Hinit, Hfast.
  rewrite (bind_prhs_at _ _ _ _ _ Ha1). cbv zeta. split.
  - intros Hangle. by destruct (decide _).
  - intros Hangle Hresolution. destruct (decide _) as [| _]; [done |].
    rewrite (bind_prhs_at _ _ _ _ _ Ha2). by destruct (decide _).
Qed.

Lemma variant_checks_values_witness :
  setSickVariant (drv := sim_driver) 0
    [mxStr "variant"; mxNum 90; mxNum (1 # 2)] (sim_after sim_calls_one)
  = MexErr ErrInvalidScanAngle (sim_after sim_calls_one) ∧
  setSickVariant (drv := sim_driver) 0
    [mxStr "variant"; mxNum 100; mxNum (1 # 3)] (sim_after sim_calls_one)
  = MexErr ErrInvalidScanResolution (sim_after sim_calls_one).
Proof.
  split.
  - apply (proj1 (variant_checks_values (drv := sim_driver)
                    [mxStr "variant"; mxNum 90; mxNum (1 # 2)]
                    (sim_after sim_calls_one) "/dev/ttyUSB0" 1%positive
                    (mkSickLMS (drv := sim_driver) "/dev/ttyUSB0"
                       (mkSim "/dev/ttyUSB0" true 180 (1 # 2) 0
                        : @sick_private sim_driver))
                    (mxNum 90) (mxNum (1 # 2)) sim_reachable_one
                    (or_introl (conj eq_refl eq_refl))
                    eq_refl eq_refl eq_refl eq_refl eq_refl eq_refl)).
    reflexivity.
  - apply (proj2 (variant_checks_values (drv := sim_driver)
                    [mxStr "variant"; mxNum 100; mxNum (1 # 3)]
                    (sim_after sim_calls_one) "/dev/ttyUSB0" 1%positive
                    (mkSickLMS (drv := sim_driver) "/dev/ttyUSB0"
                       (mkSim "/dev/ttyUSB0" true 180 (1 # 2) 0
                        : @sick_private sim_driver))
                    (mxNum 100) (mxNum (1 # 3)) sim_reachable_one
                    (or_introl (conj eq_refl eq_refl))
                    eq_refl eq_refl eq_refl eq_refl eq_refl eq_refl)).
    + vm_compute. discriminate.
    + reflexivity.
Defined.

(** X9: with two good values [variant] prints what it attempts and calls
    [SetSickVariant] once with the converted values. When the call returns,
    the success is printed and the registry is as before. A
    [SickConfigException] ends in the config error and the session stays
    registered. Any other exception tears the session down and erases its
    entry before the general error is raised. *)
Theorem variant_outcomes `{drv : SickDriver}
    prhs st k l obj a1 a2 r members w :
  reachable st → resolves 3 prhs k st →
  sick_lms_map st !! k = Some (Some l) → heap st !! l = Some obj →
  IsInitialized (sick_members obj) = true →
  IsSickLMSFast (sick_members obj) = false →
  prhs !! 1 = Some a1 → prhs !! 2 = Some a2 →
  IntToSickScanAngle (cast_int (mx_double a1)) ≠ SICK_SCAN_ANGLE_UNKNOWN →
  DoubleToSickScanResolution (mx_double a2) ≠ SICK_SCAN_RESOLUTION_UNKNOWN →
  SetSickVariant (IntToSickScanAngle (cast_int (mx_double a1)))
    (DoubleToSickScanResolution (mx_double a2)) (sick_members obj) (world st)
  = (r, members, w) →
  setSickVariant 0 prhs st
  = let st1 :=
      mkState (sick_lms_map st) (<[l := mkSickLMS k members]> (heap st)) w
        (log st ++
         [EvPrintAttempt (cast_int (mx_double a1)) (mx_double a2);
          EvSetSickVariant l (IntToSickScanAngle (cast_int (mx_double a1)))
            (DoubleToSickScanResolution (mx_double a2))]) in
    match r with
    | Returns _ => Done tt (logged EvPrintVariantSet st1)
    | Throws SickConfigException => MexErr ErrConfig st1
    | Throws _ => MexErr ErrOccurred (torn_down k l (mkSickLMS k members) st1)
    end.
Proof.
  intros Hst Hres Hk Hl Hinit Hfast Ha1 Ha2 Hangle Hresolution Hcall.
  pose proof (reachable_entry_path st k l obj Hst Hk Hl) as Hp.
  rewrite (setSickVariant_head st prhs k l obj Hp Hres Hk Hl), Hinit, Hfast.
  rewrite (bind_prhs_at _ _ _ _ _ Ha1). cbv zeta.
  destruct (decide _) as [| _]; [done |].
  rewrite (bind_prhs_at _ _ _ _ _ Ha2).
  destruct (decide _) as [| _]; [done |].
  rewrite (setSickVariant_tail st k l obj _ _ _ _ Hk Hl).
  cbv zeta. rewrite Hcall, Hp. reflexivity.
Qed.

Lemma variant_outcomes_witness :
  setSickVariant (drv := sim_driver) 0
    [mxStr "variant"; mxNum 100; mxNum (1 # 4)] (sim_after sim_calls_one)
  = Done tt
      (mkState (drv := sim_driver) (sick_lms_map (sim_after sim_calls_one))
         (<[1%positive :=
              mkSickLMS (drv := sim_driver) "/dev/ttyUSB0"
                (mkSim "/dev/ttyUSB0" true 100 (1 # 4) 0
                 : @sick_private sim_driver)]>
            (heap (sim_after sim_calls_one)))
         2
         (log (sim_after sim_calls_one) ++
          [EvPrintAttempt 100 (1 # 4);
           EvSetSickVariant 1%positive SICK_SCAN_ANGLE_100
             SICK_SCAN_RESOLUTION_25;
           EvPrintVariantSet])).
Proof.
  rewrite (variant_outcomes (drv := sim_driver)
             [mxStr "variant"; mxNum 100; mxNum (1 # 4)]
             (sim_after sim_calls_one) "/dev/ttyUSB0" 1%positive
             (mkSickLMS (drv := sim_driver) "/dev/ttyUSB0"
                (mkSim "/dev/ttyUSB0" true 180 (1 # 2) 0
                 : @sick_private sim_driver))
             (mxNum 100) (mxNum (1 # 4)) (Returns tt)
             (mkSim "/dev/ttyUSB0" true 100 (1 # 4) 0 : @sick_private sim_driver)
             2 sim_reachable_one (or_introl (conj eq_refl eq_refl))
             eq_refl eq_refl eq_refl eq_refl eq_refl eq_refl).
  - cbv zeta. unfold logged. simpl. by rewrite <- app_assoc.
  - vm_compute. discriminate.
  - vm_compute. discriminate.
  - reflexivity.
Defined.

(** X10: [info] on an initialised session prints the status and then the
    software version of the session and does nothing else: no call that
    talks to the device, the registry, the sessions and the world outside
    as they were. *)
Theorem info_prints_only `{drv : SickDriver} prhs st k l obj :
  reachable st → resolves 1 prhs k st →
  sick_lms_map st !! k = Some (Some l) → heap st !! l = Some obj →
  IsInitialized (sick_members obj) = true →
  printSickInfo 0 prhs st
  = Done tt
      (mkState (sick_lms_map st) (heap st) (world st)
         (log st ++
          [EvPrintText (GetSickStatusAsString (sick_members obj));
           EvPrintText (GetSickSoftwareVersionAsString (sick_members obj))])).
Proof.
  intros Hst Hres Hk Hl Hinit.
  pose proof (reachable_entry_path st k l obj Hst Hk Hl) as Hp.
  rewrite (printSickInfo_head st prhs k l obj Hp Hres Hk Hl), Hinit.
  unfold logged. simpl. by rewrite <- app_assoc.
Qed.

Lemma info_prints_only_witness :
  printSickInfo (drv := sim_driver) 0 [mxStr "info"; mxStr "/dev/ttyUSB1"]
    (sim_after sim_calls_three)
  = Done tt
      (mkState (drv := sim_driver) (sick_lms_map (sim_after sim_calls_three))
         (heap (sim_after sim_calls_three)) (world (sim_after sim_calls_three))
         (log (sim_after sim_calls_three) ++
          [EvPrintText "status"; EvPrintText "version"])).
Proof.
  apply (info_prints_only (drv := sim_driver)
           [mxStr "info"; mxStr "/dev/ttyUSB1"] (sim_after sim_calls_three)
           "/dev/ttyUSB1" 2%positive
           (mkSickLMS (drv := sim_driver) "/dev/ttyUSB1"
              (mkSim "/dev/ttyUSB1" true 180 (1 # 2) 0
               : @sick_private sim_driver))).
  - exact sim_reachable_three.
  - right. split; [reflexivity |]. eexists. split; reflexivity.
  - vm_compute. reflexivity.
  - vm_compute. reflexivity.
  - reflexivity.
Defined.

(** X11: a session that reports itself not initialised is refused by
    [clear], [variant], [grab] and [info] alike with the message that the
    device is not initialised, and nothing is touched; [clear] in particular
    leaves such a session registered. *)
Theorem not_initialized_refused `{drv : SickDriver}
    nlhs prhs vprhs st k l obj :
  sick_lms_map st !! k = Some (Some l) → heap st !! l = Some obj →
  GetSickDevicePath obj = k →
  IsInitialized (sick_members obj) = false →
  nlhs ≤ 1 → resolves 1 prhs k st → resolves 3 vprhs k st →
  clearSick 0 prhs st = MexErr ErrNotInitialized st ∧
  setSickVariant 0 vprhs st = MexErr ErrNotInitialized st ∧
  grabSickVals nlhs prhs st = MexErr ErrNotInitialized st ∧
  printSickInfo 0 prhs st = MexErr ErrNotInitialized st.
Proof.
  intros Hk Hl Hp Hinit Hout Hres Hvres.
  rewrite (clearSick_head st prhs k l obj Hp Hres Hk Hl).
  rewrite (setSickVariant_head st vprhs k l obj Hp Hvres Hk Hl).
  rewrite (printSickInfo_head st prhs k l obj Hp Hres Hk Hl).
  rewrite (grabSickVals_cold st nlhs prhs k l obj Hp Hout Hres Hk Hl Hinit).
  by rewrite Hinit.
Qed.

Lemma not_initialized_refused_witness :
  clearSick (drv := sim_driver) 0 [mxStr "clear"; mxStr "/dev/ttyUSB0"]
    (mkState (drv := sim_driver) {[ "/dev/ttyUSB0" := Some 1%positive ]}
       {[ 1%positive :=
            mkSickLMS (drv := sim_driver) "/dev/ttyUSB0"
              (mkSim "/dev/ttyUSB0" false 180 (1 # 2) 0
               : @sick_private sim_driver) ]} 0 [])
  = MexErr ErrNotInitialized
      (mkState (drv := sim_driver) {[ "/dev/ttyUSB0" := Some 1%positive ]}
         {[ 1%positive :=
              mkSickLMS (drv := sim_driver) "/dev/ttyUSB0"
                (mkSim "/dev/ttyUSB0" false 180 (1 # 2) 0
                 : @sick_private sim_driver) ]} 0 []).
Proof.
  apply (not_initialized_refused (drv := sim_driver) 1
           [mxStr "clear"; mxStr "/dev/ttyUSB0"]
           [mxStr "variant"; mxNum 100; mxNum 1; mxStr "/dev/ttyUSB0"]
           (mkState (drv := sim_driver) {[ "/dev/ttyUSB0" := Some 1%positive ]}
              {[ 1%positive :=
                   mkSickLMS (drv := sim_driver) "/dev/ttyUSB0"
                     (mkSim "/dev/ttyUSB0" false 180 (1 # 2) 0
                      : @sick_private sim_driver) ]} 0 [])
           "/dev/ttyUSB0" 1%positive
           (mkSickLMS (drv := sim_driver) "/dev/ttyUSB0"
              (mkSim "/dev/ttyUSB0" false 180 (1 # 2) 0
               : @sick_private sim_driver))).
  - vm_compute. reflexivity.
  - vm_compute. reflexivity.
  - reflexivity.
  - reflexivity.
  - lia.
  - right. split; [reflexivity |]. eexists. split; reflexivity.
  - right. split; [reflexivity |]. eexists. split; reflexivity.
Defined.

(** X12: on an empty registry [clear], [variant], [grab] and [info], called
    with a number of inputs and outputs they accept, with or without a path,
    all answer that no device has been initialised yet and touch nothing. *)
Theorem empty_registry_refused `{drv : SickDriver} c nlhs args st :
  c ≠ CmdInit → outputs_accepted c nlhs →
  length args ≤ (match c with CmdVariant => 3 | _ => 1 end) →
  sick_lms_map st = ∅ →
  mexFunction nlhs (mxStr (command_name c) :: args) st = MexErr ErrNoDevice st.
Proof.
  intros Hc Hout Hlen Hempty. rewrite mexFunction_dispatch.
  assert (size (sick_lms_map st) = 0) as Hsz by (by rewrite Hempty, map_size_empty).
  destruct c; [done | | | |]; simpl in Hout, Hlen; cbn [command_name].
  - subst nlhs. unfold handler, clearSick. cbv zeta.
    assert ((2 <? length (mxStr "clear" :: args)) = false) as ->
      by (apply Nat.ltb_ge; simpl; lia).
    change (0 <? 0) with false. cbv beta iota.
    by rewrite bind_assoc, bind_map_size, Hsz.
  - subst nlhs. unfold handler, setSickVariant. cbv zeta.
    assert ((4 <? length (mxStr "variant" :: args)) = false) as ->
      by (apply Nat.ltb_ge; simpl; lia).
    change (0 <? 0) with false. cbv beta iota.
    by rewrite bind_assoc, bind_map_size, Hsz.
  - unfold handler, grabSickVals. cbv zeta.
    assert ((2 <? length (mxStr "grab" :: args)) = false) as ->
      by (apply Nat.ltb_ge; simpl; lia).
    rewrite !bind_assoc.
    rewrite (proj1 (grab_entry_checks nlhs _ st Hout)). cbv beta iota.
    rewrite !bind_assoc.
    rewrite (proj2 (grab_entry_checks nlhs _ st Hout)). cbv beta iota.
    by rewrite bind_assoc, bind_map_size, Hsz.
  - subst nlhs. unfold handler, printSickInfo. cbv zeta.
    assert ((2 <? length (mxStr "info" :: args)) = false) as ->
      by (apply Nat.ltb_ge; simpl; lia).
    change (0 <? 0) with false. cbv beta iota.
    by rewrite bind_assoc, bind_map_size, Hsz.
Qed.

Lemma empty_registry_refused_witness :
  mexFunction (drv := sim_driver) 1 [mxStr "grab"]
    (initial_state (drv := sim_driver) 0)
  = MexErr ErrNoDevice (initial_state (drv := sim_driver) 0).
Proof.
  apply (empty_registry_refused (drv := sim_driver) CmdGrab 1 []
           (initial_state (drv := sim_driver) 0)).
  - discriminate.
  - simpl. lia.
  - simpl. lia.
  - reflexivity.
Defined.

(** X13: [init] followed by [clear] is a round trip on the registry. An
    [init] of a path not yet registered that succeeds enters exactly one
    entry, under that path; and when the new session reports itself
    initialised, a [clear] of the path right after it gives back the
    registry and the sessions as they were before the [init]. *)
Theorem init_clear_round_trip `{drv : SickDriver}
    nlhs c0 c1 a1 a2 k st s st1 :
  nlhs ≤ 1 → mxGetString a1 = Some k → sick_lms_map st !! k = None →
  initSick nlhs [c0; a1; a2] st = Done s st1 →
  sick_lms_map st1 = <[k := Some (fresh (dom (heap st)))]> (sick_lms_map st) ∧
  size (sick_lms_map st1) = S (size (sick_lms_map st)) ∧
  (IsInitialized
     (Initialize (IntToSickBaud (cast_int (mx_double a2))) (SickLMS_ctor k)
        (world st)).1.2 = true →
   ∃ st2,
     clearSick 0 [c1; a1] st1 = Done tt st2 ∧
     sick_lms_map st2 = sick_lms_map st ∧ heap st2 = heap st).
Proof.
  intros Hout Hs Hk Hrun.
  assert (init_args nlhs [c0; a1; a2] k) as Hargs.
  { split; [done |]. split; [done |]. by exists a1. }
  destruct (decide (size (sick_lms_map st) = MAX_NUM_LMS_DEVICES)) as [Hfull | Hsz].
  { by rewrite (initSick_full nlhs _ k st Hargs Hfull) in Hrun. }
  destruct (decide (IntToSickBaud (cast_int (mx_double a2)) = SICK_BAUD_UNKNOWN))
    as [Hbad | Hbaud].
  { by rewrite (initSick_sentinel_fresh nlhs _ k a2 st Hargs Hsz Hk eq_refl Hbad)
      in Hrun. }
  rewrite (initSick_fresh_run st nlhs _ k a2 Hargs Hsz Hk eq_refl Hbaud) in Hrun.
  cbv zeta in Hrun.
  destruct (Initialize _ (SickLMS_ctor k) (world st)) as [[r members] w].
  simpl in Hrun. destruct r as [[] | e]; [| done].
  injection Hrun as _ <-. simpl.
  split; [done |]. split; [by rewrite map_size_insert_None |].
  intros Hinit. set (l := fresh (dom (heap st))).
  eexists. split.
  - rewrite (clearSick_head _ [c1; a1] k l (mkSickLMS k members)); simpl.
    + rewrite Hinit. apply cleanup_registered; simpl; by rewrite lookup_insert_eq.
    + done.
    + right. split; [done |]. by exists a1.
    + by rewrite lookup_insert_eq.
    + by rewrite lookup_insert_eq.
  - simpl. split; [by rewrite delete_insert_id |].
    apply delete_insert_id, fresh_loc_free.
Qed.

Lemma init_clear_round_trip_witness :
  ∃ st2,
    clearSick (drv := sim_driver) 0 [mxStr "clear"; mxStr "/dev/ttyUSB0"]
      (sim_after sim_calls_one)
    = Done tt st2 ∧
    sick_lms_map st2 = ∅ ∧ heap st2 = ∅.
Proof.
  apply (proj2 (proj2
           (init_clear_round_trip (drv := sim_driver) 1 (mxStr "init")
              (mxStr "clear") (mxStr "/dev/ttyUSB0") (mxNum 38400)
              "/dev/ttyUSB0" (initial_state (drv := sim_driver) 0)
              (mkInit "/dev/ttyUSB0" false true SICK_MS_MODE_RANGE)
              (sim_after sim_calls_one)
              (le_n 1) eq_refl eq_refl ltac:(vm_compute; reflexivity)))).
  reflexivity.
Defined.

(** X14: [clear] is final. After a [clear] that names a path and succeeds,
    the path is registered no more, and the same [clear] once again is
    refused: no device at all when that was the last session, no device at
    the path otherwise. *)
Theorem clear_is_final `{drv : SickDriver} c a k st st' :
  mxGetString a = Some k →
  clearSick 0 [c; a] st = Done tt st' →
  sick_lms_map st' = delete k (sick_lms_map st) ∧
  clearSick 0 [c; a] st'
  = MexErr (if size (sick_lms_map st') =? 0 then ErrNoDevice
            else ErrNoDeviceAtPath) st'.
Proof.
  intros Hs Hrun.
  assert (∀ st0, sick_lms_map st0 !! k = None →
            clearSick 0 [c; a] st0
            = MexErr (if size (sick_lms_map st0) =? 0 then ErrNoDevice
                      else ErrNoDeviceAtPath) st0) as Hgone.
  { intros st0 Hk. unfold clearSick. cbv zeta. simpl.
    rewrite bind_map_size. destruct (size (sick_lms_map st0) =? 0); [done |].
    rewrite (bind_err _ _ _ _ _
               (device_path_arg_unknown st0 1 [c] a k eq_refl Hs Hk)).
    done. }
  destruct (sick_lms_map st !! k) as [p |] eqn:Hk.
  2: { rewrite (Hgone st Hk) in Hrun. done. }
  assert (is_Some (sick_lms_map st !! k)) as Hsome by eauto.
  unfold clearSick in Hrun. cbv zeta in Hrun. simpl in Hrun.
  rewrite bind_map_size, (registered_nonempty _ _ Hsome) in Hrun.
  rewrite (bind_done _ _ _ _ _
             (device_path_arg_named st 1 [c] a k eq_refl Hs Hsome)) in Hrun.
  destruct p as [l |].
  2: { unfold sick_get in Hrun. rewrite bind_assoc in Hrun.
       rewrite (bind_done _ _ _ _ _ (map_index_present _ _ _ Hk)) in Hrun.
       done. }
  destruct (heap st !! l) as [obj |] eqn:Hl.
  2: { unfold sick_get in Hrun. rewrite bind_assoc in Hrun.
       rewrite (bind_done _ _ _ _ _ (map_index_present _ _ _ Hk)) in Hrun.
       unfold getter, bind, deref in Hrun. by rewrite Hl in Hrun. }
  rewrite (bind_done _ _ _ _ _ (sick_get_registered _ _ _ _ _ Hk Hl)) in Hrun.
  destruct (IsInitialized (sick_members obj)); [| done].
  cbn [negb] in Hrun. cbv beta iota in Hrun.
  rewrite (cleanup_registered _ _ _ _ Hk Hl) in Hrun.
  injection Hrun as <-. split; [done |].
  apply Hgone. simpl. by rewrite lookup_delete_eq.
Qed.

Lemma clear_is_final_witness :
  clearSick (drv := sim_driver) 0 [mxStr "clear"; mxStr "/dev/ttyUSB1"]
    (state_of
       (clearSick (drv := sim_driver) 0 [mxStr "clear"; mxStr "/dev/ttyUSB1"]
          (sim_after sim_calls_three)))
  = MexErr ErrNoDeviceAtPath
      (state_of
         (clearSick (drv := sim_driver) 0 [mxStr "clear"; mxStr "/dev/ttyUSB1"]
            (sim_after sim_calls_three))).
Proof.
  destruct (clear_is_final (drv := sim_driver) (mxStr "clear")
              (mxStr "/dev/ttyUSB1") "/dev/ttyUSB1" (sim_after sim_calls_three)
              (state_of
                 (clearSick (drv := sim_driver) 0
                    [mxStr "clear"; mxStr "/dev/ttyUSB1"]
                    (sim_after sim_calls_three)))
              eq_refl ltac:(vm_compute; reflexivity)) as [_ Hagain].
  rewrite Hagain.
  assert ((size (sick_lms_map
                   (state_of
                      (clearSick (drv := sim_driver) 0
                         [mxStr "clear"; mxStr "/dev/ttyUSB1"]
                         (sim_after sim_calls_three)))) =? 0) = false) as ->
    by (vm_compute; reflexivity).
  reflexivity.
Defined.

(** X15: the exit hook raises no error of its own: whatever the state,
    [mexExit] never ends through [mexErrMsgTxt]. When it comes to its end the
    registry is empty, and running it once more changes nothing. *)
Theorem exit_never_errors `{drv : SickDriver} fuel st r :
  mexExit fuel st = Some r →
  (∀ e st', r ≠ MexErr e st') ∧
  (∀ st', r = Done tt st' →
     sick_lms_map st' = ∅ ∧ ∀ fuel', mexExit fuel' st' = Some (Done tt st')).
Proof.
  revert st. induction fuel as [| fuel IH]; intros st Hrun; simpl in Hrun.
  - destruct (bool_decide (sick_lms_map st = ∅)) eqn:Hempty; [| done].
    injection Hrun as <-. split; [done |]. intros st' [= <-].
    apply bool_decide_eq_true in Hempty. split; [done |].
    intros [| fuel']; simpl; by rewrite bool_decide_eq_true_2.
  - destruct (bool_decide (sick_lms_map st = ∅)) eqn:Hempty.
    + injection Hrun as <-. split; [done |]. intros st' [= <-].
      apply bool_decide_eq_true in Hempty. split; [done |].
      intros [| fuel']; simpl; by rewrite bool_decide_eq_true_2.
    + assert (no_err (bind map_begin (λ b, cleanup b.1))) as Hno.
      { apply no_err_bind; [| intros b; apply cleanup_no_err].
        intros st0. unfold map_begin. destruct (least _); [| done].
        by destruct (sick_lms_map st0 !! s). }
      specialize (Hno st).
      destruct (bind map_begin (λ b, cleanup b.1) st) as [[] st1 | e st1 | st1].
      * by apply IH in Hrun.
      * done.
      * injection Hrun as <-. split; [done |]. by intros st' [=].
Qed.

Lemma exit_never_errors_witness :
  sick_lms_map
    (state_of
       (default (Crash (initial_state (drv := sim_driver) 0))
          (mexExit (drv := sim_driver) 4 (sim_after sim_calls_four))))
  = ∅.
Proof.
  apply (proj2 (exit_never_errors (drv := sim_driver) 4
                  (sim_after sim_calls_four)
                  (default (Crash (initial_state (drv := sim_driver) 0))
                     (mexExit (drv := sim_driver) 4 (sim_after sim_calls_four)))
                  ltac:(vm_compute; reflexivity))
           (state_of
              (default (Crash (initial_state (drv := sim_driver) 0))
                 (mexExit (drv := sim_driver) 4 (sim_after sim_calls_four))))).
  vm_compute. reflexivity.
Defined.

(** X16: [variant] tests that it was given at most four inputs, but not
    that it was given its two values. Called with the command word alone or
    with one value while a session is registered, it leaves the path empty,
    indexes the map with it and follows the pointer it finds: unless a
    session is registered under the empty path, this enters a NULL pointer
    under it and dereferences it. *)
Theorem variant_short_of_values `{drv : SickDriver} prhs st :
  length prhs < 3 → sick_lms_map st ≠ ∅ →
  sick_lms_map st !! EmptyString = None →
  setSickVariant 0 prhs st
  = Crash (mkState (<[EmptyString := None]> (sick_lms_map st)) (heap st)
             (world st) (log st)).
Proof.
  intros Hlen Hne Hnone. unfold setSickVariant. cbv zeta.
  assert ((4 <? length prhs) = false) as -> by (apply Nat.ltb_ge; lia).
  change (0 <? 0) with false. cbv beta iota. rewrite bind_map_size.
  assert ((size (sick_lms_map st) =? 0) = false) as ->.
  { apply Nat.eqb_neq. intros H0. by apply map_size_empty_inv in H0. }
  assert (device_path_arg 3 prhs st = Done EmptyString st) as Hdev.
  { unfold device_path_arg. cbv zeta.
    assert ((length prhs =? 3) = false) as -> by (apply Nat.eqb_neq; lia).
    assert ((length prhs =? 4) = false) as -> by (apply Nat.eqb_neq; lia).
    reflexivity. }
  rewrite (bind_done _ _ _ _ _ Hdev).
  unfold bind, sick_get, bind, map_index. by rewrite Hnone.
Qed.

Lemma variant_short_of_values_witness :
  setSickVariant (drv := sim_driver) 0 [mxStr "variant"; mxNum 100]
    (sim_after sim_calls_one)
  = Crash
      (mkState (drv := sim_driver)
         (<[EmptyString := None]> (sick_lms_map (sim_after sim_calls_one)))
         (heap (sim_after sim_calls_one)) (world (sim_after sim_calls_one))
         (log (sim_after sim_calls_one))).
Proof.
  apply (variant_short_of_values (drv := sim_driver)
           [mxStr "variant"; mxNum 100] (sim_after sim_calls_one)).
  - simpl. lia.
  - vm_compute. discriminate.
  - vm_compute. reflexivity.
Defined.

(** X17: apart from those two places the bridge has no undefined
    behaviour. In a state the process can reach, a call that asks a [grab]
    for at most one output and gives a [variant] its two values never reads
    an argument that is not there and never follows a NULL or dangling
    pointer, whatever the driver does; so any sequence of such calls runs
    to its end and leaves a state the process can reach. *)
Theorem sound_calls_never_fault `{drv : SickDriver} st :
  reachable st →
  (∀ nlhs prhs st',
     sound_call nlhs prhs → mexFunction nlhs prhs st ≠ Crash st') ∧
  (∀ calls,
     Forall (λ c, sound_call c.1 c.2) calls →
     ∃ st', run calls st = Some st' ∧ reachable st').
Proof.
  intros Hst. split.
  - intros nlhs prhs st' Hsound Hcrash.
    pose proof (mexFunction_total nlhs prhs Hsound st (reachable_ok _ Hst)) as H.
    by rewrite Hcrash in H.
  - intros calls Hall.
    assert (∃ st', run calls st = Some st') as [st' Hrun].
    { pose proof (reachable_ok _ Hst) as Hok. clear Hst. revert st Hok.
      induction Hall as [| [nlhs prhs] calls Hsound Hall IH]; intros st Hok;
        [by eexists |].
      simpl. pose proof (mexFunction_total nlhs prhs Hsound st Hok) as H.
      destruct (mexFunction nlhs prhs st); [by apply IH | by apply IH | done]. }
    exists st'. split; [done |].
    destruct Hst as (w & calls0 & Hrun0). exists w, (calls0 ++ calls).
    by rewrite run_app, Hrun0.
Qed.

Lemma sound_calls_never_fault_witness :
  ∃ st',
    run (drv := sim_driver)
      [(1, [mxStr "grab"]);
       (0, [mxStr "variant"; mxNum 100; mxNum (1 # 4)]);
       (0, [mxStr "info"]); (0, [mxStr "clear"])]
      (sim_after sim_calls_one) = Some st' ∧
    reachable st'.
Proof.
  apply (proj2 (sound_calls_never_fault (drv := sim_driver)
                  (sim_after sim_calls_one) sim_reachable_one)).
  repeat constructor; simpl; (discriminate || lia).
Defined.

(** ** The calls of the example programs *)

Section ExampleRuns.
Context `{drv : SickDriver}.

Lemma driver_calls_app a b :
  driver_calls (a ++ b) = driver_calls a ++ driver_calls b.
Proof. apply List.filter_app. Qed.

Lemma driver_calls_call ev : is_driver_call ev = true → driver_calls [ev] = [ev].
Proof. intros H. unfold driver_calls. simpl. by rewrite H. Qed.

Lemma driver_calls_line e : is_driver_call e = false → driver_calls [e] = [].
Proof. intros H. unfold driver_calls. simpl. by rewrite H. Qed.

Lemma runs_bind {R S} plan c c1 c2 (m : App R) (k : R → App S) :
  runs_calls plan c c1 m → (∀ r, runs_calls plan c1 c2 (k r)) →
  runs_calls plan c c2 (app_bind m k).
Proof.
  intros Hm Hk st Hc. unfold app_bind.
  destruct (Hm st Hc) as (Hpre & Hplan & Hret).
  destruct (m st) as [[r | e] st1]; simpl in *.
  - specialize (Hret r eq_refl).
    destruct (Hk r st1 Hret) as (Hpre' & Hplan' & Hret').
    split; [| done]. etrans; [exact Hpre |]. by rewrite Hret.
  - done.
Qed.

Lemma runs_invoke {R} plan c ev (m : method sick_private sick_world R) :
  is_driver_call ev = true → (c ++ [ev]) `prefix_of` plan →
  runs_calls plan c (c ++ [ev]) (app_invoke ev m).
Proof.
  intros Hev Hplan st Hc.
  rewrite app_invoke_log, driver_calls_app, Hc, (driver_calls_call ev Hev).
  split; [by apply prefix_app_r | done].
Qed.

Lemma runs_say plan c e :
  is_driver_call e = false → c `prefix_of` plan →
  runs_calls plan c c (say e).
Proof.
  intros He Hplan st Hc. simpl.
  by rewrite driver_calls_app, Hc, (driver_calls_line e He), app_nil_r.
Qed.

Lemma runs_scan_loop plan c announce n :
  (c ++ repeat AppGetSickScan n) `prefix_of` plan →
  runs_calls plan c (c ++ repeat AppGetSickScan n) (scan_loop announce n).
Proof.
  revert c. induction n as [| n IH]; intros c Hplan st Hc.
  - simpl in *. rewrite app_nil_r in *. by rewrite Hc.
  - assert ((c ++ [AppGetSickScan]) ++ repeat AppGetSickScan n
            = c ++ repeat AppGetSickScan (S n)) as Hshift
      by (by rewrite <- app_assoc).
    assert ((c ++ [AppGetSickScan]) `prefix_of` plan) as Hone.
    { etrans; [| exact Hplan]. rewrite <- Hshift. by apply prefix_app_r. }
    assert (∀ st1, driver_calls (app_log st1) = c ++ [AppGetSickScan] →
              c `prefix_of` driver_calls (app_log (scan_loop announce n st1).2) ∧
              driver_calls (app_log (scan_loop announce n st1).2)
                `prefix_of` plan ∧
              ∀ r, (scan_loop announce n st1).1 = Returns r →
                driver_calls (app_log (scan_loop announce n st1).2)
                = c ++ repeat AppGetSickScan (S n)) as Hrest.
    { intros st1 Hc1.
      destruct (IH (c ++ [AppGetSickScan]) ltac:(by rewrite Hshift) st1 Hc1)
        as (Hpre & Hin & Hret).
      split; [| split; [done | by rewrite <- Hshift]].
      etrans; [| exact Hpre]. by apply prefix_app_r. }
    pose proof (scan_loop_round announce n st) as Hround.
    destruct (GetSickScan (sick_lms st) (app_world st))
      as [[[values | e] members] w].
    + rewrite Hround. apply Hrest. simpl. by rewrite driver_calls_app, Hc.
    + assert (e = SickTimeoutException ∨ e ≠ SickTimeoutException) as [-> | Hne]
        by (destruct e; auto).
      * rewrite Hround. apply Hrest. simpl. by rewrite driver_calls_app, Hc.
      * assert (scan_loop announce (S n) st
                = (Throws e,
                   mkApp members w
                     (app_log st ++
                      AppGetSickScan ::
                      (if announce && is_SickException e
                       then [CerrWhat e] else [])))) as ->
          by (by destruct e).
        simpl. rewrite driver_calls_app, Hc.
        assert (driver_calls
                  (AppGetSickScan ::
                   (if announce && is_SickException e then [CerrWhat e] else []))
                = [AppGetSickScan]) as ->
          by (by destruct (announce && is_SickException e)).
        split; [by apply prefix_app_r | done].
Qed.

Lemma guarded_calls body st :
  driver_calls (guarded body st).1.2 = driver_calls (app_log (body st).2).
Proof.
  unfold guarded. destruct (body st) as [[r | e] st1]; simpl;
    by rewrite driver_calls_app, app_nil_r.
Qed.

Lemma guarded_code body st :
  (guarded body st).1.1 = 0%Z → ∃ r, (body st).1 = Returns r.
Proof. unfold guarded. destruct (body st) as [[r | e] st1]; [eauto | done]. Qed.

Lemma past_baud_check (argv : list string) :
  (length argv =? 3) && bool_decide (desired_baud argv = SICK_BAUD_UNKNOWN)
  = false ↔
  desired_baud argv ≠ SICK_BAUD_UNKNOWN.
Proof.
  unfold desired_baud. destruct (length argv =? 3); simpl.
  - by rewrite bool_decide_eq_false.
  - done.
Qed.


Lemma set_variant_rest_calls baud :
  runs_calls (set_variant_calls baud) [AppInitialize baud]
    (set_variant_calls baud)
    (app_bind (say CoutSettingVariant)
    (λ _, app_bind
            (app_invoke
               (AppSetSickVariant SICK_SCAN_ANGLE_100 SICK_SCAN_RESOLUTION_25)
               (SetSickVariant SICK_SCAN_ANGLE_100 SICK_SCAN_RESOLUTION_25))
    (λ _, app_bind (say CoutAcquiring)
    (λ _, app_bind (scan_loop true 10)
    (λ _, app_bind (say CoutSettingVariant)
    (λ _, app_bind
            (app_invoke
               (AppSetSickVariant SICK_SCAN_ANGLE_180 SICK_SCAN_RESOLUTION_50)
               (SetSickVariant SICK_SCAN_ANGLE_180 SICK_SCAN_RESOLUTION_50))
    (λ _, app_bind (say CoutAcquiring)
    (λ _, app_bind (scan_loop false 10)
    (λ _, app_invoke AppUninitialize Uninitialize))))))))).
Proof.
  eapply runs_bind; [apply runs_say; [done | by eexists] | intros _].
  eapply runs_bind; [apply runs_invoke; [done | by eexists] | intros _].
  eapply runs_bind; [apply runs_say; [done | by eexists] | intros _].
  eapply runs_bind; [apply runs_scan_loop; by eexists | intros _].
  eapply runs_bind; [apply runs_say; [done | by eexists] | intros _].
  eapply runs_bind; [apply runs_invoke; [done | by eexists] | intros _].
  eapply runs_bind; [apply runs_say; [done | by eexists] | intros _].
  eapply runs_bind; [apply runs_scan_loop; by eexists | intros _].
  apply runs_invoke; [done | by eexists].
Qed.

(** A guarded body that begins with [Initialize] and goes on by a plan. *)
Lemma guarded_call_plan plan baud (rest : App unit) st0 :
  driver_calls (app_log st0) = [] →
  [AppInitialize baud] `prefix_of` plan →
  runs_calls plan [AppInitialize baud] plan rest →
  driver_calls
    (guarded
       (app_bind (app_invoke (AppInitialize baud) (Initialize baud))
          (λ _, rest)) st0).1.2 `prefix_of` plan ∧
  ((guarded
      (app_bind (app_invoke (AppInitialize baud) (Initialize baud))
         (λ _, rest)) st0).1.1 = 0%Z →
   driver_calls
     (guarded
        (app_bind (app_invoke (AppInitialize baud) (Initialize baud))
           (λ _, rest)) st0).1.2 = plan) ∧
  [AppInitialize baud] `prefix_of`
    driver_calls
      (guarded
         (app_bind (app_invoke (AppInitialize baud) (Initialize baud))
            (λ _, rest)) st0).1.2.
Proof.
  intros Hc Hfirst Hrest.
  assert (runs_calls plan [] plan
            (app_bind (app_invoke (AppInitialize baud) (Initialize baud))
               (λ _, rest))) as Hbody.
  { eapply runs_bind; [by apply runs_invoke | by intros _]. }
  destruct (Hbody st0 Hc) as (_ & Hplan & Hret).
  rewrite guarded_calls. split; [done |]. split.
  { intros Hcode. apply guarded_code in Hcode as [r Hr]. by apply (Hret r). }
  unfold app_bind.
  destruct (runs_invoke plan [] (AppInitialize baud) (Initialize baud)
              eq_refl Hfirst st0 Hc) as (_ & _ & Hinit).
  pose proof (app_invoke_log (AppInitialize baud) (Initialize baud) st0) as Hlog.
  destruct (app_invoke _ _ st0) as [[r | e] st1]; simpl in *.
  - apply (Hrest st1). by apply (Hinit r).
  - by rewrite Hlog, driver_calls_app, Hc.
Qed.

End ExampleRuns.

(** ** Further properties of the example programs *)



(** X19: the calls [lms_set_variant] makes into the driver follow one plan:
    [Initialize] at the baud rate asked for, [SetSickVariant] to 100 degrees
    at 0.25, ten times [GetSickScan], [SetSickVariant] to 180 degrees at
    0.5, ten times [GetSickScan], then [Uninitialize]. Every run makes a
    prefix of this plan; a run that leaves with 0 made all of it; a run that
    gets past the tests on its arguments starts with [Initialize], and one
    that does not makes no call at all. *)
Theorem set_variant_call_plan `{drv : SickDriver} argv w :
  driver_calls (lms_set_variant_main argv w).1.2
    `prefix_of` set_variant_calls (desired_baud argv) ∧
  ((lms_set_variant_main argv w).1.1 = 0%Z →
   driver_calls (lms_set_variant_main argv w).1.2
   = set_variant_calls (desired_baud argv)) ∧
  (usage_wanted argv = false → desired_baud argv ≠ SICK_BAUD_UNKNOWN →
   [AppInitialize (desired_baud argv)]
     `prefix_of` driver_calls (lms_set_variant_main argv w).1.2) ∧
  (usage_wanted argv = true ∨ desired_baud argv = SICK_BAUD_UNKNOWN →
   driver_calls (lms_set_variant_main argv w).1.2 = []).
Proof.
  unfold lms_set_variant_main. cbv zeta. fold (desired_baud argv).
  destruct (usage_wanted argv).
  { simpl. repeat split; try done. by eexists. }
  destruct (_ && _) eqn:Hbaud.
  { simpl. repeat split; try done; [by eexists |].
    intros _ Hgood. apply past_baud_check in Hgood. congruence. }
  destruct (guarded_call_plan (set_variant_calls (desired_baud argv))
              (desired_baud argv) _
              (mkApp (SickLMS_ctor (nth 1 argv EmptyString)) w []) eq_refl
              ltac:(by eexists) (set_variant_rest_calls (desired_baud argv)))
    as (Hplan & Hall & Hfirst).
  split; [done |]. split; [done |]. split; [done |].
  intros [? | Hbad]; [done |]. apply past_baud_check in Hbaud. done.
Qed.

Lemma set_variant_call_plan_witness :
  driver_calls sim_variant_run.1.2 = set_variant_calls SICK_BAUD_9600.
Proof.
  apply (proj1 (proj2 (set_variant_call_plan (drv := sim_driver)
                         ["lms_set_variant"; "/dev/ttyUSB0"; "9600"] 0))).
  vm_compute. reflexivity.
Defined.

(** X20: neither example lets a failure of [Initialize] pass, a timeout
    included: when [Initialize] throws, the program writes that an error
    occurred and leaves with -1, having made no other call into the driver;
    the world is what the failed call and the destructor of the object
    leave. *)
Theorem examples_initialize_failure `{drv : SickDriver} argv w e members w' :
  usage_wanted argv = false → desired_baud argv ≠ SICK_BAUD_UNKNOWN →
  Initialize (desired_baud argv) (SickLMS_ctor (nth 1 argv EmptyString)) w
  = (Throws e, members, w') →
  lms_simple_app_main argv w
  = ((-1)%Z, [AppInitialize (desired_baud argv); CerrErrorOccurred],
     SickLMS_dtor members w') ∧
  lms_set_variant_main argv w
  = ((-1)%Z, [AppInitialize (desired_baud argv); CerrErrorOccurred],
     SickLMS_dtor members w').
Proof.
  intros Husage Hbaud Hinit. apply past_baud_check in Hbaud.
  unfold lms_simple_app_main, lms_set_variant_main. cbv zeta.
  fold (desired_baud argv). rewrite Husage, Hbaud.
  unfold guarded, app_bind, app_invoke. simpl. by rewrite Hinit.
Qed.

Lemma examples_initialize_failure_witness :
  lms_simple_app_main (drv := sim_driver) ["lms_simple_app"; "/dev/null"] 0
  = ((-1)%Z, [AppInitialize SICK_BAUD_38400; CerrErrorOccurred], 1).
Proof.
  apply (examples_initialize_failure (drv := sim_driver)
           ["lms_simple_app"; "/dev/null"] 0 SickIOException
           (mkSim "/dev/null" false 180 (1 # 2) 0 : @sick_private sim_driver) 1).
  - reflexivity.
  - vm_compute. discriminate.
  - reflexivity.
Defined.

Lemma guarded_last `{drv : SickDriver} (body : App unit) st :
  ((guarded body st).1.1 = 0%Z ∧ last (guarded body st).1.2 = Some CoutDone) ∨
  ((guarded body st).1.1 = (-1)%Z ∧
   last (guarded body st).1.2 = Some CerrErrorOccurred).
Proof.
  unfold guarded. destruct (body st) as [[r | e] st1]; simpl;
    rewrite last_snoc; auto.
Qed.

(** X21: either example leaves with 0 or with -1, and with 0 exactly when
    the last thing it wrote is that it is done; when it leaves with -1 the
    last thing it wrote is the usage, the complaint about the baud rate, or
    that an error occurred. *)
Theorem examples_exit_code `{drv : SickDriver} argv w :
  (((lms_simple_app_main argv w).1.1 = 0%Z ∧
    last (lms_simple_app_main argv w).1.2 = Some CoutDone) ∨
   ((lms_simple_app_main argv w).1.1 = (-1)%Z ∧
    last (lms_simple_app_main argv w).1.2
      ∈ [Some CoutUsage; Some CerrInvalidBaud; Some CerrErrorOccurred])) ∧
  (((lms_set_variant_main argv w).1.1 = 0%Z ∧
    last (lms_set_variant_main argv w).1.2 = Some CoutDone) ∨
   ((lms_set_variant_main argv w).1.1 = (-1)%Z ∧
    last (lms_set_variant_main argv w).1.2
      ∈ [Some CoutUsage; Some CerrInvalidBaud; Some CerrErrorOccurred])).
Proof.
  unfold lms_simple_app_main, lms_set_variant_main. cbv zeta.
  destruct (usage_wanted argv).
  { split; right; (split; [reflexivity |]); apply list_elem_of_here. }
  destruct (_ && _).
  { split; right; (split; [reflexivity |]);
      apply list_elem_of_further, list_elem_of_here. }
  split.
  all: match goal with
       | |- context [guarded ?b ?s] =>
           pose proof (guarded_last b s) as H; set (run := guarded b s) in *
       end.
  all: destruct H as [H | [Hc Hl]]; [left; exact H | right].
  all: split; [exact Hc |]; rewrite Hl.
  all: apply list_elem_of_further, list_elem_of_further, list_elem_of_here.
Qed.
